(** * PAX calculator core: [pax-calculator.ts]

    A shallow embedding of the calculation, parsing, formatting and
    validation functions of [src/lib/pax-calculator.ts], over a model of the
    parts of the JavaScript runtime they call; and, after them, of its
    lookups, of the data index [src/lib/data/index.ts] with the dataset
    [src/lib/data/prosolo2024.ts], and of the calculator store and the
    derived stores of [src/lib/stores.ts].

    - JavaScript numbers are IEEE 754 binary64 values, taken from the
      Standard Library's executable specification [SpecFloat] at precision
      53 and maximal exponent 1024 (round to nearest, ties to even).
    - JavaScript strings are sequences of UTF-16 code units ([list N]).
    - [throw new Error(msg)] is the [Throw msg] result.
    - Objects used as dictionaries and [Set]s are stdpp's [gmap] and [gset].
    - [new Date()] reads the clock; the reading is an argument of the call.
    - The messages of the validator are kept as the template each comes
      from and the values put into it. *)

From Stdlib Require Import ZArith List Bool Lia.
From Stdlib Require Import SpecFloat.
From stdpp Require Import strings gmap.

Local Open Scope Z_scope.

(** ** Strings *)

Module JsString.

(** A string is the list of its UTF-16 code units, numbers below 65536. *)

(** The code units of an ASCII literal. *)
Definition str (s : string) : list N :=
  map Ascii.N_of_ascii (String.list_ascii_of_string s).

(** [\d] in a regular expression: the ASCII digits only. *)
Definition is_digit (c : N) : bool := ((48 <=? c) && (c <=? 57))%N.

(** WhiteSpace and LineTerminator code units, the ones [trim] strips. *)
Definition is_white_space (c : N) : bool :=
  ((c =? 9) || (c =? 10) || (c =? 11) || (c =? 12) || (c =? 13) ||
   (c =? 32) || (c =? 160) || (c =? 5760) ||
   ((8192 <=? c) && (c <=? 8202)) ||
   (c =? 8232) || (c =? 8233) || (c =? 8239) || (c =? 8287) ||
   (c =? 12288) || (c =? 65279))%N.

Fixpoint trimStart (s : list N) : list N :=
  match s with
  | c :: s' => if is_white_space c then trimStart s' else s
  | [] => []
  end.

Definition trimEnd (s : list N) : list N := rev (trimStart (rev s)).

(** [String.prototype.trim] *)
Definition trim (s : list N) : list N := trimEnd (trimStart s).

(** [s.padEnd(n, c)] for a one-unit filler [c]. *)
Definition padEnd (n : nat) (c : N) (s : list N) : list N :=
  s ++ repeat c (n - length s)%nat.

(** [s.padStart(n, c)] for a one-unit filler [c]. *)
Definition padStart (n : nat) (c : N) (s : list N) : list N :=
  repeat c (n - length s)%nat ++ s.

(** The longest prefix of ASCII digits, and what follows it. *)
Fixpoint span_digits (s : list N) : list N * list N :=
  match s with
  | c :: s' =>
      if is_digit c
      then let '(d, r) := span_digits s' in (c :: d, r)
      else ([], s)
  | [] => ([], [])
  end.

(** The value of a run of decimal digits, most significant first. *)
Definition digits_value (ds : list N) : N :=
  fold_left (fun acc c => acc * 10 + (c - 48))%N ds 0%N.

(** The decimal digits of [n], most significant first; ["0"] for zero.
    The fuel bounds the number of digits. *)
Fixpoint digits_fuel (fuel : nat) (n : N) (acc : list N) : list N :=
  match fuel with
  | O => acc
  | S fuel' =>
      let acc' := (48 + n mod 10)%N :: acc in
      if (n <? 10)%N then acc' else digits_fuel fuel' (n / 10)%N acc'
  end.

Definition digits_of (n : N) : list N :=
  digits_fuel (S (N.to_nat (N.log2 n))) n [].

End JsString.

Import JsString.

(** ** Numbers *)

Module JsNumber.

(** A JavaScript number is a binary64 value. *)
Definition number := spec_float.
Definition prec : Z := 53.
Definition emax : Z := 1024.

Definition add : number -> number -> number := SFadd prec emax.
Definition sub : number -> number -> number := SFsub prec emax.
Definition mul : number -> number -> number := SFmul prec emax.
Definition div : number -> number -> number := SFdiv prec emax.
Definition neg : number -> number := SFopp.

(** [x < y] and [x <= y]; both are false when an operand is NaN.
    [x > y] is [ltb y x]. *)
Definition ltb : number -> number -> bool := SFltb.
Definition leb : number -> number -> bool := SFleb.

(** The number nearest to the integer [n]. *)
Definition of_Z (n : Z) : number := binary_normalize prec emax n 0 false.

(** The number nearest to [p / q], negated when [sgn] is set: the quotient
    is formed exactly and rounded once. *)
Definition of_ratio (sgn : bool) (p : N) (q : positive) : number :=
  match p with
  | N0 => S754_zero sgn
  | Npos p => SFdiv prec emax (S754_finite sgn p 0) (S754_finite false q 0)
  end.

(** The number nearest to [d * 10^e], negated when [sgn] is set: the value
    of a decimal literal with digits [d] and decimal exponent [e]. *)
Definition of_decimal (sgn : bool) (d : N) (e : Z) : number :=
  if 0 <=? e
  then (if sgn then neg else id) (of_Z (Z.of_N d * 10 ^ e))
  else of_ratio sgn d (Z.to_pos (10 ^ (- e))).

(** Truthiness of a number in a condition: [0], [-0] and [NaN] are falsy. *)
Definition truthy (x : number) : bool :=
  match x with
  | S754_zero _ | S754_nan => false
  | _ => true
  end.

(** The same value, [+0] and [-0] told apart. *)
Definition same (x y : number) : bool :=
  match x, y with
  | S754_zero a, S754_zero b => Bool.eqb a b
  | S754_infinity a, S754_infinity b => Bool.eqb a b
  | S754_nan, S754_nan => true
  | S754_finite a m e, S754_finite b m' e' =>
      Bool.eqb a b && (m =? m')%positive && (e =? e')
  | _, _ => false
  end.

End JsNumber.

Import JsNumber.

Declare Scope js_scope.
Delimit Scope js_scope with js.
Bind Scope js_scope with number.
Infix "+" := add : js_scope.
Infix "-" := sub : js_scope.
Infix "*" := mul : js_scope.
Infix "/" := div : js_scope.
Infix "<" := ltb : js_scope.
Infix "<=" := leb : js_scope.
Notation "x > y" := (ltb y x) (only parsing) : js_scope.

(** ** Conversions between numbers and strings *)

Module JsConv.

(** [floor (m * 2^e * 10^f + 1/2)]: the integer [n] for which [n / 10^f] is
    nearest to [m * 2^e], the larger one on a tie. *)
Definition scaled_round (m : positive) (e : Z) (f : nat) : Z :=
  let p := 10 ^ Z.of_nat f in
  if 0 <=? e then Zpos m * 2 ^ e * p
  else (2 * Zpos m * p + 2 ^ (- e)) / 2 ^ (1 - e).

(** [10^21 <= m * 2^e] *)
Definition at_least_1e21 (m : positive) (e : Z) : bool :=
  if 0 <=? e then 10 ^ 21 <=? Zpos m * 2 ^ e
  else 10 ^ 21 * 2 ^ (- e) <=? Zpos m.

(** The digits of [n] with a point before the last [f] of them, zeros
    added in front so that one digit stands before the point. *)
Definition fixed_digits (n : N) (f : nat) : list N :=
  match f with
  | O => digits_of n
  | S _ =>
      let m := padStart (S f) 48 (digits_of n) in
      let k := length m in
      firstn (k - f) m ++ str "." ++ skipn (k - f) m
  end.

(** Number::toString for a finite value [x = m * 2^e] of at least [10^21]:
    the shortest digit string [s] of [k] digits such that [s * 10^(n-k)]
    rounds to [x], the nearest to [x] among those (the even one on a tie),
    in exponential notation. *)
Definition candidate (x : number) (X : Z) (n k : nat) (s : Z)
  : option (Z * Z * nat) :=
  let '(s, n) :=
    if s =? 10 ^ Z.of_nat k then (10 ^ (Z.of_nat k - 1), S n) else (s, n) in
  let v := s * 10 ^ Z.of_nat (n - k) in
  if same (of_Z v) x then Some (Z.abs (v - X), s, n) else None.

Definition closer (a b : option (Z * Z * nat)) : option (Z * Z * nat) :=
  match a, b with
  | Some (da, sa, na), Some (db, sb, nb) =>
      if da <? db then a
      else if db <? da then b
      else if Z.even sa then a else b
  | Some _, None => a
  | None, _ => b
  end.

Fixpoint shortest (x : number) (X : Z) (n k : nat) (fuel : nat)
  : Z * nat :=
  match fuel with
  | O => (X, n)
  | S fuel' =>
      let lo := X / 10 ^ Z.of_nat (n - k) in
      match closer (candidate x X n k lo) (candidate x X n k (lo + 1)) with
      | Some (_, s, n') => (s, n')
      | None => shortest x X n (S k) fuel'
      end
  end.

Definition toString_large (m : positive) (e : Z) : list N :=
  let X := Z.shiftl (Zpos m) e in
  let n := length (digits_of (Z.to_N X)) in
  let '(s, n') := shortest (S754_finite false m e) X n 1 n in
  let ds := digits_of (Z.to_N s) in
  firstn 1 ds
  ++ (match skipn 1 ds with [] => [] | r => str "." ++ r end)
  ++ str "e+" ++ digits_of (N.of_nat (n' - 1)).

(** [Number.prototype.toFixed] *)
Definition toFixed (x : number) (f : nat) : list N :=
  match x with
  | S754_nan => str "NaN"
  | S754_infinity s => if s then str "-Infinity" else str "Infinity"
  | S754_zero _ => fixed_digits 0 f
  | S754_finite s m e =>
      (if s then str "-" else [])
      ++ (if at_least_1e21 m e then toString_large m e
          else fixed_digits (Z.to_N (scaled_round m e f)) f)
  end.

(** An optional sign in front of a literal. *)
Definition split_sign (s : list N) : bool * list N :=
  match s with
  | c :: r =>
      if (c =? 45)%N then (true, r)
      else if (c =? 43)%N then (false, r)
      else (false, s)
  | [] => (false, [])
  end.

(** The value of a digit in a radix up to 16, if it is one. *)
Definition digit_in (radix : N) (c : N) : option N :=
  let v :=
    if ((48 <=? c) && (c <=? 57))%N then Some (c - 48)%N
    else if ((97 <=? c) && (c <=? 102))%N then Some (c - 87)%N
    else if ((65 <=? c) && (c <=? 70))%N then Some (c - 55)%N
    else None in
  match v with
  | Some d => if (d <? radix)%N then Some d else None
  | None => None
  end.

(** The longest prefix of digits in [radix]: how many there are, their
    value, and what follows. *)
Fixpoint span_radix (radix : N) (s : list N) (count : nat) (acc : N)
  : nat * N * list N :=
  match s with
  | c :: s' =>
      match digit_in radix c with
      | Some d => span_radix radix s' (S count) (acc * radix + d)%N
      | None => (count, acc, s)
      end
  | [] => (count, acc, [])
  end.

(** The exponent part of a decimal literal, empty or [e], [e+], [e-] with
    digits up to the end. *)
Definition exponent_part (s : list N) : option Z :=
  match s with
  | [] => Some 0
  | c :: r =>
      if ((c =? 101) || (c =? 69))%N then
        let '(sgn, r') := split_sign r in
        match span_digits r' with
        | ((_ :: _) as ds, []) =>
            let v := Z.of_N (digits_value ds) in
            Some (if sgn then - v else v)
        | _ => None
        end
      else None
  end.

(** An unsigned decimal literal: its digits as an integer and the power of
    ten it is scaled by. *)
Definition decimal_literal (s : list N) : option (N * Z) :=
  let '(ip, r1) := span_digits s in
  let '(fp, r2) :=
    match r1 with
    | 46%N :: r => span_digits r
    | _ => ([], r1)
    end in
  match ip, fp with
  | [], [] => None
  | _, _ =>
      match exponent_part r2 with
      | Some ex =>
          Some (digits_value (ip ++ fp), ex - Z.of_nat (length fp))
      | None => None
      end
  end.

(** A binary, octal or hexadecimal integer literal. *)
Definition nondecimal_literal (s : list N) : option N :=
  match s with
  | 48%N :: p :: r =>
      let radix :=
        if ((p =? 120) || (p =? 88))%N then Some 16%N
        else if ((p =? 111) || (p =? 79))%N then Some 8%N
        else if ((p =? 98) || (p =? 66))%N then Some 2%N
        else None in
      match radix with
      | Some rx =>
          match span_radix rx r 0 0 with
          | (S _, v, []) => Some v
          | _ => None
          end
      | None => None
      end
  | _ => None
  end.

(** [Number(s)] on a string: StringToNumber. *)
Definition Number (s : list N) : number :=
  match trim s with
  | [] => S754_zero false
  | t =>
      match nondecimal_literal t with
      | Some v => of_Z (Z.of_N v)
      | None =>
          let '(sgn, u) := split_sign t in
          if bool_decide (u = str "Infinity") then S754_infinity sgn
          else
            match decimal_literal u with
            | Some (d, ex) => of_decimal sgn d ex
            | None => S754_nan
            end
      end
  end.

(** [parseInt(s)] with no radix argument. *)
Definition parseInt (s : list N) : number :=
  let '(sgn, u) := split_sign (trimStart s) in
  let '(radix, v) :=
    match u with
    | 48%N :: p :: r =>
        if ((p =? 120) || (p =? 88))%N then (16%N, r) else (10%N, u)
    | _ => (10%N, u)
    end in
  match span_radix radix v 0 0 with
  | (S _, n, _) => (if sgn then neg else id) (of_Z (Z.of_N n))
  | (O, _, _) => S754_nan
  end.

End JsConv.

Import JsConv.

(** ** Completions and regular expressions *)

(** A call either returns a value or throws [new Error(message)]. *)
Inductive completion (A : Type) : Type :=
| Return (a : A)
| Throw (message : list N).

Arguments Return {A} a.
Arguments Throw {A} message.

(** A string in a condition is falsy when it is empty. *)
Definition empty (s : list N) : bool :=
  match s with
  | [] => true
  | _ => false
  end.

Module Regex.

(** The regular expressions of the parser are anchored sequences of
    literal characters and captured digit runs: [Digits lo hi] is the group
    [(\d{lo,hi})], and [(\d+)] when [hi] is [None]. *)
Inductive atom : Type :=
| Digits (lo : nat) (hi : option nat)
| Lit (c : N).

(** Try [f] on [k], [k - 1], ..., [lo] and keep the first success. *)
Fixpoint backtrack {A : Type} (f : nat -> option A) (lo k : nat)
  : option A :=
  if (k <? lo)%nat then None
  else
    match f k with
    | Some r => Some r
    | None =>
        match k with
        | O => None
        | S k' => backtrack f lo k'
        end
    end.

(** [s.match(/^...$/)]: the captured groups of the first match found by
    greedy backtracking, or [None]. *)
Fixpoint exec (p : list atom) (s : list N) : option (list (list N)) :=
  match p with
  | [] =>
      match s with
      | [] => Some []
      | _ :: _ => None
      end
  | Lit c :: p' =>
      match s with
      | c' :: s' => if (c =? c')%N then exec p' s' else None
      | [] => None
      end
  | Digits lo hi :: p' =>
      let run := length (fst (span_digits s)) in
      let most :=
        match hi with
        | Some h => Nat.min h run
        | None => run
        end in
      backtrack
        (fun k =>
           match exec p' (skipn k s) with
           | Some groups => Some (firstn k s :: groups)
           | None => None
           end)
        lo most
  end.

End Regex.

Import Regex.

(** ** Data model: [types.ts] *)

Record SoloClass : Type := {
  code : list N;
  name : list N;
  paxIndex : number;
  isActive : bool
}.

(** The group's fields [id] and [name] are [group_id] and [group_name]. *)
Record SoloClassGroup : Type := {
  group_id : list N;
  group_name : list N;
  description : list N;
  classes : list SoloClass
}.

Record PaxIndex : Type := {
  year : number;
  indexType : list N;
  version : list N;
  releaseDate : list N;
  lastUpdated : list N;
  classGroups : list SoloClassGroup;
  classesByCode : gmap (list N) SoloClass
}.

Record PaxCalculationResult : Type := {
  inputTime : number;
  inputClass : SoloClass;
  outputTime : number;
  outputClass : SoloClass;
  timeDifference : number;
  isFaster : bool;
  calculatedAt : list N
}.

(** The entries of [errors] and [warnings] are template strings; a message
    is kept as the template it comes from and the values put into it. *)
Inductive message : Type :=
(* `Invalid year: ${paxIndex.year}` *)
| InvalidYear (y : number)
(* `Invalid index type: ${paxIndex.indexType}` *)
| InvalidIndexType (t : list N)
(* 'No class groups found' *)
| NoClassGroupsFound
(* `Class group missing id or name: ${JSON.stringify(group)}` *)
| ClassGroupMissingIdOrName (g : SoloClassGroup)
(* `Duplicate class code: ${soloClass.code}` *)
| DuplicateClassCode (c : list N)
(* `Class missing code or name: ${JSON.stringify(soloClass)}` *)
| ClassMissingCodeOrName (c : SoloClass)
(* `PAX index outside typical range for ${code}: ${paxIndex}` *)
| PaxIndexOutsideTypicalRange (c : list N) (pax : number)
(* `Invalid PAX index for ${code}: ${paxIndex}` *)
| InvalidPaxIndex (c : list N) (pax : number)
(* `Class lookup count mismatch: ${keys} vs ${classCount}` *)
| ClassLookupCountMismatch (keys classCount : nat).

Record PaxValidationResult : Type := {
  isValid : bool;
  errors : list message;
  warnings : list message;
  classCount : nat;
  groupCount : nat
}.

(** ** The functions of [pax-calculator.ts] *)

Section Calculator.

Local Open Scope js_scope.

(** The numeric literals of the source. *)
Definition zero : number := S754_zero false.
Definition n60 : number := of_Z 60.
Definition n1000 : number := of_Z 1000.
Definition n3600 : number := of_Z 3600.
Definition n2000 : number := of_Z 2000.
Definition n2100 : number := of_Z 2100.
Definition n0_7 : number := of_decimal false 7 (-1).
Definition n1_0 : number := of_Z 1.

(** [calculatePaxTime]; [now] is what [new Date().toISOString()] returns
    at the call. *)
Definition calculatePaxTime (now : list N) (inputTime : number)
    (inputClass outputClass : SoloClass) : completion PaxCalculationResult :=
  if inputTime <= zero then
    Throw (str "Input time must be greater than 0")
  else if (paxIndex inputClass <= zero) || (paxIndex outputClass <= zero) then
    Throw (str "PAX indices must be greater than 0")
  else
    let outputTime :=
      inputTime * (paxIndex inputClass / paxIndex outputClass) in
    let timeDifference := outputTime - inputTime in
    Return {|
      inputTime := inputTime;
      inputClass := inputClass;
      outputTime := Number (toFixed outputTime 3);
      outputClass := outputClass;
      timeDifference := Number (toFixed timeDifference 3);
      isFaster := timeDifference < zero;
      calculatedAt := now
    |}.

(** [/^(\d+):(\d{1,2})\.(\d{1,3})$/] *)
Definition minutesRe : list atom :=
  [Digits 1 None; Lit 58; Digits 1 (Some 2); Lit 46; Digits 1 (Some 3)]%nat.

(** [/^(\d+):(\d{1,2}):(\d{1,2})\.(\d{1,3})$/] *)
Definition hoursRe : list atom :=
  [Digits 1 None; Lit 58; Digits 1 (Some 2); Lit 58; Digits 1 (Some 2);
   Lit 46; Digits 1 (Some 3)]%nat.

(** [/^(\d+)\.(\d{1,3})$/] *)
Definition decimalRe : list atom :=
  [Digits 1 None; Lit 46; Digits 1 (Some 3)]%nat.

(** [/^(\d+)$/] *)
Definition wholeRe : list atom := [Digits 1 None]%nat.

Definition parseTimeString (timeString : list N) : completion number :=
  if empty timeString || empty (trim timeString) then
    Throw (str "Time string cannot be empty")
  else
    let cleaned := trim timeString in
    match exec minutesRe cleaned with
    | Some [minutes; seconds; milliseconds] =>
        let totalSeconds := parseInt minutes * n60 + parseInt seconds in
        let ms := parseInt (padEnd 3 48 milliseconds) in
        Return (totalSeconds + ms / n1000)
    | _ =>
    match exec hoursRe cleaned with
    | Some [hours; minutes; seconds; milliseconds] =>
        let totalSeconds :=
          parseInt hours * n3600 + parseInt minutes * n60
          + parseInt seconds in
        let ms := parseInt (padEnd 3 48 milliseconds) in
        Return (totalSeconds + ms / n1000)
    | _ =>
    match exec decimalRe cleaned with
    | Some [seconds; milliseconds] =>
        let ms := parseInt (padEnd 3 48 milliseconds) in
        Return (parseInt seconds + ms / n1000)
    | _ =>
    match exec wholeRe cleaned with
    | Some [whole] => Return (parseInt whole)
    | _ => Throw (str "Invalid time format: " ++ timeString)
    end end end end.

Definition formatTime (seconds : number) : completion (list N) :=
  if seconds < zero then Throw (str "Time cannot be negative")
  else Return (toFixed seconds 3).

(** The state the validation loop updates: the two message arrays, the
    running count and the set of codes seen so far. *)
Record validation : Type := {
  v_errors : list message;
  v_warnings : list message;
  v_classCount : nat;
  v_seenCodes : gset (list N)
}.

Definition push_error (st : validation) (e : message) : validation :=
  {| v_errors := v_errors st ++ [e];
     v_warnings := v_warnings st;
     v_classCount := v_classCount st;
     v_seenCodes := v_seenCodes st |}.

Definition push_warning (st : validation) (w : message) : validation :=
  {| v_errors := v_errors st;
     v_warnings := v_warnings st ++ [w];
     v_classCount := v_classCount st;
     v_seenCodes := v_seenCodes st |}.

(** The body of the inner loop, for one class of a group. *)
Definition validateClass (st : validation) (soloClass : SoloClass)
  : validation :=
  let st :=
    {| v_errors := v_errors st;
       v_warnings := v_warnings st;
       v_classCount := S (v_classCount st);
       v_seenCodes := v_seenCodes st |} in
  let st :=
    if bool_decide (code soloClass ∈ v_seenCodes st)
    then push_error st (DuplicateClassCode (code soloClass))
    else st in
  let st :=
    {| v_errors := v_errors st;
       v_warnings := v_warnings st;
       v_classCount := v_classCount st;
       v_seenCodes := {[ code soloClass ]} ∪ v_seenCodes st |} in
  let st :=
    if empty (code soloClass) || empty (name soloClass)
    then push_error st (ClassMissingCodeOrName soloClass)
    else st in
  let st :=
    if (paxIndex soloClass < n0_7) || (paxIndex soloClass > n1_0)
    then push_warning st
           (PaxIndexOutsideTypicalRange (code soloClass) (paxIndex soloClass))
    else st in
  if paxIndex soloClass <= zero
  then push_error st (InvalidPaxIndex (code soloClass) (paxIndex soloClass))
  else st.

(** The body of the outer loop, for one group. *)
Definition validateGroup (st : validation) (group : SoloClassGroup)
  : validation :=
  if empty (group_id group) || empty (group_name group)
  then push_error st (ClassGroupMissingIdOrName group)
  else fold_left validateClass (classes group) st.

Definition validatePaxIndex (paxIndex : PaxIndex) : PaxValidationResult :=
  let errors := [] in
  let errors :=
    if negb (truthy (year paxIndex)) || (year paxIndex < n2000)
       || (year paxIndex > n2100)
    then errors ++ [InvalidYear (year paxIndex)] else errors in
  let errors :=
    if empty (indexType paxIndex)
       || negb (bool_decide (indexType paxIndex ∈ [str "Solo"; str "ProSolo"]))
    then errors ++ [InvalidIndexType (indexType paxIndex)] else errors in
  let errors :=
    if (length (classGroups paxIndex) =? 0)%nat
    then errors ++ [NoClassGroupsFound] else errors in
  let st :=
    fold_left validateGroup (classGroups paxIndex)
      {| v_errors := errors; v_warnings := [];
         v_classCount := 0; v_seenCodes := ∅ |} in
  let errors :=
    if negb (size (classesByCode paxIndex) =? v_classCount st)%nat
    then v_errors st
         ++ [ClassLookupCountMismatch (size (classesByCode paxIndex))
               (v_classCount st)]
    else v_errors st in
  {| isValid := (length errors =? 0)%nat;
     errors := errors;
     warnings := v_warnings st;
     classCount := v_classCount st;
     groupCount := length (classGroups paxIndex) |}.

End Calculator.


(** * Vocabulary of the statements *)

Section Vocabulary.

Local Open Scope js_scope.

(** Finite values, and the values that are binary64 numbers at all: a
    finite one has a mantissa and an exponent in range. *)
Definition finite (x : number) : bool :=
  match x with
  | S754_zero _ | S754_finite _ _ _ => true
  | _ => false
  end.

Definition is_double (x : number) : bool := valid_binary prec emax x.

(** The number a decimal literal with the digits [n], the last [k] of them
    after the point, denotes. *)
Definition dec (n : N) (k : Z) : number := of_decimal false n (- k).

(** A class with a given index, for the examples. *)
Definition mkClass (c : string) (pax : number) : SoloClass :=
  {| code := str c; name := str c; paxIndex := pax; isActive := true |}.

(** [|x|] *)
Definition abs : number -> number := SFabs.

(** What a regular expression of the parser accepts, with the groups it
    captures: the literal characters in order, and between them runs of
    digits within the bounds. *)
Inductive matches : list atom -> list N -> list (list N) -> Prop :=
| matches_end : matches [] [] []
| matches_lit (c : N) (p : list atom) (s : list N) (g : list (list N)) :
    matches p s g -> matches (Lit c :: p) (c :: s) g
| matches_digits (lo : nat) (hi : option nat) (p : list atom)
    (d s : list N) (g : list (list N)) :
    forallb is_digit d = true ->
    (lo <= length d)%nat ->
    (forall h, hi = Some h -> (length d <= h)%nat) ->
    matches p s g ->
    matches (Digits lo hi :: p) (d ++ s) (d :: g).

(** A pattern whose literals are not digits and whose digit runs are each
    followed by a literal or by the end. *)
Fixpoint delimited (p : list atom) : bool :=
  match p with
  | [] => true
  | Lit c :: p' => negb (is_digit c) && delimited p'
  | Digits _ _ :: p' =>
      match p' with
      | Digits _ _ :: _ => false
      | _ => delimited p'
      end
  end.

(** The literal characters of a pattern, and the characters of a string
    that are not digits. *)
Fixpoint literals (p : list atom) : list N :=
  match p with
  | [] => []
  | Lit c :: p' => c :: literals p'
  | Digits _ _ :: p' => literals p'
  end.

Definition separators (s : list N) : list N :=
  List.filter (fun c => negb (is_digit c)) s.

(** A string that does not start with a digit. *)
Definition no_digit_ahead (s : list N) : Prop :=
  match s with
  | [] => True
  | c :: _ => is_digit c = false
  end.

(** A non-empty run of digits of at most [hi] characters. *)
Definition is_digit_run (hi : option nat) (d : list N) : bool :=
  forallb is_digit d && (1 <=? length d)%nat
  && match hi with
     | Some h => (length d <=? h)%nat
     | None => true
     end.

Definition digit_run (hi : option nat) (d : list N) : Prop :=
  is_digit_run hi d = true.

(** The four grammars of the parser, as the specification words them. *)

(** minutes:seconds.milliseconds - one or more digits, a colon, one or two
    digits, a dot, one to three digits. *)
Definition minutes_grammar (s : list N) : Prop :=
  exists m sec ms : list N,
    digit_run None m /\ digit_run (Some 2%nat) sec
    /\ digit_run (Some 3%nat) ms
    /\ s = m ++ str ":" ++ sec ++ str "." ++ ms.

(** hours:minutes:seconds.milliseconds - digits, a colon, one or two
    digits, a colon, one or two digits, a dot, one to three digits. *)
Definition hours_grammar (s : list N) : Prop :=
  exists h m sec ms : list N,
    digit_run None h /\ digit_run (Some 2%nat) m
    /\ digit_run (Some 2%nat) sec /\ digit_run (Some 3%nat) ms
    /\ s = h ++ str ":" ++ m ++ str ":" ++ sec ++ str "." ++ ms.

(** seconds.milliseconds - one or more digits, a dot, one to three
    digits. *)
Definition decimal_grammar (s : list N) : Prop :=
  exists sec ms : list N,
    digit_run None sec /\ digit_run (Some 3%nat) ms
    /\ s = sec ++ str "." ++ ms.

(** Whole seconds - one or more digits and nothing else. *)
Definition whole_grammar (s : list N) : Prop := digit_run None s.

Definition throws {A : Type} (c : completion A) : Prop :=
  exists msg : list N, c = Throw msg.

(** The number a run of decimal digits denotes. *)
Definition int (d : list N) : number := of_Z (Z.of_N (digits_value d)).

(** The groups whose classes the validator visits, and those classes in
    the order of the visit. *)
Definition has_id_and_name (g : SoloClassGroup) : bool :=
  negb (empty (group_id g) || empty (group_name g)).

Definition visited (groups : list SoloClassGroup) : list SoloClass :=
  flat_map classes (List.filter has_id_and_name groups).

(** All the classes of a dataset, visited or not. *)
Definition all_classes (groups : list SoloClassGroup) : list SoloClass :=
  flat_map classes groups.

(** How many elements of a list satisfy a test, and how often a code
    occurs in a list of codes. *)
Definition count {A : Type} (P : A -> bool) (l : list A) : nat :=
  length (List.filter P l).

Definition occurrences (k : list N) (codes : list (list N)) : nat :=
  count (fun c => bool_decide (c = k)) codes.

(** The three tests of the inner loop. *)
Definition missing_code_or_name (c : SoloClass) : bool :=
  empty (code c) || empty (name c).

Definition outside_typical_range (c : SoloClass) : bool :=
  ((paxIndex c < n0_7) || (paxIndex c > n1_0))%js.

Definition non_positive (c : SoloClass) : bool :=
  (paxIndex c <= zero)%js.

(** The kinds of message. *)
Definition is_duplicate_error (k : list N) (msg : message) : bool :=
  match msg with
  | DuplicateClassCode c => bool_decide (c = k)
  | _ => false
  end.

Definition is_missing_error (msg : message) : bool :=
  match msg with
  | ClassMissingCodeOrName _ => true
  | _ => false
  end.

Definition is_invalid_pax_error (msg : message) : bool :=
  match msg with
  | InvalidPaxIndex _ _ => true
  | _ => false
  end.

Definition is_mismatch_error (msg : message) : bool :=
  match msg with
  | ClassLookupCountMismatch _ _ => true
  | _ => false
  end.

(** The messages of the inner loop. *)
Definition class_level (msg : message) : bool :=
  match msg with
  | DuplicateClassCode _ | ClassMissingCodeOrName _ | InvalidPaxIndex _ _ =>
      true
  | _ => false
  end.

(** The errors and the warning one class adds, given the codes seen before
    it. *)
Definition class_errors (seen : gset (list N)) (c : SoloClass)
  : list message :=
  (if bool_decide (code c ∈ seen) then [DuplicateClassCode (code c)] else [])
  ++ (if missing_code_or_name c then [ClassMissingCodeOrName c] else [])
  ++ (if non_positive c then [InvalidPaxIndex (code c) (paxIndex c)] else []).

Definition class_warnings (c : SoloClass) : list message :=
  if outside_typical_range c
  then [PaxIndexOutsideTypicalRange (code c) (paxIndex c)] else [].

Fixpoint classes_errors (seen : gset (list N)) (cs : list SoloClass)
  : list message :=
  match cs with
  | [] => []
  | c :: cs' =>
      class_errors seen c ++ classes_errors ({[ code c ]} ∪ seen) cs'
  end.

(** A dataset with another lookup table. *)
Definition with_classesByCode (idx : PaxIndex)
    (table : gmap (list N) SoloClass) : PaxIndex :=
  {| year := year idx;
     indexType := indexType idx;
     version := version idx;
     releaseDate := releaseDate idx;
     lastUpdated := lastUpdated idx;
     classGroups := classGroups idx;
     classesByCode := table |}.

(** The errors of the three checks before the loops. *)
Definition header_errors (idx : PaxIndex) : list message :=
  (if negb (truthy (year idx)) || (year idx < n2000)%js
      || (year idx > n2100)%js
   then [InvalidYear (year idx)] else [])
  ++ (if empty (indexType idx)
         || negb (bool_decide (indexType idx ∈ [str "Solo"; str "ProSolo"]))
      then [InvalidIndexType (indexType idx)] else [])
  ++ (if (length (classGroups idx) =? 0)%nat
      then [NoClassGroupsFound] else []).

(** The datasets of the examples. *)
Definition mkGroup (i n : string) (cs : list SoloClass) : SoloClassGroup :=
  {| group_id := str i; group_name := str n; description := [];
     classes := cs |}.

Definition mkIndex (groups : list SoloClassGroup)
    (table : gmap (list N) SoloClass) : PaxIndex :=
  {| year := of_Z 2024; indexType := str "Solo"; version := str "1.0.0";
     releaseDate := str "2024-01-01"; lastUpdated := str "2024-01-01";
     classGroups := groups; classesByCode := table |}.

Definition n0_844 : number := dec 844 3.
Definition n1_1 : number := dec 11 1.

(** One class, twice in well-formed groups. *)
Definition duplicated_index : PaxIndex :=
  mkIndex [mkGroup "street" "Street" [mkClass "SS" n0_844];
           mkGroup "touring" "Touring" [mkClass "SS" n0_844]]
    {[ str "SS" := mkClass "SS" n0_844 ]}.

(** One class, once in a well-formed group and once in a group with no
    id. *)
Definition half_skipped_index : PaxIndex :=
  mkIndex [mkGroup "street" "Street" [mkClass "SS" n0_844];
           mkGroup "" "Touring" [mkClass "SS" n0_844]]
    {[ str "SS" := mkClass "SS" n0_844 ]}.

(** A class with the index -0.5 in a group with no id. *)
Definition skipped_negative_index : PaxIndex :=
  mkIndex [mkGroup "street" "Street" [mkClass "SS" n0_844];
           mkGroup "" "Touring" [mkClass "NEG" (of_decimal true 5 (-1))]]
    {[ str "SS" := mkClass "SS" n0_844 ]}.

(** A class with the index 1.1 and nothing else out of order. *)
Definition high_index : PaxIndex :=
  mkIndex [mkGroup "street" "Street" [mkClass "SS" n1_1]]
    {[ str "SS" := mkClass "SS" n1_1 ]}.

(** A lookup table with the right number of entries under the wrong
    key. *)
Definition wrong_key_index : PaxIndex :=
  mkIndex [mkGroup "street" "Street" [mkClass "SS" n0_844]]
    {[ str "ZZ" := mkClass "ZZ" n0_844 ]}.

(** *** The round trip of formatting after parsing *)

(** A run of digits with no zero in front of another digit. *)
Definition canonical (d : list N) : bool :=
  match d with
  | [] => false
  | [_] => true
  | c :: _ => negb (c =? 48)%N
  end.

(** The three decimal digits of a number below 1000. *)
Definition digits3 (M : N) : list N :=
  [48 + M / 100; 48 + (M / 10) mod 10; 48 + M mod 10]%N.

(** [M / 1000] as the parser computes it. *)
Definition frac (M : Z) : number := div (of_Z M) n1000.

(** For a fraction [mf * 2^ef] meant to be [M / 1000] and a binade [k]:
    added to an integer of the binade, the fraction is rounded to a
    multiple of [2^(k - 52)] that shows the three decimals of [M]. *)
Definition binade_ok (mf : positive) (ef : Z) (M k : Z) : bool :=
  match (k - 52 - ef)%Z with
  | Zpos n =>
      let t := Pos.iter shr_1
                 {| shr_m := Zpos mf; shr_r := false; shr_s := false |} n in
      let rf := round_nearest_even (shr_m t) (loc_of_shr_record t) in
      (rf <? 2 ^ (52 - k))%Z
      && ((2000 * rf + 2 ^ (52 - k)) / 2 ^ (53 - k) =? M)%Z
  | _ => false
  end.

Definition frac_ok (M : Z) : bool :=
  match frac M with
  | S754_finite false mf ef =>
      (-1074 <=? ef)%Z && (ef <? 0)%Z && (Zpos mf <? 2 ^ (- ef))%Z
      && (Zpos mf <? 2 ^ 53)%Z && (scaled_round mf ef 3 =? M)%Z
      && forallb (fun k => binade_ok mf ef M (Z.of_nat k)) (seq 0 40)
  | _ => false
  end.

(** The classes on which the repository's tests run the conversion. *)
Definition mockClass1 : SoloClass := mkClass "TEST1" (dec 5 1).
Definition mockClass2 : SoloClass := mkClass "TEST2" (dec 15 1).
Definition mockSoloClass : SoloClass := mkClass "SS" (dec 844 3).
Definition mockASClass : SoloClass := mkClass "AS" (dec 83 2).

(** What a call returns, to look at one field of it. *)
Definition returned {A B : Type} (f : A -> B) (c : completion A)
  : option B :=
  match c with
  | Return a => Some (f a)
  | Throw _ => None
  end.

End Vocabulary.

(** * The rest of the library: lookups, the data index and the stores *)

(** ** More of the runtime *)

Module JsObject.

(** The members of [Object.prototype].  An object written as a literal,
    built from [{}] or read by [JSON.parse] has [Object.prototype] as its
    prototype, and a key it does not own is looked up there. *)
Definition object_prototype : list (list N) :=
  map str
    ["constructor"; "__defineGetter__"; "__defineSetter__"; "hasOwnProperty";
     "__lookupGetter__"; "__lookupSetter__"; "isPrototypeOf";
     "propertyIsEnumerable"; "toString"; "valueOf"; "__proto__";
     "toLocaleString"].

(** What [object[key]] gives on such an object whose own values are of type
    [A]: the own value, the member of [Object.prototype] of that name, or
    [undefined]. *)
Inductive property (A : Type) : Type :=
| Own (a : A)
| Inherited (key : list N)
| Undefined.

Arguments Own {A} a.
Arguments Inherited {A} key.
Arguments Undefined {A}.

Definition get {A : Type} (object : gmap (list N) A) (key : list N)
  : property A :=
  match object !! key with
  | Some a => Own a
  | None =>
      if bool_decide (key ∈ object_prototype) then Inherited key
      else Undefined
  end.

(** [object[key] = a].  The key [__proto__] is the one whose assignment adds
    no key: it replaces the prototype of the object. *)
Definition set {A : Type} (object : gmap (list N) A) (key : list N) (a : A)
  : gmap (list N) A :=
  if bool_decide (key = str "__proto__") then object
  else <[key := a]> object.

(** A value in a condition: objects and functions are truthy, [undefined]
    is not. *)
Definition defined {A : Type} (p : property A) : bool :=
  match p with
  | Undefined => false
  | _ => true
  end.

End JsObject.

Import JsObject.

Module JsArray.

(** [x === y] on numbers: [NaN] equals nothing, [+0] equals [-0]. *)
Definition strictly_equal : number -> number -> bool := SFeqb.

(** [Array.prototype.find] *)
Definition find {A : Type} (predicate : A -> bool) (l : list A) : option A :=
  List.find predicate l.

(** [Array.prototype.sort(comparefn)] is a stable sort: [a] stays in front
    of a later [b] unless [comparefn(a, b) > 0]; a result that is [NaN]
    counts as zero.  The order is the one the language fixes when
    [comparefn] is a consistent comparison of the elements. *)
Fixpoint place {A : Type} (comparefn : A -> A -> number) (a : A)
    (sorted : list A) : list A :=
  match sorted with
  | [] => [a]
  | b :: rest =>
      if (comparefn a b > zero)%js
      then b :: place comparefn a rest
      else a :: b :: rest
  end.

Fixpoint sort {A : Type} (comparefn : A -> A -> number) (l : list A)
  : list A :=
  match l with
  | [] => []
  | a :: l' => place comparefn a (sort comparefn l')
  end.

End JsArray.

(** ** The other functions of [pax-calculator.ts] *)

Section Lookups.

Local Open Scope js_scope.

Definition formatTimeDifference (difference : number) : list N :=
  (if difference > zero then str "+" else []) ++ toFixed difference 3.

(** [paxIndex.classesByCode[classCode]] *)
Definition findClassByCode (classCode : list N) (paxIndex : PaxIndex)
  : property SoloClass :=
  get (classesByCode paxIndex) classCode.

Definition getActiveClasses (paxIndex : PaxIndex) : list SoloClass :=
  List.filter (fun soloClass => isActive soloClass)
    (flat_map (fun group => classes group) (classGroups paxIndex)).

(** [undefined] is [None]. *)
Definition checkEasterEgg (timeString : list N) : option (list N) :=
  if bool_decide (trim timeString = str "69.420") then Some (str "NICE")
  else None.

End Lookups.

(** ** The data files: [data/prosolo2024.ts] and [data/index.ts] *)

Section Data.

Local Open Scope js_scope.

(** An entry [{ code, name, paxIndex, isActive: true }] of a data file. *)
Definition entry (c n : string) (pax : number) : SoloClass :=
  {| code := str c; name := str n; paxIndex := pax; isActive := true |}.

Definition streetClasses : SoloClassGroup :=
  {| group_id := str "street";
     group_name := str "Street";
     description := str "Street Category - Minimal modifications allowed";
     classes :=
       [entry "SS" "Super Street" (dec 844 3);
        entry "AS" "A Street" (dec 83 2);
        entry "BS" "B Street" (dec 821 3);
        entry "CS" "C Street" (dec 806 3);
        entry "DS" "D Street" (dec 806 3);
        entry "ES" "E Street" (dec 787 3);
        entry "FS" "F Street" (dec 815 3);
        entry "GS" "G Street" (dec 787 3);
        entry "HS" "H Street" (dec 776 3)] |}.

Definition streetTouringClasses : SoloClassGroup :=
  {| group_id := str "street-touring";
     group_name := str "Street Touring";
     description := str "Street Touring Category - Limited modifications";
     classes :=
       [entry "AST" "A Street Touring" (dec 832 3);
        entry "BST" "B Street Touring" (dec 83 2);
        entry "CST" "C Street Touring" (dec 824 3);
        entry "DST" "D Street Touring" (dec 814 3);
        entry "EST" "E Street Touring" (dec 809 3);
        entry "GST" "G Street Touring" (dec 81 2);
        entry "SST" "Super Street Touring" (dec 833 3)] |}.

Definition streetPreparedClasses : SoloClassGroup :=
  {| group_id := str "street-prepared";
     group_name := str "Street Prepared";
     description :=
       str "Street Prepared Category - Significant modifications allowed";
     classes :=
       [entry "SSP" "Super Street Prepared" (dec 863 3);
        entry "CSP" "C Street Prepared" (dec 857 3);
        entry "DSP" "D Street Prepared" (dec 847 3);
        entry "ESP" "E Street Prepared" (dec 839 3);
        entry "FSP" "F Street Prepared" (dec 826 3)] |}.

Definition streetModifiedClasses : SoloClassGroup :=
  {| group_id := str "street-modified";
     group_name := str "Street Modified";
     description :=
       str "Street Modified Category - Extensive modifications allowed";
     classes :=
       [entry "SSM" "Super Street Modified" (dec 878 3);
        entry "SM" "Street Modified" (dec 869 3);
        entry "SMF" "Street Modified FWD" (dec 855 3)] |}.

Definition preparedClasses : SoloClassGroup :=
  {| group_id := str "prepared";
     group_name := str "Prepared";
     description := str "Prepared Category - Race-prepared vehicles";
     classes :=
       [entry "AP" "A Prepared" (dec 891 3);
        entry "BP" "B Prepared" (dec 865 3);
        entry "CP" "C Prepared" (dec 865 3);
        entry "DP" "D Prepared" (dec 865 3);
        entry "EP" "E Prepared" (dec 858 3);
        entry "FP" "F Prepared" (dec 877 3);
        entry "XP" "X Prepared" (dec 891 3)] |}.

Definition modifiedClasses : SoloClassGroup :=
  {| group_id := str "modified";
     group_name := str "Modified";
     description := str "Modified Category - Unlimited modifications";
     classes :=
       [entry "AM" "A Modified" (dec 10 1);
        entry "BM" "B Modified" (dec 978 3);
        entry "CM" "C Modified" (dec 897 3);
        entry "DM" "D Modified" (dec 923 3);
        entry "EM" "E Modified" (dec 933 3);
        entry "FM" "F Modified" (dec 925 3)] |}.

Definition specClasses : SoloClassGroup :=
  {| group_id := str "spec";
     group_name := str "Spec";
     description := str "Spec Category - Single-make classes";
     classes :=
       [entry "SSC" "Solo Spec Coupe" (dec 803 3);
        entry "FSAE" "Formula SAE" (dec 98 2);
        entry "KM" "Kart Modified" (dec 947 3);
        entry "CSX" "C Street eXperimental" (dec 83 2)] |}.

Definition supplementalClasses : SoloClassGroup :=
  {| group_id := str "supplemental";
     group_name := str "Supplemental";
     description := str "Supplemental Category - Special classes";
     classes :=
       [entry "XU" "Xtreme Unlimited" (dec 867 3);
        entry "XA" "Xtreme A" (dec 849 3);
        entry "XB" "Xtreme B" (dec 856 3);
        entry "EVX" "Electric Vehicle eXperimental" (dec 83 2)] |}.

Definition camClasses : SoloClassGroup :=
  {| group_id := str "cam";
     group_name := str "CAM";
     description := str "Classic American Muscle";
     classes :=
       [entry "CAM-T" "CAM Traditional" (dec 819 3);
        entry "CAM-C" "CAM Contemporary" (dec 832 3);
        entry "CAM-S" "CAM Sport" (dec 849 3)] |}.

Definition clubSpecClasses : SoloClassGroup :=
  {| group_id := str "club-spec";
     group_name := str "Club Spec";
     description := str "Club Spec Classes";
     classes := [entry "CSM" "Club Spec Mustang" (dec 83 2)] |}.

Definition allClasses : list SoloClass :=
  classes streetClasses ++ classes streetTouringClasses
  ++ classes streetPreparedClasses ++ classes streetModifiedClasses
  ++ classes preparedClasses ++ classes modifiedClasses
  ++ classes specClasses ++ classes supplementalClasses
  ++ classes camClasses ++ classes clubSpecClasses.

(** [allClasses.reduce((acc, soloClass) => { acc[soloClass.code] =
    soloClass; return acc; }, {})], for any list of classes. *)
Definition lookup_of (soloClasses : list SoloClass)
  : gmap (list N) SoloClass :=
  fold_left (fun acc soloClass => set acc (code soloClass) soloClass)
    soloClasses ∅.

Definition prosolo2024 : PaxIndex :=
  {| year := of_Z 2024;
     indexType := str "ProSolo";
     version := str "2024.1.0";
     releaseDate := str "2024-01-01";
     lastUpdated := str "2024-01-01";
     classGroups :=
       [streetClasses; streetTouringClasses; streetPreparedClasses;
        streetModifiedClasses; preparedClasses; modifiedClasses;
        specClasses; supplementalClasses; camClasses; clubSpecClasses];
     classesByCode := lookup_of allClasses |}.

(** The functions of [data/index.ts] read the constant [allIndices], the
    list of the data files' indices; here it is their first argument. *)

Definition getIndexByTypeAndYear (allIndices : list PaxIndex)
    (indexType' : list N) (year' : number) : option PaxIndex :=
  JsArray.find
    (fun index =>
       bool_decide (indexType index = indexType')
       && JsArray.strictly_equal (year index) year')
    allIndices.

Definition getLatestIndex (allIndices : list PaxIndex)
    (indexType' : list N) : option PaxIndex :=
  head
    (JsArray.sort (fun a b => year b - year a)
       (List.filter (fun index => bool_decide (indexType index = indexType'))
          allIndices)).

Definition getAvailableYears (allIndices : list PaxIndex)
    (indexType' : list N) : list number :=
  JsArray.sort (fun a b => b - a)
    (map (fun index => year index)
       (List.filter (fun index => bool_decide (indexType index = indexType'))
          allIndices)).

End Data.

(** ** The stores: [stores.ts] *)

(** The value of a store is the state; a method is a function from the
    state to the next one.  What a method hands to [saveToStorage] is
    listed beside its result: the key and the value that is serialised,
    when [isBrowser()] holds and nothing otherwise. *)

Record PaxIndexMetadata : Type := {
  indices : list PaxIndex;
  currentIndex : option PaxIndex;
  lastUpdateCheck : list N;
  hasUpdates : bool
}.

(** The preferences' fields [indexType], [inputClass] and [outputClass] are
    [pref_indexType], [pref_inputClass] and [pref_outputClass]. *)
Record UserPreferences : Type := {
  pref_indexType : list N;
  viewMode : list N;
  pref_inputClass : option (list N);
  pref_outputClass : option (list N);
  lastTime : list N;
  autoUpdate : bool;
  pinnedVersion : option (list N)
}.

(** The value of the calculator store. *)
Record CalculatorState : Type := {
  currentTime : list N;
  lastResult : option PaxCalculationResult;
  isCalculating : bool;
  error : option (list N)
}.

Section Stores.

Local Open Scope js_scope.

Definition LAST_CALCULATION : list N := str "pax-calculator-last-calculation".

Definition saveToStorage {A : Type} (browser : bool) (key : list N)
    (value : A) : list (list N * A) :=
  if browser then [(key, value)] else [].

(** [paxData.getIndex] and [paxData.getLatestIndex], on the value of the
    store. *)
Definition getIndex (metadata : PaxIndexMetadata) (indexType' : list N)
    (year' : number) : option PaxIndex :=
  JsArray.find
    (fun index =>
       bool_decide (indexType index = indexType')
       && JsArray.strictly_equal (year index) year')
    (indices metadata).

Definition paxData_getLatestIndex (metadata : PaxIndexMetadata)
    (indexType' : list N) : option PaxIndex :=
  head
    (JsArray.sort (fun a b => year b - year a)
       (List.filter (fun index => bool_decide (indexType index = indexType'))
          (indices metadata))).

(** [calculator.setTime] *)
Definition setTime (time : list N) (state : CalculatorState)
  : CalculatorState :=
  {| currentTime := time;
     lastResult := lastResult state;
     isCalculating := isCalculating state;
     error := None |}.

(** [calculator.calculate]: the next state, what the call returns or
    throws, and what it saves. *)
Definition calculate (browser : bool) (now : list N) (inputTime : number)
    (inputClass outputClass : SoloClass) (state : CalculatorState)
  : CalculatorState * completion PaxCalculationResult
    * list (list N * PaxCalculationResult) :=
  let state :=
    {| currentTime := currentTime state;
       lastResult := lastResult state;
       isCalculating := true;
       error := None |} in
  match calculatePaxTime now inputTime inputClass outputClass with
  | Return result =>
      let state :=
        {| currentTime := currentTime state;
           lastResult := Some result;
           isCalculating := false;
           error := error state |} in
      (state, Return result, saveToStorage browser LAST_CALCULATION result)
  | Throw errorMessage =>
      let state :=
        {| currentTime := currentTime state;
           lastResult := lastResult state;
           isCalculating := false;
           error := Some errorMessage |} in
      (state, Throw errorMessage, [])
  end.

(** [calculator.clear] *)
Definition clear (state : CalculatorState) : CalculatorState :=
  {| currentTime := [];
     lastResult := None;
     isCalculating := isCalculating state;
     error := None |}.

(** [calculator.clearError] *)
Definition clearError (state : CalculatorState) : CalculatorState :=
  {| currentTime := currentTime state;
     lastResult := lastResult state;
     isCalculating := isCalculating state;
     error := None |}.

(** The derived stores, as functions of the values they derive from. *)

Definition currentPaxIndex (paxData : PaxIndexMetadata)
    (preferences : UserPreferences) : option PaxIndex :=
  let fallback :=
    match currentIndex paxData with
    | Some index =>
        if bool_decide (indexType index = pref_indexType preferences)
        then Some index else None
    | None => None
    end in
  if autoUpdate preferences then
    paxData_getLatestIndex paxData (pref_indexType preferences)
  else
    match pinnedVersion preferences with
    | Some pinned =>
        if empty pinned then fallback
        else
          JsArray.find
            (fun index =>
               bool_decide (indexType index = pref_indexType preferences)
               && bool_decide (version index = pinned))
            (indices paxData)
    | None => fallback
    end.

Definition selectedInputClass (currentPaxIndex : option PaxIndex)
    (preferences : UserPreferences) : property SoloClass :=
  match currentPaxIndex, pref_inputClass preferences with
  | Some index, Some classCode =>
      if empty classCode then Undefined else findClassByCode classCode index
  | _, _ => Undefined
  end.

Definition selectedOutputClass (currentPaxIndex : option PaxIndex)
    (preferences : UserPreferences) : property SoloClass :=
  match currentPaxIndex, pref_outputClass preferences with
  | Some index, Some classCode =>
      if empty classCode then Undefined else findClassByCode classCode index
  | _, _ => Undefined
  end.

Definition canCalculate (selectedInputClass selectedOutputClass
    : property SoloClass) (calculator : CalculatorState) : bool :=
  defined selectedInputClass && defined selectedOutputClass
  && negb (empty (trim (currentTime calculator)))
  && negb (isCalculating calculator).

End Stores.

(** ** Vocabulary of the statements about them *)

Section MoreVocabulary.

Local Open Scope js_scope.

(** A number, not [NaN], whose sign bit is [s]: with [s] clear [+0], a
    positive finite number or [+Infinity]. *)
Definition has_sign (s : bool) (x : number) : bool :=
  match x with
  | S754_nan => false
  | S754_zero b | S754_infinity b | S754_finite b _ _ => Bool.eqb b s
  end.

(** The forms of a string the parser accepts, with the number it returns
    for each. *)
Inductive parsed : list N -> number -> Prop :=
| parsed_minutes (m sec ms : list N) :
    digit_run None m -> digit_run (Some 2%nat) sec ->
    digit_run (Some 3%nat) ms ->
    parsed (m ++ str ":" ++ sec ++ str "." ++ ms)
      (int m * n60 + int sec + int (padEnd 3 48 ms) / n1000)
| parsed_hours (h m sec ms : list N) :
    digit_run None h -> digit_run (Some 2%nat) m ->
    digit_run (Some 2%nat) sec -> digit_run (Some 3%nat) ms ->
    parsed (h ++ str ":" ++ m ++ str ":" ++ sec ++ str "." ++ ms)
      (int h * n3600 + int m * n60 + int sec + int (padEnd 3 48 ms) / n1000)
| parsed_decimal (sec ms : list N) :
    digit_run None sec -> digit_run (Some 3%nat) ms ->
    parsed (sec ++ str "." ++ ms) (int sec + int (padEnd 3 48 ms) / n1000)
| parsed_whole (s : list N) :
    digit_run None s -> parsed s (int s).

(** The literal [1e21], from which on a number is printed with an
    exponent. *)
Definition n1e21 : number := of_Z (10 ^ 21).

(** A number that is not [NaN], in its canonical form. *)
Definition is_real (x : number) : bool :=
  match x with
  | S754_nan => false
  | _ => is_double x
  end.

(** The place of a number in the order of the numbers, as an integer: a
    finite number [m * 2^e] is [m * 2^(e + 1074)], and the infinities lie
    beyond every finite number. *)
Definition beyond : Z := 2 ^ 2200.

Definition place_of (x : number) : Z :=
  match x with
  | S754_zero _ | S754_nan => 0
  | S754_infinity s => cond_Zopp s beyond
  | S754_finite s m e => cond_Zopp s (Zpos m * 2 ^ (e + 1074))
  end.

(** The first of the elements of a list that have the greatest key. *)
Fixpoint first_greatest {A : Type} (key : A -> Z) (l : list A) : option A :=
  match l with
  | [] => None
  | a :: l' =>
      match first_greatest key l' with
      | Some b => if (key a <? key b)%Z then Some b else Some a
      | None => Some a
      end
  end.

(** A list in which no element is followed by one with a greater key, and
    a list of numbers in which none is followed by a greater one. *)
Fixpoint descending_by {A : Type} (key : A -> Z) (l : list A) : Prop :=
  match l with
  | [] => True
  | a :: l' =>
      (forall b, In b l' -> (key b <= key a)%Z) /\ descending_by key l'
  end.

Fixpoint descending (l : list number) : Prop :=
  match l with
  | [] => True
  | a :: l' => (forall b, In b l' -> (a < b) = false) /\ descending l'
  end.

End MoreVocabulary.

(** * Properties *)

(** ** Numbers *)

Section NumberFacts.

Local Open Scope js_scope.

Lemma gt_zero_not_le (x : number) : (x > zero) = true -> (x <= zero) = false.
Proof. destruct x as [[]|[]| |[] m e]; cbn; congruence. Qed.

Lemma gt_zero_finite (x : number) :
  (x > zero) = true -> finite x = true ->
  exists m e, x = S754_finite false m e.
Proof.
  destruct x as [[]|[]| |[] m e]; cbn; try congruence.
  intros _ _. by exists m, e.
Qed.

Lemma div_eucl_exact (q : Z) (m : positive) :
  Z.div_eucl (q * Zpos m) (Zpos m) = (q, 0).
Proof.
  pose proof (Z.div_mul q (Zpos m)) as Hq.
  pose proof (Z.mod_mul q (Zpos m)) as Hr.
  unfold Z.div, Z.modulo in Hq, Hr.
  destruct (Z.div_eucl (q * Zpos m) (Zpos m)) as [q' r'].
  rewrite Hq, Hr by lia. reflexivity.
Qed.

Lemma new_location_zero (m : Z) : new_location m 0 = loc_Exact.
Proof. unfold new_location. by destruct (Z.even m). Qed.

(** [x / x] is [1] for a finite non-zero [x]. *)
Lemma div_self (s : bool) (m : positive) (e : Z) :
  S754_finite s m e / S754_finite s m e = of_Z 1.
Proof.
  unfold div, SFdiv, SFdiv_core_binary.
  replace (Zdigits2 (Zpos m) + e - (Zdigits2 (Zpos m) + e))%Z with 0%Z by lia.
  rewrite Z.sub_diag.
  change (Z.min (fexp prec emax 0) 0) with (-53)%Z.
  change (0 - -53)%Z with 53%Z. cbv iota beta.
  rewrite Z.shiftl_mul_pow2 by lia.
  rewrite (Z.mul_comm (Zpos m)), div_eucl_exact, new_location_zero.
  rewrite xorb_nilpotent. reflexivity.
Qed.

Lemma digits2_pos_shift (m : positive) (k : positive) :
  Zpos (digits2_pos (Pos.iter xO m k)) = (Zpos (digits2_pos m) + Zpos k)%Z.
Proof.
  induction k using Pos.peano_ind.
  - cbn. lia.
  - rewrite Pos.iter_succ. cbn [digits2_pos]. lia.
Qed.

Lemma iter_shr_1_shift (m : positive) (k : positive) :
  @SpecFloat.iter_pos shr_record shr_1 k
    {| shr_m := Zpos (Pos.iter xO m k); shr_r := false; shr_s := false |}
  = {| shr_m := Zpos m; shr_r := false; shr_s := false |}.
Proof.
  assert (Hiter : forall (A : Type) (f : A -> A) (n : positive) (x : A),
             @SpecFloat.iter_pos A f n x = Pos.iter f x n).
  { intros A f n. induction n as [n IH|n IH|]; intros x; cbn.
    - rewrite !IH, !Pos.iter_swap. reflexivity.
    - rewrite !IH. reflexivity.
    - reflexivity. }
  rewrite Hiter.
  induction k using Pos.peano_ind.
  - reflexivity.
  - rewrite Pos.iter_succ_r, Pos.iter_succ. cbn [shr_1 orb]. exact IHk.
Qed.

(** [x * 1] is [x] for a finite binary64 [x]. *)
Lemma mul_one (s : bool) (m : positive) (e : Z) :
  is_double (S754_finite s m e) = true ->
  S754_finite s m e * of_Z 1 = S754_finite s m e.
Proof.
  unfold is_double, valid_binary, bounded, canonical_mantissa.
  intros [Hc He]%andb_prop. apply Z.eqb_eq in Hc.
  change (of_Z 1) with (S754_finite false (Pos.iter xO 1%positive 52) (-52)).
  unfold mul, SFmul, binary_round_aux, shr_fexp.
  replace (m * Pos.iter xO 1 52)%positive with (Pos.iter xO m 52).
  2:{ rewrite Pos.mul_comm. reflexivity. }
  unfold Zdigits2 at 1. rewrite digits2_pos_shift.
  replace (Zpos (digits2_pos m) + 52 + (e + -52))%Z
    with (Zpos (digits2_pos m) + e)%Z by lia.
  rewrite Hc. replace (e - (e + -52))%Z with 52%Z by lia.
  unfold shr at 1. unfold shr_record_of_loc.
  rewrite iter_shr_1_shift.
  cbn [shr_m shr_r shr_s loc_of_shr_record round_nearest_even].
  unfold Zdigits2. replace (e + -52 + 52)%Z with e by lia.
  rewrite Hc, Z.sub_diag. cbn [shr shr_record_of_loc shr_m].
  rewrite He, xorb_false_r. reflexivity.
Qed.

(** [x - x] is [+0] for a finite non-zero [x]. *)
Lemma sub_self (s : bool) (m : positive) (e : Z) :
  S754_finite s m e - S754_finite s m e = zero.
Proof.
  unfold sub, SFsub, shl_align.
  rewrite Z.min_id, Z.sub_diag. reflexivity.
Qed.

(** *** Rounding an integer plus a fraction

    The sum of an integer [V] in the binade [2^k <= V < 2^(k+1)] and a
    fraction below one is the integer's mantissa plus the fraction's,
    shifted to the exponent [k - 52] and rounded. *)

Lemma fexp_normal (e : Z) :
  (-1021 <= e)%Z -> fexp prec emax e = (e - 53)%Z.
Proof. unfold fexp, SpecFloat.emin, prec, emax. lia. Qed.

Lemma digits2_pos_size (p : positive) : digits2_pos p = Pos.size p.
Proof. induction p as [p IH|p IH|]; cbn; by rewrite ?IH. Qed.

Lemma digits2_pos_log2 (p : positive) :
  Zpos (digits2_pos p) = (Z.log2 (Zpos p) + 1)%Z.
Proof. destruct p; cbn [digits2_pos Z.log2]; rewrite ?digits2_pos_size; lia. Qed.

Lemma digits2_pos_binade (p : positive) (k : Z) :
  (0 <= k)%Z -> (2 ^ k <= Zpos p < 2 ^ (k + 1))%Z ->
  Zpos (digits2_pos p) = (k + 1)%Z.
Proof.
  intros Hk Hp. rewrite digits2_pos_log2.
  rewrite (Z.log2_unique (Zpos p) k); lia.
Qed.

Lemma iter_xO_pow2 (p d : positive) :
  Zpos (Pos.iter xO p d) = (Zpos p * 2 ^ Zpos d)%Z.
Proof.
  induction d as [|d IH] using Pos.peano_ind.
  - cbn [Pos.iter]. lia.
  - rewrite Pos.iter_succ, Pos2Z.inj_xO, IH, Pos2Z.inj_succ, Z.pow_succ_r; lia.
Qed.

Lemma iter_pos_iter {A : Type} (f : A -> A) (n : positive) (x : A) :
  SpecFloat.iter_pos f n x = Pos.iter f x n.
Proof.
  revert x. induction n as [n IH|n IH|]; intros x; cbn.
  - rewrite !IH, !Pos.iter_swap. reflexivity.
  - rewrite !IH. reflexivity.
  - reflexivity.
Qed.

Lemma shr_1_nonneg (m : Z) (r s : bool) :
  (0 <= m)%Z ->
  shr_1 {| shr_m := m; shr_r := r; shr_s := s |}
  = {| shr_m := (m / 2)%Z; shr_r := Z.odd m; shr_s := r || s |}.
Proof.
  intros Hm. destruct m as [|[p|p|]|p]; try lia; cbn [shr_1 Z.odd].
  - reflexivity.
  - f_equal. rewrite Pos2Z.inj_xI.
    rewrite (Z.mul_comm 2), Z.div_add_l by lia. reflexivity.
  - f_equal. rewrite Pos2Z.inj_xO.
    rewrite (Z.mul_comm 2), Z.div_mul by lia. reflexivity.
  - reflexivity.
Qed.

(** Shifting [a * 2^n + b] right by [n] bits: the high part passes through,
    the bits shifted out are those of [b]. *)
Lemma iter_shr_1_add (a : Z) (n : positive) (b : Z) (r s : bool) :
  (0 <= a)%Z -> (0 <= b)%Z ->
  let t := Pos.iter shr_1 {| shr_m := b; shr_r := r; shr_s := s |} n in
  Pos.iter shr_1
    {| shr_m := (a * 2 ^ Zpos n + b)%Z; shr_r := r; shr_s := s |} n
  = {| shr_m := (a + shr_m t)%Z; shr_r := shr_r t; shr_s := shr_s t |}
  /\ (0 <= shr_m t)%Z.
Proof.
  intros Ha. revert b r s.
  induction n as [|n IH] using Pos.peano_ind; intros b r s Hb; cbv zeta.
  - cbn [Pos.iter]. rewrite !shr_1_nonneg by lia. cbn [shr_m shr_r shr_s].
    change (2 ^ 1)%Z with 2%Z.
    rewrite Z.div_add_l by lia.
    replace (a * 2 + b)%Z with (b + 2 * a)%Z by lia.
    rewrite Z.odd_add_mul_2.
    split; [reflexivity|]. apply Z.div_pos; lia.
  - rewrite !Pos.iter_succ_r, Pos2Z.inj_succ, Z.pow_succ_r by lia.
    rewrite !shr_1_nonneg by lia.
    replace ((a * (2 * 2 ^ Zpos n) + b) / 2)%Z
      with (a * 2 ^ Zpos n + b / 2)%Z.
    2:{ replace (a * (2 * 2 ^ Zpos n))%Z with (a * 2 ^ Zpos n * 2)%Z by lia.
        rewrite Z.div_add_l by lia. reflexivity. }
    replace (Z.odd (a * (2 * 2 ^ Zpos n) + b)) with (Z.odd b).
    2:{ replace (a * (2 * 2 ^ Zpos n) + b)%Z
          with (b + 2 * (a * 2 ^ Zpos n))%Z by lia.
        by rewrite Z.odd_add_mul_2. }
    apply IH. apply Z.div_pos; lia.
Qed.

Lemma round_nearest_even_add (a q : Z) (l : location) :
  Z.even a = true ->
  round_nearest_even (a + q) l = (a + round_nearest_even q l)%Z.
Proof.
  intros Ha. unfold round_nearest_even.
  assert (Z.even (a + q) = Z.even q) as ->.
  { rewrite Z.even_add, Ha. by destruct (Z.even q). }
  destruct l as [|[]]; try destruct (Z.even q); lia.
Qed.

Lemma round_nearest_even_nonneg (q : Z) (l : location) :
  (0 <= q)%Z -> (0 <= round_nearest_even q l)%Z.
Proof.
  intros Hq. unfold round_nearest_even.
  destruct l as [|[]]; try destruct (Z.even q); lia.
Qed.

(** The second step of rounding, on a mantissa of 53 bits: nothing left
    to shift. *)
Lemma round_tail (m : positive) (e : Z) :
  (2 ^ 52 <= Zpos m < 2 ^ 53)%Z -> (-1073 <= e <= 971)%Z ->
  (let '(mrs, e') := shr_fexp prec emax (Zpos m) e loc_Exact in
   match shr_m mrs with
   | Z0 => S754_zero false
   | Zpos m' =>
       if (e' <=? emax - prec)%Z then S754_finite false m' e'
       else S754_infinity false
   | Zneg _ => S754_nan
   end) = S754_finite false m e.
Proof.
  intros Hm He. unfold shr_fexp, Zdigits2.
  rewrite (digits2_pos_binade m 52) by lia.
  rewrite fexp_normal by lia.
  replace (52 + 1 + e - 53 - e)%Z with 0%Z by lia.
  cbn [shr shr_record_of_loc shr_m].
  assert ((e <=? emax - prec)%Z = true) as ->; [|reflexivity].
  unfold emax, prec. lia.
Qed.

(** A finite value with a mantissa of 53 bits rounds to itself. *)
Lemma binary_round_aux_exact (m : positive) (e : Z) :
  (2 ^ 52 <= Zpos m < 2 ^ 53)%Z -> (-1073 <= e <= 971)%Z ->
  binary_round_aux prec emax false (Zpos m) e loc_Exact
  = S754_finite false m e.
Proof.
  intros Hm He. unfold binary_round_aux.
  unfold shr_fexp at 1. unfold Zdigits2.
  rewrite (digits2_pos_binade m 52) by lia.
  rewrite fexp_normal by lia.
  replace (52 + 1 + e - 53 - e)%Z with 0%Z by lia.
  cbn [shr shr_record_of_loc shr_m shr_r shr_s loc_of_shr_record
       round_nearest_even].
  by apply round_tail.
Qed.

(** Rounding a longer mantissa: [n] bits are shifted out, and the rest is
    rounded to the nearest, to the even one on a tie. *)
Lemma binary_round_aux_shift (S : positive) (e : Z) (n m : positive) :
  (fexp prec emax (Zpos (digits2_pos S) + e) - e = Zpos n)%Z ->
  let t := Pos.iter shr_1
             {| shr_m := Zpos S; shr_r := false; shr_s := false |} n in
  round_nearest_even (shr_m t) (loc_of_shr_record t) = Zpos m ->
  (2 ^ 52 <= Zpos m < 2 ^ 53)%Z -> (-1073 <= e + Zpos n <= 971)%Z ->
  binary_round_aux prec emax false (Zpos S) e loc_Exact
  = S754_finite false m (e + Zpos n).
Proof.
  intros Hn t Ht Hm He. unfold binary_round_aux.
  unfold shr_fexp at 1. unfold Zdigits2. rewrite Hn.
  unfold shr at 1. rewrite iter_pos_iter.
  change (shr_record_of_loc (Zpos S) loc_Exact)
    with {| shr_m := Zpos S; shr_r := false; shr_s := false |}.
  fold t. cbv beta iota. rewrite Ht.
  by apply round_tail.
Qed.

(** The number nearest to an integer of the binade [k] is the integer. *)
Lemma of_Z_binade (v : positive) (k : Z) (d : positive) :
  (0 <= k)%Z -> (52 - k = Zpos d)%Z ->
  (2 ^ k <= Zpos v < 2 ^ (k + 1))%Z ->
  of_Z (Zpos v) = S754_finite false (Pos.iter xO v d) (k - 52).
Proof.
  intros Hk Hd Hv. unfold of_Z, binary_normalize, binary_round.
  rewrite (digits2_pos_binade v k) by lia.
  rewrite fexp_normal by lia.
  unfold shl_align.
  replace (k + 1 + 0 - 53 - 0)%Z with (Zneg d) by lia.
  replace (k + 1 + 0 - 53)%Z with (k - 52)%Z by lia.
  apply binary_round_aux_exact; [|lia].
  rewrite iter_xO_pow2, <- Hd.
  replace 53%Z with ((k + 1) + (52 - k))%Z by lia.
  replace 52%Z with (k + (52 - k))%Z at 1 by lia.
  rewrite !Z.pow_add_r by lia. rewrite Z.pow_add_r in Hv by lia.
  assert (0 < 2 ^ (52 - k))%Z by (apply Z.pow_pos_nonneg; lia).
  nia.
Qed.

(** The sum of an integer of the binade [k] and a fraction [mf * 2^ef]
    below one. *)
Lemma add_binade (v : positive) (k : Z) (d : positive) (mf : positive)
    (ef : Z) (n : positive) :
  (0 <= k)%Z -> (52 - k = Zpos d)%Z ->
  (2 ^ k <= Zpos v < 2 ^ (k + 1))%Z ->
  (k - 52 - ef = Zpos n)%Z ->
  (Zpos mf < 2 ^ (- ef))%Z ->
  (-1074 <= ef)%Z ->
  let t := Pos.iter shr_1
             {| shr_m := Zpos mf; shr_r := false; shr_s := false |} n in
  let rf := round_nearest_even (shr_m t) (loc_of_shr_record t) in
  (rf < 2 ^ Zpos d)%Z ->
  add (of_Z (Zpos v)) (S754_finite false mf ef)
  = S754_finite false (Z.to_pos (Zpos (Pos.iter xO v d) + rf)) (k - 52).
Proof.
  intros Hk Hd Hv Hn Hmf Hef t rf Hrf.
  rewrite (of_Z_binade v k d) by done.
  unfold add, SFadd, cond_Zopp.
  assert (Hmin : Z.min (k - 52) ef = ef) by lia. rewrite Hmin.
  unfold shl_align at 1 2. rewrite Z.sub_diag.
  replace (ef - (k - 52))%Z with (Zneg n) by lia.
  cbn [fst]. unfold binary_normalize, binary_round.
  set (A := Pos.iter xO v d) in *.
  set (S := (Pos.iter xO A n + mf)%positive).
  change (Zpos (PosDef.Pos.iter xO A n) + Zpos mf)%Z with (Zpos S).
  cbv beta iota.
  assert (HA : Zpos A = (Zpos v * 2 ^ Zpos d)%Z) by apply iter_xO_pow2.
  assert (Hpd : (0 < 2 ^ Zpos d)%Z) by (apply Z.pow_pos_nonneg; lia).
  assert (Hpn : (0 < 2 ^ Zpos n)%Z) by (apply Z.pow_pos_nonneg; lia).
  assert (HS : Zpos S = (Zpos A * 2 ^ Zpos n + Zpos mf)%Z).
  { unfold S. rewrite Pos2Z.inj_add, iter_xO_pow2. reflexivity. }
  assert (Hexp : (2 ^ Zpos d * 2 ^ Zpos n = 2 ^ (- ef))%Z).
  { rewrite <- Z.pow_add_r by lia. f_equal. lia. }
  assert (HSb : (2 ^ (k - ef) <= Zpos S < 2 ^ (k - ef + 1))%Z).
  { rewrite HS, HA.
    replace (k - ef)%Z with (k + - ef)%Z by lia.
    replace (k + - ef + 1)%Z with ((k + 1) + - ef)%Z by lia.
    rewrite !Z.pow_add_r by lia. rewrite <- Hexp.
    rewrite Z.pow_add_r in Hv by lia. nia. }
  assert (Hfexp : (fexp prec emax (Zpos (digits2_pos S) + ef) - ef
                   = Zpos n)%Z).
  { rewrite (digits2_pos_binade S (k - ef)) by lia.
    rewrite fexp_normal by lia. lia. }
  unfold shl_align.
  replace (fexp prec emax (Zpos (digits2_pos S) + ef) - ef)%Z
    with (Zpos n).
  destruct (iter_shr_1_add (Zpos A) n (Zpos mf) false false) as [Hit Ht];
    [lia..|].
  cbv zeta in Hit, Ht. fold t in Hit, Ht. rewrite <- HS in Hit.
  assert (Hrf0 : (0 <= rf)%Z) by by apply round_nearest_even_nonneg.
  assert (Hm : (2 ^ 52 <= Zpos A + rf < 2 ^ 53)%Z).
  { rewrite HA.
    replace 53%Z with ((k + 1) + (52 - k))%Z by lia.
    replace 52%Z with (k + (52 - k))%Z at 1 by lia.
    rewrite !Z.pow_add_r by lia. rewrite Hd.
    rewrite Z.pow_add_r in Hv by lia. nia. }
  replace (k - 52)%Z with (ef + Zpos n)%Z by lia.
  apply binary_round_aux_shift; [done| |lia|lia].
  rewrite Hit. cbn [shr_m].
  assert (Hloc : loc_of_shr_record
                   {| shr_m := Zpos A + shr_m t; shr_r := shr_r t;
                      shr_s := shr_s t |}
                 = loc_of_shr_record t) by by destruct t.
  rewrite Hloc, round_nearest_even_add.
  - fold rf. lia.
  - rewrite HA. clear. induction d using Pos.peano_ind.
    + rewrite Z.even_mul. by rewrite orb_true_r.
    + rewrite Pos2Z.inj_succ, Z.pow_succ_r by lia.
      rewrite Z.mul_assoc, (Z.mul_comm (Zpos v)), <- Z.mul_assoc.
      by rewrite Z.even_mul.
Qed.

End NumberFacts.

(** ** The expectations of the repository's tests

    The model gives what the test suites of the repository expect of the
    functions, number for number and string for string. *)

Section TestExpectations.

Example test_parse_formats :
  parseTimeString (str "65.123") = Return (dec 65123 3)
  /\ parseTimeString (str "12.5") = Return (dec 125 1)
  /\ parseTimeString (str "1:05.123") = Return (dec 65123 3)
  /\ parseTimeString (str "2:30.500") = Return (dec 1505 1)
  /\ parseTimeString (str "1:05:12.123") = Return (dec 3912123 3)
  /\ parseTimeString (str "23:59:59.999") = Return (dec 86399999 3)
  /\ parseTimeString (str "01:01:01.123") = Return (dec 3661123 3)
  /\ parseTimeString (str "1:5.123") = Return (dec 65123 3)
  /\ parseTimeString (str "65") = Return (of_Z 65)
  /\ parseTimeString (str "0") = Return zero
  /\ parseTimeString (str "0.0") = Return zero
  /\ parseTimeString (str "25:00:00.000") = Return (of_Z 90000).
Proof. repeat split; vm_compute; reflexivity. Qed.

Example test_parse_rejects :
  throws (parseTimeString (str ""))
  /\ throws (parseTimeString (str "1:005.123"))
  /\ throws (parseTimeString (str ":05.123"))
  /\ throws (parseTimeString (str "65."))
  /\ throws (parseTimeString (str ".123"))
  /\ throws (parseTimeString (str "-1:00.000"))
  /\ throws (parseTimeString (str "1h2m3s"))
  /\ throws (parseTimeString (str "1 minute"))
  /\ throws (parseTimeString [54; 48; 0; 49; 50; 51]%N)
  /\ throws (parseTimeString [54; 65296; 46; 65297; 65298; 65299]%N).
Proof. repeat split; eexists; vm_compute; reflexivity. Qed.

Example test_format :
  formatTime zero = Return (str "0.000")
  /\ formatTime (dec 1 3) = Return (str "0.001")
  /\ formatTime (dec 1 4) = Return (str "0.000")
  /\ formatTime (dec 99999999 3) = Return (str "99999.999")
  /\ formatTime (dec 999999123456 6) = Return (str "999999.123")
  /\ formatTime (dec 9995 4) = Return (str "1.000")
  /\ formatTime (dec 9994 4) = Return (str "0.999")
  /\ throws (formatTime (of_Z (-1))).
Proof.
  repeat split; try (eexists; vm_compute; reflexivity);
    vm_compute; reflexivity.
Qed.

Example test_calculate :
  returned outputTime (calculatePaxTime [] (of_Z 60) mockSoloClass mockASClass)
  = Some (dec 61012 3)
  /\ returned timeDifference
       (calculatePaxTime [] (of_Z 60) mockSoloClass mockASClass)
     = Some (dec 1012 3)
  /\ returned isFaster
       (calculatePaxTime [] (of_Z 60) mockSoloClass mockASClass)
     = Some false
  /\ returned isFaster
       (calculatePaxTime [] (of_Z 60) mockASClass mockSoloClass)
     = Some true
  /\ returned outputTime
       (calculatePaxTime [] (of_Z 60) mockSoloClass mockSoloClass)
     = Some (of_Z 60)
  /\ returned outputTime (calculatePaxTime [] (dec 1 3) mockClass1 mockClass2)
     = Some zero
  /\ returned outputTime
       (calculatePaxTime [] (dec 99999999 3) mockClass1 mockClass2)
     = Some (dec 33333333 3)
  /\ calculatePaxTime [] (of_Z (-5)) mockSoloClass mockASClass
     = Throw (str "Input time must be greater than 0")
  /\ calculatePaxTime [] (of_Z 60) (mkClass "SS" zero) mockASClass
     = Throw (str "PAX indices must be greater than 0").
Proof. repeat split; vm_compute; reflexivity. Qed.

Example test_validate :
  validatePaxIndex (mkIndex [] ∅)
  = {| isValid := false; errors := [NoClassGroupsFound]; warnings := [];
       classCount := 0; groupCount := 0 |}
  /\ errors (validatePaxIndex
               (mkIndex [mkGroup "test" "Test" [mkClass "NEG" (dec 5 1)]] ∅))
     = [ClassLookupCountMismatch 0 1]
  /\ errors (validatePaxIndex
               (mkIndex [mkGroup "test" "Test"
                           [mkClass "NEG" (of_decimal true 5 (-1))]] ∅))
     = [InvalidPaxIndex (str "NEG") (of_decimal true 5 (-1));
        ClassLookupCountMismatch 0 1]
  /\ warnings (validatePaxIndex
                 (mkIndex [mkGroup "test" "Test"
                             [mkClass "EXTREME" (of_Z 2)]]
                    {[ str "EXTREME" := mkClass "EXTREME" (of_Z 2) ]}))
     = [PaxIndexOutsideTypicalRange (str "EXTREME") (of_Z 2)]
  /\ errors (validatePaxIndex
               (mkIndex [mkGroup "street" "Street"
                           [mockSoloClass; mkClass "SS" (dec 83 2)]]
                  {[ str "SS" := mockSoloClass ]}))
     = [DuplicateClassCode (str "SS"); ClassLookupCountMismatch 1 2].
Proof. repeat split; vm_compute; reflexivity. Qed.

End TestExpectations.

(** ** The sum of whole seconds and milliseconds *)

Section SumFacts.

Local Open Scope js_scope.

Lemma frac_table :
  forallb (fun M => frac_ok (Z.of_nat M)) (seq 1 999) = true.
Proof. vm_compute. reflexivity. Qed.

Lemma frac_ok_spec (M : Z) :
  (1 <= M < 1000)%Z -> frac_ok M = true.
Proof.
  intros HM. pose proof frac_table as H.
  rewrite forallb_forall in H.
  rewrite <- (Z2Nat.id M) by lia. apply H, in_seq. lia.
Qed.

Lemma add_zero_r (s : bool) (m : positive) (e : Z) :
  S754_finite s m e + zero = S754_finite s m e.
Proof. reflexivity. Qed.

Lemma add_zero_l (s : bool) (m : positive) (e : Z) :
  zero + S754_finite s m e = S754_finite s m e.
Proof. reflexivity. Qed.

Lemma scaled_round_binade (V rf M : Z) (d : positive) (m : positive) :
  (0 <= V)%Z ->
  Zpos m = (V * 2 ^ Zpos d + rf)%Z ->
  ((2000 * rf + 2 ^ Zpos d) / 2 ^ (Zpos d + 1) = M)%Z ->
  scaled_round m (- Zpos d) 3 = (1000 * V + M)%Z.
Proof.
  intros HV Hm HM. unfold scaled_round.
  change (0 <=? - Zpos d)%Z with false. cbv iota.
  change (10 ^ Z.of_nat 3)%Z with 1000%Z.
  rewrite Hm, Z.opp_involutive.
  replace (1 - - Zpos d)%Z with (Zpos d + 1)%Z by lia.
  replace (2 * (V * 2 ^ Zpos d + rf) * 1000 + 2 ^ Zpos d)%Z
    with (1000 * V * 2 ^ (Zpos d + 1) + (2000 * rf + 2 ^ Zpos d))%Z.
  2:{ rewrite Z.pow_add_r by lia. change (2 ^ 1)%Z with 2%Z. lia. }
  rewrite Z.div_add_l by (apply Z.pow_nonzero; lia).
  lia.
Qed.

Lemma at_least_1e21_small (m : positive) (e : Z) :
  (e < 0)%Z -> (Zpos m < 2 ^ 53)%Z -> at_least_1e21 m e = false.
Proof.
  intros He Hm. unfold at_least_1e21.
  assert ((0 <=? e)%Z = false) as -> by lia.
  apply Z.leb_gt.
  assert (0 < 2 ^ (- e))%Z by (apply Z.pow_pos_nonneg; lia).
  assert (2 ^ 53 < 10 ^ 21)%Z by done.
  nia.
Qed.

(** Whole seconds below [2^40] plus milliseconds: the sum is not negative
    and is printed with the digits of [1000 * V + M]. *)
Lemma toFixed_sum (V M : Z) :
  (0 <= V < 2 ^ 40)%Z -> (0 <= M < 1000)%Z ->
  (of_Z V + frac M < zero) = false
  /\ toFixed (of_Z V + frac M) 3 = fixed_digits (Z.to_N (1000 * V + M)) 3.
Proof.
  intros HV HM.
  destruct (Z.eq_dec M 0) as [->|HM0].
  - change (frac 0) with zero. rewrite Z.add_0_r.
    destruct V as [|v|v]; [done| |lia].
    set (k := Z.log2 (Zpos v)).
    pose proof (Z.log2_spec (Zpos v) eq_refl) as Hk. fold k in Hk.
    assert (Hk0 : (0 <= k)%Z) by apply Z.log2_nonneg.
    assert (Hk40 : (k < 40)%Z) by (apply Z.log2_lt_pow2; lia).
    destruct (52 - k)%Z as [|d|d] eqn:Hd; try lia.
    rewrite (of_Z_binade v k d) by (done || lia).
    replace (k - 52)%Z with (- Zpos d)%Z by lia.
    rewrite add_zero_r. split; [done|]. cbn [toFixed app].
    rewrite at_least_1e21_small.
    + f_equal. f_equal.
      apply (scaled_round_binade (Zpos v) 0 0 d).
      * lia.
      * rewrite iter_xO_pow2. lia.
      * rewrite Z.add_0_l. apply Z.div_small.
        split; [apply Z.pow_nonneg; lia|].
        apply Z.pow_lt_mono_r; lia.
    + lia.
    + rewrite iter_xO_pow2. rewrite <- Hd.
      replace 53%Z with ((k + 1) + (52 - k))%Z by lia.
      rewrite Z.pow_add_r by lia.
      assert (0 < 2 ^ (52 - k))%Z by (apply Z.pow_pos_nonneg; lia).
      replace (Z.succ k) with (k + 1)%Z in Hk by lia. nia.
  - pose proof (frac_ok_spec M ltac:(lia)) as Hok. unfold frac_ok in Hok.
    destruct (frac M) as [| | |[] mf ef] eqn:Ef; try done.
    rewrite !andb_true_iff in Hok.
    destruct Hok as (((((He1 & He2) & Hmf) & Hmf53) & Hsr) & Hks).
    apply Z.leb_le in He1. apply Z.ltb_lt in He2, Hmf, Hmf53.
    apply Z.eqb_eq in Hsr.
    destruct V as [|v|v]; [|clear Hsr|lia].
    + change (of_Z 0) with zero. rewrite add_zero_l. cbn [toFixed app].
      split; [done|].
      rewrite at_least_1e21_small.
      * by rewrite Hsr.
      * done.
      * done.
    + set (k := Z.log2 (Zpos v)).
      pose proof (Z.log2_spec (Zpos v) eq_refl) as Hk. fold k in Hk.
      replace (Z.succ k) with (k + 1)%Z in Hk by lia.
      assert (Hk0 : (0 <= k)%Z) by apply Z.log2_nonneg.
      assert (Hk40 : (k < 40)%Z) by (apply Z.log2_lt_pow2; lia).
      rewrite forallb_forall in Hks.
      specialize (Hks (Z.to_nat k)).
      rewrite Z2Nat.id in Hks by lia.
      specialize (Hks ltac:(apply in_seq; lia)).
      unfold binade_ok in Hks.
      destruct (k - 52 - ef)%Z as [|n|n] eqn:Hn; try done.
      cbv zeta in Hks. apply andb_true_iff in Hks as [Hrf HM'].
      apply Z.ltb_lt in Hrf. apply Z.eqb_eq in HM'.
      destruct (52 - k)%Z as [|d|d] eqn:Hd; try lia.
      rewrite (add_binade v k d mf ef n) by (done || lia).
      replace (k - 52)%Z with (- Zpos d)%Z by lia.
      split; [done|]. cbn [toFixed app].
      set (t := Pos.iter shr_1 _ n) in *.
      set (rf := round_nearest_even (shr_m t) (loc_of_shr_record t)) in *.
      assert (Hrf0 : (0 <= rf)%Z).
      { apply round_nearest_even_nonneg.
        by destruct (iter_shr_1_add 0 n (Zpos mf) false false). }
      assert (Hpd : (0 < 2 ^ Zpos d)%Z) by (apply Z.pow_pos_nonneg; lia).
      assert (Hm : Zpos (Z.to_pos (Zpos (Pos.iter xO v d) + rf))
                   = (Zpos v * 2 ^ Zpos d + rf)%Z).
      { rewrite Z2Pos.id by lia. by rewrite iter_xO_pow2. }
      rewrite at_least_1e21_small.
      * f_equal. f_equal.
        apply (scaled_round_binade (Zpos v) rf M d); [lia|done|].
        replace (Zpos d + 1)%Z with (53 - k)%Z by lia. done.
      * lia.
      * rewrite Hm. rewrite <- Hd.
        replace 53%Z with ((k + 1) + (52 - k))%Z by lia.
        rewrite Z.pow_add_r by lia. rewrite Hd. nia.
Qed.

End SumFacts.

(** ** Strings and regular expressions *)

Section StringFacts.

Lemma digit_cases (c : N) :
  is_digit c = true ->
  c = 48%N \/ c = 49%N \/ c = 50%N \/ c = 51%N \/ c = 52%N \/ c = 53%N
  \/ c = 54%N \/ c = 55%N \/ c = 56%N \/ c = 57%N.
Proof.
  unfold is_digit. intros [H1%N.leb_le H2%N.leb_le]%andb_prop. lia.
Qed.

Lemma digit_not_white_space (c : N) :
  is_digit c = true -> is_white_space c = false.
Proof.
  intros H. destruct (digit_cases c H) as [->|[->|[->|[->|[->|[->|[->|[->|[->| ->]]]]]]]]];
    reflexivity.
Qed.

Lemma trimStart_head (c : N) (s : list N) :
  is_white_space c = false -> trimStart (c :: s) = c :: s.
Proof. intros H. cbn. by rewrite H. Qed.

(** [trim] leaves alone a string that starts and ends with a character
    that is not white space. *)
Lemma trim_id (a b : N) (s : list N) :
  is_white_space a = false -> is_white_space b = false ->
  trim (a :: s ++ [b]) = a :: s ++ [b].
Proof.
  intros Ha Hb. unfold trim, trimEnd. rewrite trimStart_head by done.
  change (a :: s ++ [b]) with ((a :: s) ++ [b]).
  rewrite rev_app_distr. cbn [rev app]. rewrite trimStart_head by done.
  change (b :: rev s ++ [a]) with ([b] ++ rev (a :: s)).
  rewrite rev_app_distr, rev_involutive. reflexivity.
Qed.


(** A string between two digits is its own trimmed form. *)
Lemma trim_between_digits (d s e : list N) :
  forallb is_digit d = true -> d <> [] ->
  forallb is_digit e = true -> e <> [] ->
  trim (d ++ s ++ e) = d ++ s ++ e.
Proof.
  intros Hd Hd0 He He0.
  destruct d as [|a d]; [done|].
  destruct (exists_last He0) as (e' & b & ->).
  cbn in Hd. apply andb_prop in Hd as [Ha _].
  rewrite forallb_app in He. apply andb_prop in He as [_ Hb].
  cbn in Hb. rewrite andb_true_r in Hb.
  replace ((a :: d) ++ s ++ e' ++ [b]) with (a :: (d ++ s ++ e') ++ [b])
    by (cbn; by rewrite <- !app_assoc).
  apply trim_id; by apply digit_not_white_space.
Qed.


Lemma span_digits_app (d s : list N) :
  forallb is_digit d = true -> no_digit_ahead s ->
  span_digits (d ++ s) = (d, s).
Proof.
  intros Hd Hs. induction d as [|c d IH].
  - destruct s as [|c s]; [reflexivity|]. cbn in *. by rewrite Hs.
  - cbn in Hd. apply andb_prop in Hd as [Hc Hd].
    cbn. rewrite Hc, (IH Hd). reflexivity.
Qed.

Lemma span_digits_prefix (d s : list N) :
  forallb is_digit d = true ->
  (length d <= length (fst (span_digits (d ++ s))))%nat.
Proof.
  intros Hd. induction d as [|c d IH]; [cbn; lia|].
  cbn in Hd. apply andb_prop in Hd as [Hc Hd].
  cbn. rewrite Hc. specialize (IH Hd).
  destruct (span_digits (d ++ s)). cbn in *. lia.
Qed.

Lemma firstn_span_digits (k : nat) (s : list N) :
  (k <= length (fst (span_digits s)))%nat ->
  forallb is_digit (firstn k s) = true /\ length (firstn k s) = k.
Proof.
  revert k. induction s as [|c s IH]; intros k Hk.
  - cbn in Hk. assert (k = 0%nat) as -> by lia. done.
  - destruct k as [|k]; [done|]. cbn in Hk.
    destruct (is_digit c) eqn:Hc; [|cbn in Hk; lia].
    destruct (span_digits s) as [d r] eqn:Hs. cbn in Hk.
    destruct (IH k) as [H1 H2]; [cbn; lia|].
    cbn. rewrite Hc, H1, H2. done.
Qed.

End StringFacts.

Section RegexFacts.

Lemma backtrack_sound {A : Type} (f : nat -> option A) (lo k : nat) (r : A) :
  backtrack f lo k = Some r ->
  exists j, (lo <= j <= k)%nat /\ f j = Some r.
Proof.
  induction k as [|k IH]; cbn [backtrack].
  - destruct (0 <? lo)%nat eqn:Hlo; [done|]. apply Nat.ltb_ge in Hlo.
    destruct (f 0%nat) eqn:Hf; [|done]. intros [= <-]. exists 0%nat. split; [lia|done].
  - destruct (S k <? lo)%nat eqn:Hlo; [done|]. apply Nat.ltb_ge in Hlo.
    destruct (f (S k)) eqn:Hf.
    + intros [= <-]. exists (S k). split; [lia|done].
    + intros H. destruct (IH H) as (j & Hj & Hfj). exists j. split; [lia|done].
Qed.

Lemma backtrack_complete {A : Type} (f : nat -> option A) (lo k j : nat) :
  (lo <= j <= k)%nat -> is_Some (f j) -> is_Some (backtrack f lo k).
Proof.
  intros Hj Hf. induction k as [|k IH]; cbn [backtrack].
  - assert (j = 0%nat) as -> by lia. assert (lo = 0%nat) as -> by lia.
    cbn. destruct Hf as [r ->]. eauto.
  - destruct (S k <? lo)%nat eqn:Hlo; [apply Nat.ltb_lt in Hlo; lia|].
    destruct (f (S k)) eqn:Hfk; [eauto|].
    apply IH. destruct (decide (j = S k)) as [->|]; [|lia].
    rewrite Hfk in Hf. by destruct Hf.
Qed.

(** The matcher finds only matches... *)
Lemma exec_sound (p : list atom) (s : list N) (g : list (list N)) :
  exec p s = Some g -> matches p s g.
Proof.
  revert s g. induction p as [|[lo hi|c] p IH]; intros s g; cbn [exec].
  - destruct s; [|done]. intros [= <-]. constructor.
  - intros H. apply backtrack_sound in H as (k & Hk & H).
    destruct (exec p (skipn k s)) as [g'|] eqn:Hg; [|done].
    injection H as <-.
    destruct (firstn_span_digits k s) as [Hd Hl].
    { destruct hi; lia. }
    rewrite <- (firstn_skipn k s) at 1.
    constructor; [done|lia| |by apply IH].
    intros h ->. lia.
  - destruct s as [|c' s]; [done|].
    destruct (N.eqb_spec c c') as [->|]; [|done].
    intros H. constructor. by apply IH.
Qed.

(** ... and finds one whenever there is one. *)
Lemma exec_complete (p : list atom) (s : list N) (g : list (list N)) :
  matches p s g -> is_Some (exec p s).
Proof.
  induction 1 as [|c p s g _ IH|lo hi p d s g Hd Hlo Hhi _ IH]; cbn [exec].
  - eauto.
  - by rewrite N.eqb_refl.
  - apply (backtrack_complete _ _ _ (length d)).
    + split; [done|]. pose proof (span_digits_prefix d s Hd).
      destruct hi as [h|]; [|done]. specialize (Hhi h eq_refl). lia.
    + rewrite skipn_app, skipn_all, Nat.sub_diag.
      change (exec p ([] ++ skipn 0 s)) with (exec p s).
      destruct IH as [g' ->]. eauto.
Qed.

(** What follows a digit run in a match of a delimited pattern does not
    start with a digit. *)
Lemma matches_no_digit_ahead (p : list atom) (s : list N)
    (g : list (list N)) :
  match p with Digits _ _ :: _ => False | _ => True end ->
  delimited p = true -> matches p s g -> no_digit_ahead s.
Proof.
  intros Hp Hdel Hm. destruct Hm as [|c p s g Hm|]; [done| |done].
  cbn in Hdel. apply andb_prop in Hdel as [Hc _].
  cbn. by apply negb_true_iff.
Qed.

Lemma delimited_tail (a : atom) (p : list atom) :
  delimited (a :: p) = true ->
  delimited p = true
  /\ match a with
     | Digits _ _ => match p with Digits _ _ :: _ => False | _ => True end
     | Lit c => is_digit c = false
     end.
Proof.
  destruct a as [lo hi|c]; cbn.
  - destruct p as [|[]]; done.
  - intros [Hc Hp]%andb_prop. by apply negb_true_iff in Hc.
Qed.

(** The groups of a delimited pattern are determined by the string. *)
Lemma matches_unique (p : list atom) (s : list N) (g1 g2 : list (list N)) :
  delimited p = true -> matches p s g1 -> matches p s g2 -> g1 = g2.
Proof.
  intros Hdel H1. revert g2.
  induction H1 as [|c p s g H1 IH|lo hi p d s g Hd Hlo Hhi H1 IH];
    intros g2 H2.
  - by inversion H2.
  - apply delimited_tail in Hdel as [Hdel _].
    inversion H2; subst. by apply IH.
  - apply delimited_tail in Hdel as [Hdel Hp].
    inversion H2 as [| |lo' hi' p' d' s' g' Hd' Hlo' Hhi' H2' E1 E2 E3]; subst.
    pose proof (span_digits_app d s Hd
                  (matches_no_digit_ahead _ _ _ Hp Hdel H1)) as Ha.
    pose proof (span_digits_app d' s' Hd'
                  (matches_no_digit_ahead _ _ _ Hp Hdel H2')) as Hb.
    rewrite E2 in Hb. rewrite Ha in Hb. injection Hb as -> ->.
    f_equal. by apply IH.
Qed.

(** For a delimited pattern the matcher returns the groups of the match. *)
Lemma exec_matches (p : list atom) (s : list N) (g : list (list N)) :
  delimited p = true -> matches p s g -> exec p s = Some g.
Proof.
  intros Hdel Hm. destruct (exec_complete _ _ _ Hm) as [g' Hg'].
  rewrite Hg'. f_equal.
  apply (matches_unique p s); [done| |done]. by apply exec_sound.
Qed.

(** The non-digit characters of a matched string are the literals of the
    pattern. *)
Lemma separators_app (s t : list N) :
  separators (s ++ t) = separators s ++ separators t.
Proof. apply List.filter_app. Qed.

Lemma separators_digits (d : list N) :
  forallb is_digit d = true -> separators d = [].
Proof.
  induction d as [|c d IH]; [done|]. cbn.
  intros [Hc Hd]%andb_prop. rewrite Hc. cbn. by apply IH.
Qed.

Lemma matches_separators (p : list atom) (s : list N) (g : list (list N)) :
  delimited p = true -> matches p s g -> separators s = literals p.
Proof.
  intros Hdel Hm.
  induction Hm as [|c p s g _ IH|lo hi p d s g Hd _ _ _ IH].
  - done.
  - apply delimited_tail in Hdel as [Hdel Hc].
    cbn. rewrite Hc. cbn. f_equal. by apply IH.
  - apply delimited_tail in Hdel as [Hdel _].
    rewrite separators_app, separators_digits by done. by apply IH.
Qed.

Lemma exec_wrong_separators (p : list atom) (s : list N) :
  delimited p = true -> separators s <> literals p -> exec p s = None.
Proof.
  intros Hdel Hne. destruct (exec p s) as [g|] eqn:Hg; [|done].
  destruct Hne. apply (matches_separators p s g); [done|].
  by apply exec_sound.
Qed.

End RegexFacts.

(** ** The parser: [parseTimeString] *)

Section ParserFacts.

Local Open Scope js_scope.

Ltac invert_matches :=
  repeat match goal with
         | H : matches (_ :: _) _ _ |- _ => inversion H; clear H; subst
         | H : matches [] _ _ |- _ => inversion H; clear H; subst
         end.

Lemma digit_run_spec (hi : option nat) (d : list N) :
  digit_run hi d
  <-> forallb is_digit d = true
      /\ (1 <= length d)%nat
      /\ (forall h, hi = Some h -> (length d <= h)%nat).
Proof.
  unfold digit_run, is_digit_run. rewrite !andb_true_iff, Nat.leb_le.
  destruct hi as [h|].
  - rewrite Nat.leb_le. split.
    + intros [[H1 H2] H3]. repeat split; [done..|]. by intros ? [= <-].
    + intros (H1 & H2 & H3). eauto.
  - split; [|tauto]. intros [[H1 H2] _]. done.
Qed.

Lemma digit_run_nonempty (hi : option nat) (d : list N) :
  digit_run hi d -> d <> [].
Proof. intros (_ & H & _)%digit_run_spec ->. cbn in H. lia. Qed.

Lemma digit_run_digits (hi : option nat) (d : list N) :
  digit_run hi d -> forallb is_digit d = true.
Proof. by intros (H & _)%digit_run_spec. Qed.

Ltac wrong_separators :=
  rewrite ?separators_app;
  repeat match goal with
         | H : digit_run _ ?d |- _ =>
             rewrite (separators_digits d) by exact (digit_run_digits _ _ H)
         end;
  discriminate.

Lemma matches_run (hi : option nat) (p : list atom) (d s : list N)
    (g : list (list N)) :
  digit_run hi d -> matches p s g ->
  matches (Digits 1 hi :: p) (d ++ s) (d :: g).
Proof. intros (Hd & Hlo & Hhi)%digit_run_spec Hm. by constructor. Qed.

Lemma matches_last_run (hi : option nat) (d : list N) :
  digit_run hi d -> matches [Digits 1 hi] d [d].
Proof.
  intros Hd. rewrite <- (app_nil_r d) at 1.
  apply matches_run; [done|constructor].
Qed.

Lemma minutes_matches (m sec ms : list N) :
  digit_run None m -> digit_run (Some 2%nat) sec ->
  digit_run (Some 3%nat) ms ->
  matches minutesRe (m ++ str ":" ++ sec ++ str "." ++ ms) [m; sec; ms].
Proof.
  intros Hm Hs Hms. apply matches_run; [done|]. constructor.
  apply matches_run; [done|]. constructor. by apply matches_last_run.
Qed.

Lemma hours_matches (h m sec ms : list N) :
  digit_run None h -> digit_run (Some 2%nat) m ->
  digit_run (Some 2%nat) sec -> digit_run (Some 3%nat) ms ->
  matches hoursRe (h ++ str ":" ++ m ++ str ":" ++ sec ++ str "." ++ ms)
    [h; m; sec; ms].
Proof.
  intros Hh Hm Hs Hms. apply matches_run; [done|]. constructor.
  apply matches_run; [done|]. constructor.
  apply matches_run; [done|]. constructor. by apply matches_last_run.
Qed.

Lemma decimal_matches (sec ms : list N) :
  digit_run None sec -> digit_run (Some 3%nat) ms ->
  matches decimalRe (sec ++ str "." ++ ms) [sec; ms].
Proof.
  intros Hs Hms. apply matches_run; [done|]. constructor.
  by apply matches_last_run.
Qed.

Lemma matches_minutes (s : list N) (g : list (list N)) :
  matches minutesRe s g ->
  exists m sec ms,
    digit_run None m /\ digit_run (Some 2%nat) sec
    /\ digit_run (Some 3%nat) ms
    /\ s = m ++ str ":" ++ sec ++ str "." ++ ms /\ g = [m; sec; ms].
Proof.
  unfold minutesRe. intros H. invert_matches.
  eexists _, _, _. rewrite app_nil_r.
  repeat split; try apply digit_run_spec; eauto.
Qed.

Lemma matches_hours (s : list N) (g : list (list N)) :
  matches hoursRe s g ->
  exists h m sec ms,
    digit_run None h /\ digit_run (Some 2%nat) m
    /\ digit_run (Some 2%nat) sec /\ digit_run (Some 3%nat) ms
    /\ s = h ++ str ":" ++ m ++ str ":" ++ sec ++ str "." ++ ms
    /\ g = [h; m; sec; ms].
Proof.
  unfold hoursRe. intros H. invert_matches.
  eexists _, _, _, _. rewrite app_nil_r.
  repeat split; try apply digit_run_spec; eauto.
Qed.

Lemma matches_decimal (s : list N) (g : list (list N)) :
  matches decimalRe s g ->
  exists sec ms,
    digit_run None sec /\ digit_run (Some 3%nat) ms
    /\ s = sec ++ str "." ++ ms /\ g = [sec; ms].
Proof.
  unfold decimalRe. intros H. invert_matches.
  eexists _, _. rewrite app_nil_r.
  repeat split; try apply digit_run_spec; eauto.
Qed.

Lemma matches_whole (s : list N) (g : list (list N)) :
  matches wholeRe s g -> digit_run None s /\ g = [s].
Proof.
  unfold wholeRe. intros H. invert_matches.
  rewrite app_nil_r. split; [apply digit_run_spec|]; eauto.
Qed.

(** What each [match] of the parser yields: the groups of the grammar, or
    [None] when the string is not in it. *)
Lemma exec_minutesRe (s : list N) :
  match exec minutesRe s with
  | Some g =>
      exists m sec ms,
        digit_run None m /\ digit_run (Some 2%nat) sec
        /\ digit_run (Some 3%nat) ms
        /\ s = m ++ str ":" ++ sec ++ str "." ++ ms /\ g = [m; sec; ms]
  | None => ~ minutes_grammar s
  end.
Proof.
  destruct (exec minutesRe s) as [g|] eqn:E.
  - by apply matches_minutes, exec_sound.
  - intros (m & sec & ms & Hm & Hs & Hms & ->).
    pose proof (exec_complete _ _ _ (minutes_matches m sec ms Hm Hs Hms)) as H.
    rewrite E in H. by destruct H.
Qed.

Lemma exec_hoursRe (s : list N) :
  match exec hoursRe s with
  | Some g =>
      exists h m sec ms,
        digit_run None h /\ digit_run (Some 2%nat) m
        /\ digit_run (Some 2%nat) sec /\ digit_run (Some 3%nat) ms
        /\ s = h ++ str ":" ++ m ++ str ":" ++ sec ++ str "." ++ ms
        /\ g = [h; m; sec; ms]
  | None => ~ hours_grammar s
  end.
Proof.
  destruct (exec hoursRe s) as [g|] eqn:E.
  - by apply matches_hours, exec_sound.
  - intros (h & m & sec & ms & Hh & Hm & Hs & Hms & ->).
    pose proof (exec_complete _ _ _ (hours_matches h m sec ms Hh Hm Hs Hms))
      as H.
    rewrite E in H. by destruct H.
Qed.

Lemma exec_decimalRe (s : list N) :
  match exec decimalRe s with
  | Some g =>
      exists sec ms,
        digit_run None sec /\ digit_run (Some 3%nat) ms
        /\ s = sec ++ str "." ++ ms /\ g = [sec; ms]
  | None => ~ decimal_grammar s
  end.
Proof.
  destruct (exec decimalRe s) as [g|] eqn:E.
  - by apply matches_decimal, exec_sound.
  - intros (sec & ms & Hs & Hms & ->).
    pose proof (exec_complete _ _ _ (decimal_matches sec ms Hs Hms)) as H.
    rewrite E in H. by destruct H.
Qed.

Lemma exec_wholeRe (s : list N) :
  match exec wholeRe s with
  | Some g => digit_run None s /\ g = [s]
  | None => ~ whole_grammar s
  end.
Proof.
  destruct (exec wholeRe s) as [g|] eqn:E.
  - by apply matches_whole, exec_sound.
  - intros Hs.
    pose proof (exec_complete _ _ _ (matches_last_run None s Hs)) as H.
    fold wholeRe in H. rewrite E in H. by destruct H.
Qed.

(** [parseInt] on a run of digits is the number the run denotes. *)
Lemma digit_in_10 (c : N) :
  is_digit c = true -> digit_in 10 c = Some (c - 48)%N.
Proof.
  intros H. destruct (digit_cases c H) as [->|[->|[->|[->|[->|[->|[->|[->|[->| ->]]]]]]]]];
    reflexivity.
Qed.

Lemma span_radix_digits (d : list N) (count : nat) (acc : N) :
  forallb is_digit d = true ->
  span_radix 10 d count acc
  = ((count + length d)%nat,
     fold_left (fun acc c => acc * 10 + (c - 48))%N d acc, []).
Proof.
  revert count acc. induction d as [|c d IH]; intros count acc Hd.
  - cbn. by rewrite Nat.add_0_r.
  - cbn in Hd. apply andb_prop in Hd as [Hc Hd].
    cbn [span_radix]. rewrite (digit_in_10 c Hc), (IH _ _ Hd).
    cbn [length fold_left]. do 2 f_equal. lia.
Qed.

Lemma parseInt_digits (hi : option nat) (d : list N) :
  digit_run hi d -> parseInt d = int d.
Proof.
  intros (Hd & Hlen & _)%digit_run_spec. unfold parseInt.
  destruct d as [|c d]; [cbn in Hlen; lia|].
  pose proof Hd as Hd'. cbn in Hd'. apply andb_prop in Hd' as [Hc Hd'].
  rewrite trimStart_head by by apply digit_not_white_space.
  assert (Hsign : split_sign (c :: d) = (false, c :: d)).
  { destruct (digit_cases c Hc) as [->|[->|[->|[->|[->|[->|[->|[->|[->| ->]]]]]]]]];
      reflexivity. }
  rewrite Hsign.
  assert (Hradix : match c :: d with
                   | 48%N :: p :: r =>
                       if ((p =? 120) || (p =? 88))%N
                       then (16%N, r) else (10%N, c :: d)
                   | _ => (10%N, c :: d)
                   end = (10%N, c :: d)).
  { destruct (digit_cases c Hc) as [->|[->|[->|[->|[->|[->|[->|[->|[->| ->]]]]]]]]];
      try reflexivity.
    destruct d as [|p r]; [reflexivity|].
    cbn in Hd'. apply andb_prop in Hd' as [Hp _].
    destruct (digit_cases p Hp) as [->|[->|[->|[->|[->|[->|[->|[->|[->| ->]]]]]]]]];
      reflexivity. }
  rewrite Hradix, span_radix_digits by done.
  reflexivity.
Qed.

Lemma padEnd_digit_run (ms : list N) :
  digit_run (Some 3%nat) ms -> digit_run (Some 3%nat) (padEnd 3 48 ms).
Proof.
  intros (Hd & Hlo & Hhi)%digit_run_spec. specialize (Hhi _ eq_refl).
  unfold padEnd. apply digit_run_spec. repeat split.
  - rewrite forallb_app, Hd. cbn.
    induction (3 - length ms)%nat; [done|]. cbn. done.
  - rewrite length_app. lia.
  - intros h [= <-]. rewrite length_app, repeat_length. lia.
Qed.

(** The parser on a string of each grammar. *)
Lemma parseTimeString_start (s : list N) :
  s <> [] -> trim s = s ->
  parseTimeString s =
  match exec minutesRe s with
  | Some [minutes; seconds; milliseconds] =>
      Return (parseInt minutes * n60 + parseInt seconds
              + parseInt (padEnd 3 48 milliseconds) / n1000)
  | _ =>
  match exec hoursRe s with
  | Some [hours; minutes; seconds; milliseconds] =>
      Return (parseInt hours * n3600 + parseInt minutes * n60
              + parseInt seconds
              + parseInt (padEnd 3 48 milliseconds) / n1000)
  | _ =>
  match exec decimalRe s with
  | Some [seconds; milliseconds] =>
      Return (parseInt seconds + parseInt (padEnd 3 48 milliseconds) / n1000)
  | _ =>
  match exec wholeRe s with
  | Some [whole] => Return (parseInt whole)
  | _ => Throw (str "Invalid time format: " ++ s)
  end end end end.
Proof.
  intros Hs Ht. unfold parseTimeString. rewrite Ht.
  destruct s; [done|]. reflexivity.
Qed.



Lemma parseTimeString_decimal (sec ms : list N) :
  digit_run None sec -> digit_run (Some 3%nat) ms ->
  parseTimeString (sec ++ str "." ++ ms)
  = Return (int sec + int (padEnd 3 48 ms) / n1000).
Proof.
  intros Hs Hms.
  rewrite parseTimeString_start.
  - rewrite (exec_wrong_separators minutesRe _ eq_refl) by wrong_separators.
    rewrite (exec_wrong_separators hoursRe _ eq_refl) by wrong_separators.
    rewrite (exec_matches decimalRe _ _ eq_refl (decimal_matches _ _ Hs Hms)).
    rewrite (parseInt_digits _ _ Hs).
    by rewrite (parseInt_digits _ _ (padEnd_digit_run _ Hms)).
  - pose proof (digit_run_nonempty _ _ Hs). by destruct sec.
  - apply trim_between_digits;
      eauto using digit_run_digits, digit_run_nonempty.
Qed.


End ParserFacts.



(** C6.  The parser throws exactly when the trimmed input is empty or is in
    none of the four grammars; a string with anything before, after or
    inside a grammar's form is in none of them. *)
Theorem parseTimeString_fails_iff (timeString : list N) :
  (throws (parseTimeString timeString)
   <-> trim timeString = []
       \/ ~ (minutes_grammar (trim timeString)
             \/ hours_grammar (trim timeString)
             \/ decimal_grammar (trim timeString)
             \/ whole_grammar (trim timeString)))
  /\ throws (parseTimeString (str ""))
  /\ throws (parseTimeString (str "   "))
  /\ throws (parseTimeString (str "1:05.123x"))
  /\ throws (parseTimeString (str "x1:05.123"))
  /\ throws (parseTimeString (str "1: 05.123"))
  /\ throws (parseTimeString (str "1:2:3:4"))
  /\ throws (parseTimeString (str "1.2.3"))
  /\ throws (parseTimeString (str "1:05.1234"))
  /\ parseTimeString (str "  1:05.123 ") = Return (dec 65123 3).
Proof.
  split; [|repeat split; try (eexists; vm_compute; reflexivity);
           vm_compute; reflexivity].
  unfold parseTimeString.
  destruct (empty timeString || empty (trim timeString)) eqn:He.
  - split; [intros _; left|intros _; eexists; reflexivity].
    destruct timeString; [reflexivity|]. cbn [empty orb] in He.
    by destruct (trim _).
  - assert (Hne : trim timeString <> []).
    { intros H. rewrite H in He. by rewrite orb_true_r in He. }
    set (s := trim timeString) in *.
    pose proof (exec_minutesRe s) as H1.
    destruct (exec minutesRe s) as [g1|].
    { destruct H1 as (m & sec & ms & Hm & Hs & Hms & Heq & ->). split.
      - intros [msg H]. discriminate.
      - intros [H|H]; [done|]. destruct H. left. by exists m, sec, ms. }
    pose proof (exec_hoursRe s) as H2.
    destruct (exec hoursRe s) as [g2|].
    { destruct H2 as (h & m & sec & ms & Hh & Hm & Hs & Hms & Heq & ->).
      split.
      - intros [msg H]. discriminate.
      - intros [H|H]; [done|]. destruct H. right. left.
        by exists h, m, sec, ms. }
    pose proof (exec_decimalRe s) as H3.
    destruct (exec decimalRe s) as [g3|].
    { destruct H3 as (sec & ms & Hs & Hms & Heq & ->). split.
      - intros [msg H]. discriminate.
      - intros [H|H]; [done|]. destruct H. right. right. left.
        by exists sec, ms. }
    pose proof (exec_wholeRe s) as H4.
    destruct (exec wholeRe s) as [g4|].
    { destruct H4 as (Hs & ->). split.
      - intros [msg H]. discriminate.
      - intros [H|H]; [done|]. destruct H. by do 3 right. }
    split; [intros _; right; tauto|intros _; eexists; reflexivity].
Qed.

(** ** Formatting what the parser returns *)

Section RoundTrip.

Local Open Scope N_scope.

Lemma digits_fuel_S (f : nat) (n : N) (acc : list N) :
  digits_fuel (S f) n acc
  = if n <? 10 then (48 + n mod 10) :: acc
    else digits_fuel f (n / 10) ((48 + n mod 10) :: acc).
Proof. reflexivity. Qed.

Lemma digits_fuel_acc (f : nat) (n : N) (acc : list N) :
  digits_fuel f n acc = digits_fuel f n [] ++ acc.
Proof.
  revert n acc. induction f as [|f IH]; intros n acc; [done|].
  cbn [digits_fuel]. destruct (n <? 10); [done|].
  rewrite IH, (IH _ [_]), <- app_assoc. reflexivity.
Qed.

Lemma digits_fuel_enough (f1 f2 : nat) (n : N) (acc : list N) :
  n < 10 ^ N.of_nat (S f1) -> n < 10 ^ N.of_nat (S f2) ->
  digits_fuel (S f1) n acc = digits_fuel (S f2) n acc.
Proof.
  revert f2 n acc. induction f1 as [|f1 IH]; intros f2 n acc H1 H2.
  - change (10 ^ N.of_nat 1) with 10 in H1.
    cbn [digits_fuel]. apply N.ltb_lt in H1. by rewrite H1.
  - cbn [digits_fuel]. destruct (N.ltb_spec n 10) as [|Hn]; [done|].
    destruct f2 as [|f2].
    { change (10 ^ N.of_nat 1) with 10 in H2. lia. }
    apply IH.
    + apply N.Div0.div_lt_upper_bound.
      rewrite Nat2N.inj_succ, N.pow_succ_r' in H1. done.
    + apply N.Div0.div_lt_upper_bound.
      rewrite Nat2N.inj_succ, N.pow_succ_r' in H2. done.
Qed.

Lemma digits_of_fuel (f : nat) (n : N) :
  n < 10 ^ N.of_nat (S f) -> digits_of n = digits_fuel (S f) n [].
Proof.
  intros H. unfold digits_of. apply digits_fuel_enough; [|done].
  rewrite Nat2N.inj_succ, N2Nat.id.
  destruct n as [|p]; [done|].
  pose proof (N.log2_spec (Npos p) eq_refl) as [_ Hlt].
  eapply N.lt_le_trans; [exact Hlt|].
  apply N.pow_le_mono_l. lia.
Qed.

Lemma digits_of_small (d : N) : d < 10 -> digits_of d = [48 + d].
Proof.
  intros Hd. rewrite (digits_of_fuel 0) by done.
  cbn [digits_fuel]. apply N.ltb_lt in Hd as Hd'. rewrite Hd'.
  by rewrite N.mod_small.
Qed.

Lemma digits_of_step (n d : N) :
  1 <= n -> d < 10 -> digits_of (10 * n + d) = digits_of n ++ [48 + d].
Proof.
  intros Hn Hd.
  set (f := N.to_nat (N.log2 n)).
  assert (Hf : n < 10 ^ N.of_nat (S f)).
  { unfold f. rewrite Nat2N.inj_succ, N2Nat.id.
    destruct n as [|p]; [done|].
    pose proof (N.log2_spec (Npos p) eq_refl) as [_ Hlt].
    eapply N.lt_le_trans; [exact Hlt|].
    apply N.pow_le_mono_l. lia. }
  rewrite (digits_of_fuel (S f)).
  2:{ rewrite Nat2N.inj_succ, N.pow_succ_r'. lia. }
  rewrite digits_fuel_S.
  destruct (N.ltb_spec (10 * n + d) 10) as [|_]; [lia|].
  assert ((10 * n + d) / 10 = n) as ->.
  { rewrite N.mul_comm, N.div_add_l, N.div_small by lia. lia. }
  assert ((10 * n + d) mod 10 = d) as ->.
  { rewrite N.add_comm, N.mul_comm, N.Div0.mod_add. by apply N.mod_small. }
  rewrite digits_fuel_acc. reflexivity.
Qed.

Lemma digits_value_snoc (d : list N) (c : N) :
  digits_value (d ++ [c]) = digits_value d * 10 + (c - 48).
Proof. unfold digits_value. by rewrite fold_left_app. Qed.

Lemma digit_value_range (c : N) :
  is_digit c = true -> c - 48 < 10 /\ 48 + (c - 48) = c.
Proof.
  unfold is_digit. intros [H1%N.leb_le H2%N.leb_le]%andb_prop. lia.
Qed.

Lemma digits_value_bound (d : list N) :
  forallb is_digit d = true -> digits_value d < 10 ^ N.of_nat (length d).
Proof.
  induction d as [|c d IH] using rev_ind; [done|].
  rewrite forallb_app. cbn [forallb]. rewrite andb_true_r.
  intros [Hd Hc]%andb_prop.
  rewrite digits_value_snoc, length_app. cbn [length].
  rewrite Nat.add_1_r, Nat2N.inj_succ, N.pow_succ_r'.
  specialize (IH Hd). destruct (digit_value_range c Hc). lia.
Qed.

(** Printing the value of a run of digits that does not start with a zero
    gives the run back. *)
Lemma digits_of_value_nonzero (d : list N) :
  forallb is_digit d = true ->
  match d with [] => False | c :: _ => c <> 48 end ->
  digits_of (digits_value d) = d /\ 1 <= digits_value d.
Proof.
  induction d as [|c d IH] using rev_ind; [done|].
  rewrite forallb_app. cbn [forallb]. rewrite andb_true_r.
  intros [Hd Hc]%andb_prop Hhead.
  rewrite digits_value_snoc.
  destruct (digit_value_range c Hc) as [Hlt Hback].
  destruct d as [|c' d'].
  - cbn in Hhead. change (digits_value []) with 0. rewrite N.mul_0_l, N.add_0_l.
    rewrite digits_of_small by done. rewrite Hback.
    split; [done|].
    unfold is_digit in Hc. apply andb_prop in Hc as [H1%N.leb_le _]. lia.
  - destruct IH as [IH1 IH2]; [done|done|].
    rewrite N.mul_comm, digits_of_step by done.
    rewrite IH1, Hback. split; [done|lia].
Qed.

Lemma digits_of_value (d : list N) :
  forallb is_digit d = true -> canonical d = true ->
  digits_of (digits_value d) = d.
Proof.
  intros Hd Hc. destruct d as [|c d]; [done|].
  destruct d as [|c' d'].
  - cbn in Hd. rewrite andb_true_r in Hd.
    destruct (digit_value_range c Hd) as [Hlt Hback].
    change (digits_value [c]) with (0 * 10 + (c - 48)).
    rewrite N.mul_0_l, N.add_0_l, digits_of_small by done. by rewrite Hback.
  - apply digits_of_value_nonzero; [done|].
    cbn in Hc. apply negb_true_iff, N.eqb_neq in Hc. done.
Qed.

Lemma digits3_value (a b c : N) :
  is_digit a = true -> is_digit b = true -> is_digit c = true ->
  digits3 (digits_value [a; b; c]) = [a; b; c]
  /\ digits_value [a; b; c] < 1000.
Proof.
  intros Ha Hb Hc.
  destruct (digit_value_range a Ha) as [Ha1 Ha2].
  destruct (digit_value_range b Hb) as [Hb1 Hb2].
  destruct (digit_value_range c Hc) as [Hc1 Hc2].
  unfold digits_value. cbn [fold_left]. rewrite N.mul_0_l, N.add_0_l.
  set (x := a - 48) in *. set (y := b - 48) in *. set (z := c - 48) in *.
  assert (Hv : (x * 10 + y) * 10 + z = z + (y + x * 10) * 10) by lia.
  split; [|lia]. unfold digits3.
  assert (((x * 10 + y) * 10 + z) / 100 = x) as ->.
  { replace ((x * 10 + y) * 10 + z) with (x * 100 + (y * 10 + z)) by lia.
    rewrite N.div_add_l, N.div_small by lia. lia. }
  assert (((x * 10 + y) * 10 + z) / 10 = x * 10 + y) as ->.
  { rewrite N.div_add_l, N.div_small by lia. lia. }
  assert ((x * 10 + y) mod 10 = y) as ->.
  { rewrite N.add_comm, N.Div0.mod_add. by apply N.mod_small. }
  assert (((x * 10 + y) * 10 + z) mod 10 = z) as ->.
  { rewrite N.add_comm, N.Div0.mod_add. by apply N.mod_small. }
  by rewrite Ha2, Hb2, Hc2.
Qed.

(** The digits of [1000 * V + M] with the point in place. *)
Lemma digits_of_thousands (V M : N) :
  1 <= V -> M < 1000 ->
  digits_of (1000 * V + M) = digits_of V ++ digits3 M.
Proof.
  intros HV HM.
  pose proof (N.div_mod M 100 ltac:(done)) as H100.
  pose proof (N.Div0.mod_mul_r M 10 10) as H10.
  change (10 * 10) with 100 in H10.
  pose proof (N.mod_lt M 10 ltac:(done)) as Hc.
  pose proof (N.mod_lt (M / 10) 10 ltac:(done)) as Hb.
  assert (Ha : M / 100 < 10) by (apply N.Div0.div_lt_upper_bound; lia).
  unfold digits3.
  replace (1000 * V + M)
    with (10 * (10 * (10 * V + M / 100) + (M / 10) mod 10) + M mod 10)
    by lia.
  rewrite !digits_of_step by lia.
  by rewrite <- !app_assoc.
Qed.

Lemma fixed_digits_pad :
  forallb (fun M => bool_decide
                      (fixed_digits (N.of_nat M) 3
                       = str "0" ++ str "." ++ digits3 (N.of_nat M)))
    (seq 0 1000) = true.
Proof. vm_compute. reflexivity. Qed.

Lemma length_digits_of (n : N) : (1 <= length (digits_of n))%nat.
Proof.
  unfold digits_of. cbn [digits_fuel].
  destruct (n <? 10); [cbn; lia|].
  rewrite digits_fuel_acc, length_app. cbn. lia.
Qed.

Lemma fixed_digits_thousands (V M : N) :
  M < 1000 ->
  fixed_digits (1000 * V + M) 3 = digits_of V ++ str "." ++ digits3 M.
Proof.
  intros HM. destruct (N.eq_dec V 0) as [->|HV].
  - rewrite N.mul_0_r, N.add_0_l.
    pose proof fixed_digits_pad as H. rewrite forallb_forall in H.
    specialize (H (N.to_nat M)). rewrite N2Nat.id in H.
    apply bool_decide_eq_true_1 in H; [done|]. apply in_seq. lia.
  - unfold fixed_digits. rewrite digits_of_thousands by lia.
    pose proof (length_digits_of V) as HL.
    assert (Hpad : padStart 4 48 (digits_of V ++ digits3 M)
                   = digits_of V ++ digits3 M).
    { unfold padStart. rewrite length_app.
      change (length (digits3 M)) with 3%nat.
      by replace (4 - (length (digits_of V) + 3))%nat with 0%nat by lia. }
    rewrite Hpad, length_app. change (length (digits3 M)) with 3%nat.
    replace (length (digits_of V) + 3 - 3)%nat
      with (length (digits_of V)) by lia.
    by rewrite take_app_length, drop_app_length.
Qed.

End RoundTrip.

(** ** The sign of a rounded number *)

Section SignFacts.

Local Open Scope js_scope.

Lemma binary_round_aux_not_negative (m e : Z) (l : location) :
  (binary_round_aux prec emax false m e l < zero) = false.
Proof.
  unfold binary_round_aux.
  destruct (shr_fexp prec emax m e l) as [mrs e'].
  destruct (shr_fexp prec emax _ e' loc_Exact) as [mrs' e''].
  destruct (shr_m mrs') as [|m'|m']; [done| |done].
  by destruct (e'' <=? emax - prec)%Z.
Qed.

Lemma of_Z_not_negative (n : Z) : (0 <= n)%Z -> (of_Z n < zero) = false.
Proof.
  intros Hn. destruct n as [|p|p]; [done| |lia].
  unfold of_Z, binary_normalize, binary_round.
  destruct (shl_align _ _ _) as [mz ez].
  apply binary_round_aux_not_negative.
Qed.

Lemma of_decimal_not_negative (d : N) (ex : Z) :
  (of_decimal false d ex < zero) = false.
Proof.
  unfold of_decimal. destruct (0 <=? ex)%Z.
  - apply of_Z_not_negative.
    assert (0 <= 10 ^ ex)%Z by (apply Z.pow_nonneg; lia). lia.
  - unfold of_ratio. destruct d as [|p]; [done|].
    unfold SFdiv. destruct (SFdiv_core_binary _ _ _ _ _ _) as [[mz ez] lz].
    apply binary_round_aux_not_negative.
Qed.

(** A string that does not start with a minus sign, white space apart, is
    not the literal of a negative number. *)
Lemma Number_not_negative (s : list N) :
  (forall r, trim s <> 45%N :: r) -> (Number s < zero) = false.
Proof.
  intros Hs. unfold Number. destruct (trim s) as [|c t]; [done|].
  destruct (nondecimal_literal (c :: t)) as [v|].
  { apply of_Z_not_negative. lia. }
  assert (Hsgn : fst (split_sign (c :: t)) = false).
  { unfold split_sign.
    destruct (N.eqb_spec c 45) as [->|Hc]; [by destruct (Hs t)|].
    by destruct (c =? 43)%N. }
  destruct (split_sign (c :: t)) as [sgn u]. cbn in Hsgn. subst sgn.
  destruct (bool_decide (u = str "Infinity")); [done|].
  destruct (decimal_literal u) as [[d ex]|]; [|done].
  apply of_decimal_not_negative.
Qed.

Lemma trimStart_snoc (l : list N) (c : N) :
  is_white_space c = false -> exists l', trimStart (l ++ [c]) = l' ++ [c].
Proof.
  intros Hc. induction l as [|a l IH].
  - exists []. cbn. by rewrite Hc.
  - cbn. destruct (is_white_space a); [done|]. by exists (a :: l).
Qed.

Lemma trim_head (c : N) (s : list N) :
  is_white_space c = false -> exists s', trim (c :: s) = c :: s'.
Proof.
  intros Hc. unfold trim, trimEnd. rewrite trimStart_head by done.
  cbn [rev]. destruct (trimStart_snoc (rev s) c Hc) as [l' ->].
  exists (rev l'). by rewrite rev_app_distr.
Qed.

Lemma digits_fuel_digits (f : nat) (n : N) (acc : list N) :
  forallb is_digit acc = true ->
  forallb is_digit (digits_fuel f n acc) = true.
Proof.
  revert n acc. induction f as [|f IH]; intros n acc Hacc; [done|].
  cbn [digits_fuel].
  assert (Hd : is_digit (48 + n mod 10) = true).
  { pose proof (N.mod_lt n 10 ltac:(done)) as Hlt. unfold is_digit.
    set (x := (n mod 10)%N) in *.
    apply andb_true_intro. split; apply N.leb_le; lia. }
  destruct (n <? 10)%N; [|apply IH]; cbn [forallb]; by rewrite Hd.
Qed.

Lemma digits_of_head (n : N) :
  exists c r, digits_of n = c :: r /\ is_digit c = true.
Proof.
  pose proof (digits_fuel_digits (S (N.to_nat (N.log2 n))) n [] eq_refl) as H.
  pose proof (length_digits_of n) as HL.
  fold (digits_of n) in H. destruct (digits_of n) as [|c r]; [cbn in HL; lia|].
  cbn in H. apply andb_prop in H as [Hc _]. eauto.
Qed.

Lemma fixed_digits_head (n : N) :
  exists c r, fixed_digits n 3 = c :: r /\ is_digit c = true.
Proof.
  unfold fixed_digits, padStart.
  destruct (digits_of_head n) as (c & r & -> & Hc).
  destruct r as [|c1 [|c2 [|c3 r]]]; cbn; eauto.
Qed.

Lemma toString_large_head (m : positive) (e : Z) :
  exists c r, toString_large m e = c :: r /\ is_digit c = true.
Proof.
  unfold toString_large.
  destruct (shortest _ _ _ _ _) as [s n'].
  destruct (digits_of_head (Z.to_N s)) as (c & r & -> & Hc).
  cbn [firstn app]. eauto.
Qed.

(** Rounding to three decimals gives a negative number only from a
    negative one. *)
Lemma rounded_negative (x : number) :
  (Number (toFixed x 3) < zero) = true -> (x < zero) = true.
Proof.
  destruct x as [s|[]| |[] m e]; try done.
  intros H. exfalso. rewrite Number_not_negative in H; [done|].
    cbn [toFixed app].
    assert (Hhead : exists c r,
               (if at_least_1e21 m e then toString_large m e
                else fixed_digits (Z.to_N (scaled_round m e 3)) 3) = c :: r
               /\ is_digit c = true).
    { destruct (at_least_1e21 m e);
        [apply toString_large_head|apply fixed_digits_head]. }
    destruct Hhead as (c & r & -> & Hc).
    destruct (trim_head c r (digit_not_white_space c Hc)) as [s' ->].
    intros r' [= -> _]. done.
Qed.

End SignFacts.

(** C7, as amended.  For a decimal-seconds string whose seconds are written
    with at most twelve digits and no zero in front of another digit, and
    whose milliseconds have exactly three digits, parsing returns a number
    that formats to the same string. *)
Theorem format_parse_round_trip (sec ms : list N) :
  digit_run None sec -> canonical sec = true -> (length sec <= 12)%nat ->
  digit_run (Some 3%nat) ms -> length ms = 3%nat ->
  exists x : number,
    parseTimeString (sec ++ str "." ++ ms) = Return x
    /\ formatTime x = Return (sec ++ str "." ++ ms).
Proof.
  intros Hs Hcan Hlen Hms Hlen3.
  rewrite (parseTimeString_decimal sec ms Hs Hms).
  eexists. split; [reflexivity|].
  assert (Hpad : padEnd 3 48 ms = ms).
  { unfold padEnd. rewrite Hlen3. cbn. by rewrite app_nil_r. }
  rewrite Hpad. unfold int.
  pose proof (digit_run_digits _ _ Hs) as Hsd.
  pose proof (digit_run_digits _ _ Hms) as Hmsd.
  destruct ms as [|a [|b [|c [|]]]]; try done.
  cbn [forallb] in Hmsd. rewrite andb_true_r in Hmsd.
  apply andb_prop in Hmsd as [Ha [Hb Hc]%andb_prop].
  destruct (digits3_value a b c Ha Hb Hc) as [H3 HM].
  pose proof (digits_value_bound sec Hsd) as HV.
  assert (HV' : (digits_value sec < 10 ^ 12)%N).
  { eapply N.lt_le_trans; [exact HV|].
    apply N.pow_le_mono_r; lia. }
  fold (frac (Z.of_N (digits_value [a; b; c]))).
  destruct (toFixed_sum (Z.of_N (digits_value sec))
              (Z.of_N (digits_value [a; b; c]))) as [Hneg Hfix].
  { assert (10 ^ 12 < 2 ^ 40)%Z by done. lia. }
  { lia. }
  unfold formatTime. rewrite Hneg, Hfix. f_equal.
  replace (Z.to_N (1000 * Z.of_N (digits_value sec)
                   + Z.of_N (digits_value [a; b; c])))
    with (1000 * digits_value sec + digits_value [a; b; c])%N by lia.
  rewrite fixed_digits_thousands by done.
  by rewrite digits_of_value, H3.
Qed.

Lemma format_parse_round_trip_witness :
  exists x : number,
    parseTimeString (str "65" ++ str "." ++ str "123") = Return x
    /\ formatTime x = Return (str "65" ++ str "." ++ str "123").
Proof.
  apply format_parse_round_trip; reflexivity || (vm_compute; lia).
Defined.

(** C7 as stated fails: zeros in front of the seconds are accepted by the
    parser and are not printed, and seconds of thirteen digits do not leave
    room for the milliseconds in the number. *)
Lemma format_parse_not_inverse :
  (exists x : number,
      parseTimeString (str "01.123") = Return x
      /\ formatTime x = Return (str "1.123"))
  /\ (exists x : number,
        parseTimeString (str "9000000000000.001") = Return x
        /\ formatTime x = Return (str "9000000000000.002")).
Proof.
  split; eexists; (split; [vm_compute; reflexivity|]);
    vm_compute; reflexivity.
Qed.

(** ** The conversion: [calculatePaxTime] *)

Section Conversion.

Local Open Scope js_scope.

Variable now : list N.

(** When the three guards pass, the call returns, and the result is the
    record the last statement builds. *)
Lemma calculatePaxTime_returns (t : number) (a b : SoloClass) :
  (t <= zero) = false ->
  (paxIndex a <= zero) = false ->
  (paxIndex b <= zero) = false ->
  calculatePaxTime now t a b =
  Return {|
    inputTime := t;
    inputClass := a;
    outputTime := Number (toFixed (t * (paxIndex a / paxIndex b)) 3);
    outputClass := b;
    timeDifference := Number (toFixed (t * (paxIndex a / paxIndex b) - t) 3);
    isFaster := t * (paxIndex a / paxIndex b) - t < zero;
    calculatedAt := now
  |}.
Proof.
  intros Ht Ha Hb. unfold calculatePaxTime. rewrite Ht, Ha, Hb. reflexivity.
Qed.

End Conversion.

(** C1, as amended.  For a positive input time and classes with positive
    indices the call returns; the output time is the product
    [inputTime * (inputClass.paxIndex / outputClass.paxIndex)] rounded to
    three decimals, and the time difference is the unrounded product minus
    the input time, rounded to three decimals in its turn.  It is not the
    rounded output time minus the input time. *)
Theorem calculatePaxTime_rounds_both (now : list N) (t : number)
    (a b : SoloClass) :
  (t > zero)%js = true ->
  (paxIndex a > zero)%js = true ->
  (paxIndex b > zero)%js = true ->
  exists r : PaxCalculationResult,
    calculatePaxTime now t a b = Return r
    /\ outputTime r
       = Number (toFixed (t * (paxIndex a / paxIndex b))%js 3)
    /\ timeDifference r
       = Number (toFixed (t * (paxIndex a / paxIndex b) - t)%js 3).
Proof.
  intros Ht Ha Hb. eexists. split.
  - apply calculatePaxTime_returns; by apply gt_zero_not_le.
  - split; reflexivity.
Qed.

Lemma calculatePaxTime_rounds_both_witness :
  exists r : PaxCalculationResult,
    calculatePaxTime [] (of_Z 60)
      (mkClass "SS" (dec 844 3))
      (mkClass "AS" (dec 83 2)) = Return r
    /\ outputTime r
       = Number (toFixed (of_Z 60 * (dec 844 3
                                     / dec 83 2))%js 3)
    /\ timeDifference r
       = Number (toFixed (of_Z 60 * (dec 844 3
                                     / dec 83 2)
                          - of_Z 60)%js 3).
Proof.
  apply (calculatePaxTime_rounds_both []); reflexivity.
Defined.

(** C1 as stated fails: converting 0.4996 s from index 1 to index 0.5 gives
    the output time 0.999 and the time difference 0.5, while the rounded
    output time minus the input time is 0.4994; the two are more than
    0.0005 apart. *)
Lemma timeDifference_not_from_rounded_output :
  exists r : PaxCalculationResult,
    calculatePaxTime [] (dec 4996 4)
      (mkClass "A" (of_Z 1)) (mkClass "B" (dec 5 1))
    = Return r
    /\ outputTime r = dec 999 3
    /\ timeDifference r = dec 5 1
    /\ (outputTime r - dec 4996 4)%js
       = dec 4994 4
    /\ (abs (timeDifference r
              - (outputTime r - dec 4996 4))
        > dec 5 4)%js = true.
Proof.
  eexists. split; [vm_compute; reflexivity|].
  repeat split; vm_compute; reflexivity.
Qed.

(** C3, as amended.  Converting a finite positive time within one class of
    finite positive index returns the time rounded to three decimals, a
    zero difference, and [isFaster] unset. *)
Theorem same_class_conversion (now : list N) (t : number) (X : SoloClass) :
  (t > zero)%js = true -> finite t = true -> is_double t = true ->
  (paxIndex X > zero)%js = true -> finite (paxIndex X) = true ->
  calculatePaxTime now t X X =
  Return {|
    inputTime := t;
    inputClass := X;
    outputTime := Number (toFixed t 3);
    outputClass := X;
    timeDifference := zero;
    isFaster := false;
    calculatedAt := now
  |}.
Proof.
  intros Ht Hf Hd Hp Hpf.
  rewrite calculatePaxTime_returns by by apply gt_zero_not_le.
  destruct (gt_zero_finite _ Ht Hf) as (m & e & ->).
  destruct (gt_zero_finite _ Hp Hpf) as (mp & ep & ->).
  rewrite div_self, mul_one, sub_self by assumption.
  reflexivity.
Qed.

Lemma same_class_conversion_witness :
  calculatePaxTime [] (dec 60123 3)
    (mkClass "SS" (dec 844 3))
    (mkClass "SS" (dec 844 3)) =
  Return {|
    inputTime := dec 60123 3;
    inputClass := mkClass "SS" (dec 844 3);
    outputTime := Number (toFixed (dec 60123 3) 3);
    outputClass := mkClass "SS" (dec 844 3);
    timeDifference := zero;
    isFaster := false;
    calculatedAt := []
  |}.
Proof.
  apply (same_class_conversion []); reflexivity.
Defined.

(** C3 as stated fails: a time with more than three decimals does not come
    back exactly; 0.0004 s converted within one class gives the output
    time 0. *)
Lemma same_class_output_is_rounded :
  exists r : PaxCalculationResult,
    calculatePaxTime [] (dec 4 4)
      (mkClass "SS" (dec 844 3))
      (mkClass "SS" (dec 844 3)) = Return r
    /\ outputTime r = zero
    /\ outputTime r <> dec 4 4.
Proof.
  eexists. split; [vm_compute; reflexivity|].
  split; [vm_compute; reflexivity|]. vm_compute. discriminate.
Qed.

(** C4.  The call throws the input-time error exactly when
    [inputTime <= 0], whatever the classes are; for a positive input time it
    throws the one PAX-index error exactly when the index of either class
    is [<= 0]; the two messages differ; and these are the only failures. *)
Theorem calculatePaxTime_preconditions (now : list N) (t : number)
    (a b : SoloClass) :
  (calculatePaxTime now t a b
   = Throw (str "Input time must be greater than 0")
   <-> (t <= zero)%js = true)
  /\ ((t > zero)%js = true ->
      (calculatePaxTime now t a b
       = Throw (str "PAX indices must be greater than 0")
       <-> (paxIndex a <= zero)%js = true
           \/ (paxIndex b <= zero)%js = true))
  /\ str "Input time must be greater than 0"
     <> str "PAX indices must be greater than 0"
  /\ ((exists msg, calculatePaxTime now t a b = Throw msg)
      <-> (t <= zero)%js = true
          \/ (paxIndex a <= zero)%js = true
          \/ (paxIndex b <= zero)%js = true).
Proof.
  assert (Hne : str "Input time must be greater than 0"
                <> str "PAX indices must be greater than 0")
    by (vm_compute; discriminate).
  unfold calculatePaxTime.
  split; [|split; [|split]].
  - destruct (t <= zero)%js; [tauto|].
    destruct ((paxIndex a <= zero)%js || (paxIndex b <= zero)%js);
      split; intros H; discriminate.
  - intros Ht. rewrite (gt_zero_not_le _ Ht).
    destruct (paxIndex a <= zero)%js, (paxIndex b <= zero)%js; cbn [orb];
      split; intros H; try discriminate; try tauto.
    destruct H; discriminate.
  - exact Hne.
  - destruct (t <= zero)%js; [split; eauto|].
    destruct (paxIndex a <= zero)%js, (paxIndex b <= zero)%js; cbn [orb];
      split; intros H; eauto.
    + destruct H as [msg H]. discriminate.
    + destruct H as [H|[H|H]]; discriminate.
Qed.

Lemma calculatePaxTime_preconditions_witness :
  calculatePaxTime [] (of_Z 60)
    (mkClass "SS" (dec 844 3)) (mkClass "BAD" zero)
  = Throw (str "PAX indices must be greater than 0").
Proof.
  apply (proj1 (proj2 (calculatePaxTime_preconditions [] (of_Z 60)
                         (mkClass "SS" (dec 844 3))
                         (mkClass "BAD" zero)))).
  - reflexivity.
  - right. reflexivity.
Defined.

(** ** The validator: [validatePaxIndex] *)

Section ValidatorFacts.

Local Open Scope js_scope.

Lemma count_app {A : Type} (P : A -> bool) (l1 l2 : list A) :
  count P (l1 ++ l2) = (count P l1 + count P l2)%nat.
Proof. unfold count. by rewrite List.filter_app, length_app. Qed.

(** One turn of the inner loop. *)
Lemma validateClass_eq (st : validation) (c : SoloClass) :
  validateClass st c =
  {| v_errors := v_errors st ++ class_errors (v_seenCodes st) c;
     v_warnings := v_warnings st ++ class_warnings c;
     v_classCount := S (v_classCount st);
     v_seenCodes := {[ code c ]} ∪ v_seenCodes st |}.
Proof.
  unfold validateClass, class_errors, class_warnings, missing_code_or_name,
    outside_typical_range, non_positive, push_error, push_warning.
  destruct st as [es ws n seen]. cbn [v_errors v_warnings v_classCount v_seenCodes].
  destruct (bool_decide (code c ∈ seen));
    destruct (empty (code c) || empty (name c));
    destruct ((paxIndex c < n0_7) || (n1_0 < paxIndex c));
    destruct (paxIndex c <= zero);
    cbn [v_errors v_warnings v_classCount v_seenCodes];
    by rewrite <- ?app_assoc, ?app_nil_r.
Qed.

(** The inner loop over the classes of a group. *)
Lemma validateClasses_eq (cs : list SoloClass) (st : validation) :
  fold_left validateClass cs st =
  {| v_errors := v_errors st ++ classes_errors (v_seenCodes st) cs;
     v_warnings := v_warnings st ++ flat_map class_warnings cs;
     v_classCount := (v_classCount st + length cs)%nat;
     v_seenCodes := list_to_set (map code cs) ∪ v_seenCodes st |}.
Proof.
  revert st. induction cs as [|c cs IH]; intros st.
  - destruct st. cbn. rewrite !app_nil_r, Nat.add_0_r. f_equal. set_solver.
  - cbn [fold_left]. rewrite IH, validateClass_eq.
    cbn [v_errors v_warnings v_classCount v_seenCodes classes_errors flat_map
         map length].
    rewrite <- !app_assoc. f_equal; [lia|].
    rewrite list_to_set_cons. set_solver.
Qed.

Lemma classes_errors_app (seen : gset (list N)) (cs1 cs2 : list SoloClass) :
  classes_errors seen (cs1 ++ cs2)
  = classes_errors seen cs1
    ++ classes_errors (list_to_set (map code cs1) ∪ seen) cs2.
Proof.
  revert seen. induction cs1 as [|c cs1 IH]; intros seen.
  - cbn. f_equal. set_solver.
  - cbn [app classes_errors map]. rewrite IH, <- app_assoc. do 3 f_equal.
    rewrite list_to_set_cons. set_solver.
Qed.

Lemma class_errors_class_level (seen : gset (list N)) (c : SoloClass) :
  List.filter class_level (class_errors seen c) = class_errors seen c.
Proof.
  unfold class_errors.
  by destruct (bool_decide _), (missing_code_or_name c), (non_positive c).
Qed.

Lemma classes_errors_class_level (seen : gset (list N))
    (cs : list SoloClass) :
  List.filter class_level (classes_errors seen cs) = classes_errors seen cs.
Proof.
  revert seen. induction cs as [|c cs IH]; intros seen; [done|].
  cbn [classes_errors]. by rewrite List.filter_app, class_errors_class_level, IH.
Qed.

Lemma validateGroup_eq (st : validation) (g : SoloClassGroup) :
  validateGroup st g =
  if has_id_and_name g then fold_left validateClass (classes g) st
  else push_error st (ClassGroupMissingIdOrName g).
Proof.
  unfold validateGroup, has_id_and_name.
  by destruct (empty (group_id g) || empty (group_name g)).
Qed.

Lemma visited_cons (g : SoloClassGroup) (gs : list SoloClassGroup) :
  visited (g :: gs) =
  if has_id_and_name g then classes g ++ visited gs else visited gs.
Proof. unfold visited. cbn. by destruct (has_id_and_name g). Qed.

(** The outer loop: what it leaves in the state, the messages of the inner
    loop apart from the group messages. *)
Lemma validateGroups_eq (gs : list SoloClassGroup) (st : validation) :
  let st' := fold_left validateGroup gs st in
  List.filter class_level (v_errors st')
  = List.filter class_level (v_errors st)
    ++ classes_errors (v_seenCodes st) (visited gs)
  /\ v_warnings st' = v_warnings st ++ flat_map class_warnings (visited gs)
  /\ v_classCount st' = (v_classCount st + length (visited gs))%nat
  /\ v_seenCodes st' = list_to_set (map code (visited gs)) ∪ v_seenCodes st
  /\ (forall g, In g gs -> has_id_and_name g = false ->
             In (ClassGroupMissingIdOrName g) (v_errors st'))
  /\ (forall e, In e (v_errors st) -> In e (v_errors st')).
Proof.
  revert st. induction gs as [|g gs IH]; intros st.
  - cbn. rewrite !app_nil_r, Nat.add_0_r.
    split; [done|]. split; [done|]. split; [done|].
    split; [set_solver|]. split; [done|done].
  - cbn [fold_left]. rewrite validateGroup_eq, visited_cons.
    destruct (has_id_and_name g) eqn:Hg.
    + destruct (IH (fold_left validateClass (classes g) st))
        as (H1 & H2 & H3 & H4 & H5 & H6).
      rewrite validateClasses_eq in *.
      cbn [v_errors v_warnings v_classCount v_seenCodes flat_map] in *.
      rewrite List.filter_app, classes_errors_class_level in H1.
      rewrite classes_errors_app, flat_map_app, length_app, map_app,
        list_to_set_app_L.
      split; [by rewrite H1, <- app_assoc|].
      split; [by rewrite H2, <- app_assoc|].
      split; [lia|].
      split; [rewrite H4; set_solver|].
      split.
      * intros g' [<-|Hin] Hg'; [congruence|by apply H5].
      * intros e He. apply H6. rewrite in_app_iff. by left.
    + destruct (IH (push_error st (ClassGroupMissingIdOrName g)))
        as (H1 & H2 & H3 & H4 & H5 & H6).
      cbn [push_error v_errors v_warnings v_classCount v_seenCodes] in *.
      rewrite List.filter_app in H1. cbn in H1. rewrite app_nil_r in H1.
      split; [done|]. split; [done|]. split; [done|]. split; [done|].
      split.
      * intros g' [<-|Hin] Hg'.
        -- apply H6. rewrite in_app_iff. right. by left.
        -- by apply H5.
      * intros e He. apply H6. rewrite in_app_iff. by left.
Qed.

(** The whole function, from the state the loops leave. *)
Lemma validatePaxIndex_eq (idx : PaxIndex) :
  let st :=
    fold_left validateGroup (classGroups idx)
      {| v_errors := header_errors idx; v_warnings := [];
         v_classCount := 0; v_seenCodes := ∅ |} in
  let errs :=
    v_errors st
    ++ (if (size (classesByCode idx) =? v_classCount st)%nat then []
        else [ClassLookupCountMismatch (size (classesByCode idx))
                (v_classCount st)]) in
  validatePaxIndex idx =
  {| isValid := (length errs =? 0)%nat;
     errors := errs;
     warnings := v_warnings st;
     classCount := v_classCount st;
     groupCount := length (classGroups idx) |}.
Proof.
  unfold validatePaxIndex, header_errors.
  destruct (negb (truthy (year idx)) || (year idx < n2000)
            || (n2100 < year idx));
    destruct (empty (indexType idx)
              || negb (bool_decide
                         (indexType idx ∈ [str "Solo"; str "ProSolo"])));
    destruct (length (classGroups idx) =? 0)%nat;
    cbn [app];
    match goal with
    | |- context [fold_left validateGroup ?gs ?st0] =>
        set (st := fold_left validateGroup gs st0)
    end;
    destruct (size (classesByCode idx) =? v_classCount st)%nat;
    cbn [negb]; by rewrite ?app_nil_r.
Qed.

Lemma header_errors_not_class_level (idx : PaxIndex) :
  List.filter class_level (header_errors idx) = [].
Proof.
  unfold header_errors.
  by destruct (_ || _ || _), (_ || _), (_ =? _)%nat.
Qed.

(** What the result holds, in terms of the visited classes. *)
Lemma validatePaxIndex_visited (idx : PaxIndex) :
  let r := validatePaxIndex idx in
  let cs := visited (classGroups idx) in
  List.filter class_level (errors r) = classes_errors ∅ cs
  /\ warnings r = flat_map class_warnings cs
  /\ classCount r = length cs
  /\ List.filter is_mismatch_error (errors r)
     = (if (size (classesByCode idx) =? length cs)%nat then []
        else [ClassLookupCountMismatch (size (classesByCode idx))
                (length cs)])
  /\ (forall g, In g (classGroups idx) -> has_id_and_name g = false ->
             In (ClassGroupMissingIdOrName g) (errors r))
  /\ (isValid r = true <-> errors r = []).
Proof.
  cbv zeta. rewrite validatePaxIndex_eq.
  cbn [errors warnings classCount isValid].
  match goal with
  | |- context [fold_left validateGroup ?gs ?st0] =>
      destruct (validateGroups_eq gs st0) as (H1 & H2 & H3 & H4 & H5 & H6);
      set (st := fold_left validateGroup gs st0) in *
  end.
  cbn [v_errors v_warnings v_classCount v_seenCodes] in *.
  rewrite header_errors_not_class_level in H1. cbn [app] in H1, H2.
  rewrite H3. cbn [Nat.add].
  split.
  { rewrite List.filter_app, H1.
    destruct (_ =? _)%nat; cbn; by rewrite app_nil_r. }
  split; [done|]. split; [done|].
  split.
  { rewrite List.filter_app.
    assert (Hno : List.filter is_mismatch_error (v_errors st) = []).
    { assert (Hh : List.filter is_mismatch_error (header_errors idx) = []).
      { unfold header_errors.
        by destruct (_ || _ || _), (_ || _), (_ =? _)%nat. }
      clear -Hh. subst st.
      generalize dependent (header_errors idx). intros es Hes.
      assert (forall gs st,
                 List.filter is_mismatch_error (v_errors st) = [] ->
                 List.filter is_mismatch_error
                   (v_errors (fold_left validateGroup gs st)) = []) as Hgen.
      { induction gs as [|g gs IH]; intros st Hst; [done|].
        cbn [fold_left]. apply IH. rewrite validateGroup_eq.
        destruct (has_id_and_name g).
        - rewrite validateClasses_eq. cbn [v_errors].
          rewrite List.filter_app, Hst. cbn [app].
          generalize (v_seenCodes st).
          induction (classes g) as [|c cs IHc]; intros seen; [done|].
          cbn [classes_errors]. rewrite List.filter_app, IHc, app_nil_r.
          unfold class_errors.
          by destruct (bool_decide _), (missing_code_or_name c),
            (non_positive c).
        - cbn [push_error v_errors]. rewrite List.filter_app, Hst. done. }
      by apply Hgen. }
    rewrite Hno. by destruct (_ =? _)%nat. }
  split.
  { intros g Hg Hwf. rewrite in_app_iff. left. by apply H5. }
  rewrite Nat.eqb_eq. split.
  - intros H. by apply length_zero_iff_nil.
  - intros ->. done.
Qed.

(** Counting the messages of the inner loop. *)
Lemma count_filter_implies {A : Type} (P Q : A -> bool) (l : list A) :
  (forall x, P x = true -> Q x = true) ->
  count P (List.filter Q l) = count P l.
Proof.
  intros HPQ. unfold count. induction l as [|x l IH]; [done|].
  cbn. destruct (Q x) eqn:HQ; cbn; destruct (P x) eqn:HP; cbn;
    rewrite ?IH; try done.
  apply HPQ in HP. congruence.
Qed.

Lemma occurrences_cons (k x : list N) (l : list (list N)) :
  occurrences k (x :: l)
  = ((if bool_decide (x = k) then 1 else 0) + occurrences k l)%nat.
Proof.
  unfold occurrences, count. cbn [List.filter].
  by destruct (bool_decide (x = k)).
Qed.

Lemma count_duplicate_errors (k : list N) (seen : gset (list N))
    (cs : list SoloClass) :
  count (is_duplicate_error k) (classes_errors seen cs)
  = if bool_decide (k ∈ seen) then occurrences k (map code cs)
    else Nat.pred (occurrences k (map code cs)).
Proof.
  revert seen. induction cs as [|c cs IH]; intros seen.
  - cbn. by destruct (bool_decide _).
  - cbn [classes_errors map]. rewrite count_app, IH, occurrences_cons.
    assert (Hother :
      forall pre,
        count (is_duplicate_error k)
          (pre ++ (if missing_code_or_name c
                   then [ClassMissingCodeOrName c] else [])
               ++ (if non_positive c
                   then [InvalidPaxIndex (code c) (paxIndex c)] else []))
        = count (is_duplicate_error k) pre).
    { intros pre. rewrite !count_app.
      by destruct (missing_code_or_name c), (non_positive c); cbn; lia. }
    unfold class_errors. rewrite Hother.
    destruct (decide (code c = k)) as [Heq|Hne].
    + rewrite (bool_decide_eq_true_2 (code c = k)) by done.
      rewrite (bool_decide_eq_true_2 (k ∈ {[code c]} ∪ seen)) by set_solver.
      subst k. destruct (bool_decide (code c ∈ seen)); cbn.
      * by rewrite bool_decide_eq_true_2.
      * done.
    + rewrite (bool_decide_eq_false_2 (code c = k)) by done.
      assert (Hseen : bool_decide (k ∈ {[code c]} ∪ seen)
                      = bool_decide (k ∈ seen)).
      { apply bool_decide_ext. set_solver. }
      rewrite Hseen.
      destruct (bool_decide (code c ∈ seen)); cbn.
      * by rewrite bool_decide_eq_false_2.
      * done.
Qed.

Lemma count_missing_errors (seen : gset (list N)) (cs : list SoloClass) :
  count is_missing_error (classes_errors seen cs)
  = count missing_code_or_name cs.
Proof.
  revert seen. induction cs as [|c cs IH]; intros seen; [done|].
  cbn [classes_errors]. rewrite count_app, IH.
  unfold count at 3. cbn [List.filter]. unfold class_errors.
  by destruct (bool_decide _), (missing_code_or_name c), (non_positive c).
Qed.

Lemma count_invalid_pax_errors (seen : gset (list N)) (cs : list SoloClass) :
  count is_invalid_pax_error (classes_errors seen cs)
  = count non_positive cs.
Proof.
  revert seen. induction cs as [|c cs IH]; intros seen; [done|].
  cbn [classes_errors]. rewrite count_app, IH.
  unfold count at 3. cbn [List.filter]. unfold class_errors.
  by destruct (bool_decide _), (missing_code_or_name c), (non_positive c).
Qed.

Lemma length_class_warnings (cs : list SoloClass) :
  length (flat_map class_warnings cs) = count outside_typical_range cs.
Proof.
  induction cs as [|c cs IH]; [done|].
  cbn [flat_map]. rewrite length_app, IH. unfold count. cbn [List.filter].
  unfold class_warnings. by destruct (outside_typical_range c).
Qed.

End ValidatorFacts.

Section ValidatorMembership.

Local Open Scope js_scope.

Lemma le_zero_lt_0_7 (x : number) :
  (x <= zero) = true -> (x < n0_7) = true.
Proof.
  assert (n0_7 = S754_finite false 6305039478318694 (-53)) as ->
    by (vm_compute; reflexivity).
  by destruct x as [[]|[]| |[] m e].
Qed.

Lemma non_positive_outside (c : SoloClass) :
  non_positive c = true -> outside_typical_range c = true.
Proof.
  unfold non_positive, outside_typical_range. intros H.
  by rewrite (le_zero_lt_0_7 _ H).
Qed.

Lemma In_class_warnings (c : SoloClass) (cs : list SoloClass) :
  In c cs -> outside_typical_range c = true ->
  In (PaxIndexOutsideTypicalRange (code c) (paxIndex c))
    (flat_map class_warnings cs).
Proof.
  intros Hc Ho. apply in_flat_map. exists c. split; [done|].
  unfold class_warnings. rewrite Ho. by left.
Qed.

Lemma In_classes_errors (seen : gset (list N)) (c : SoloClass)
    (cs : list SoloClass) :
  In c cs -> non_positive c = true ->
  In (InvalidPaxIndex (code c) (paxIndex c)) (classes_errors seen cs).
Proof.
  revert seen. induction cs as [|c' cs IH]; intros seen; [done|].
  intros [->|Hin] Hn; cbn [classes_errors]; rewrite in_app_iff.
  - left. unfold class_errors. rewrite Hn, !in_app_iff. right. right. by left.
  - right. by apply IH.
Qed.

Lemma all_or_some_group (gs : list SoloClassGroup) :
  (forall g, In g gs -> has_id_and_name g = true)
  \/ (exists g, In g gs /\ has_id_and_name g = false).
Proof.
  induction gs as [|g gs [IH|(g' & Hin & Hg')]].
  - left. by intros g [].
  - destruct (has_id_and_name g) eqn:Hg.
    + left. by intros g' [<-|Hin]; [|apply IH].
    + right. exists g. split; [by left|done].
  - right. exists g'. split; [by right|done].
Qed.

Lemma visited_all (gs : list SoloClassGroup) :
  (forall g, In g gs -> has_id_and_name g = true) ->
  visited gs = all_classes gs.
Proof.
  induction gs as [|g gs IH]; intros H; [done|].
  rewrite visited_cons, (H g) by by left.
  unfold all_classes. cbn [flat_map]. f_equal.
  apply IH. intros g' Hg'. apply H. by right.
Qed.

End ValidatorMembership.

(** C8, as amended.  Among the classes the validator visits, which are the
    classes of the groups that have an id and a name, every occurrence of a
    code after its first adds one duplicate error, across groups; the other
    checks of the loop run on every visited class, a duplicate or not; and
    a dataset in which a code occurs twice, anywhere, is invalid. *)
Theorem validatePaxIndex_duplicates (idx : PaxIndex) :
  let r := validatePaxIndex idx in
  let cs := visited (classGroups idx) in
  (forall k : list N,
      count (is_duplicate_error k) (errors r)
      = Nat.pred (occurrences k (map code cs)))
  /\ ((forall g, In g (classGroups idx) -> has_id_and_name g = true) ->
      cs = all_classes (classGroups idx))
  /\ ((exists k : list N,
         (2 <= occurrences k (map code (all_classes (classGroups idx))))%nat)
      -> isValid r = false)
  /\ count is_missing_error (errors r) = count missing_code_or_name cs
  /\ count is_invalid_pax_error (errors r) = count non_positive cs
  /\ length (warnings r) = count outside_typical_range cs
  /\ classCount r = length cs.
Proof.
  cbv zeta.
  destruct (validatePaxIndex_visited idx) as (H1 & H2 & H3 & H4 & H5 & H6).
  cbv zeta in *.
  assert (Hdup : forall k,
             count (is_duplicate_error k) (errors (validatePaxIndex idx))
             = Nat.pred (occurrences k
                           (map code (visited (classGroups idx))))).
  { intros k.
    rewrite <- (count_filter_implies _ class_level)
      by (by intros []).
    rewrite H1, count_duplicate_errors.
    by rewrite bool_decide_eq_false_2 by set_solver. }
  split; [exact Hdup|].
  split; [apply visited_all|].
  split.
  { intros (k & Hk).
    destruct (isValid (validatePaxIndex idx)); [|done].
    pose proof (proj1 H6 eq_refl) as Hv.
    destruct (all_or_some_group (classGroups idx)) as [Hall|(g & Hg & Hwf)].
    - specialize (Hdup k). rewrite (visited_all _ Hall), Hv in Hdup.
      cbn in Hdup. lia.
    - specialize (H5 g Hg Hwf). rewrite Hv in H5. done. }
  split.
  { rewrite <- (count_filter_implies _ class_level) by (by intros []).
    by rewrite H1, count_missing_errors. }
  split.
  { rewrite <- (count_filter_implies _ class_level) by (by intros []).
    by rewrite H1, count_invalid_pax_errors. }
  split; [by rewrite H2, length_class_warnings|done].
Qed.

Lemma validatePaxIndex_duplicates_witness :
  isValid (validatePaxIndex duplicated_index) = false.
Proof.
  apply (proj1 (proj2 (proj2 (validatePaxIndex_duplicates duplicated_index)))).
  exists (str "SS"). vm_compute. lia.
Defined.

(** C8 as stated fails: a code that occurs in a well-formed group and again
    in a group with no id occurs twice in the dataset, and no duplicate
    error is reported; the only error is the one for the group. *)
Lemma duplicate_in_skipped_group_not_reported :
  occurrences (str "SS")
    (map code (all_classes (classGroups half_skipped_index))) = 2%nat
  /\ count (is_duplicate_error (str "SS"))
       (errors (validatePaxIndex half_skipped_index)) = 0%nat
  /\ errors (validatePaxIndex half_skipped_index)
     = [ClassGroupMissingIdOrName
          (mkGroup "" "Touring" [mkClass "SS" n0_844])].
Proof. repeat split; vm_compute; reflexivity. Qed.

(** C9.  For every class the validator visits: an index below 0.7 or above
    1.0 adds a warning; an index [<= 0] adds the invalid-index error, and
    the warning as well.  The result is valid exactly when it has no
    errors, whatever its warnings: the dataset whose one class has the
    index 1.1 is valid and has the one warning. *)
Theorem validatePaxIndex_pax_checks (idx : PaxIndex) :
  let r := validatePaxIndex idx in
  (forall c : SoloClass,
      In c (visited (classGroups idx)) ->
      (outside_typical_range c = true ->
       In (PaxIndexOutsideTypicalRange (code c) (paxIndex c)) (warnings r))
      /\ (non_positive c = true ->
          In (InvalidPaxIndex (code c) (paxIndex c)) (errors r)
          /\ In (PaxIndexOutsideTypicalRange (code c) (paxIndex c))
               (warnings r)))
  /\ (isValid r = true <-> errors r = [])
  /\ length (warnings r)
     = count outside_typical_range (visited (classGroups idx))
  /\ count is_invalid_pax_error (errors r)
     = count non_positive (visited (classGroups idx))
  /\ validatePaxIndex high_index
     = {| isValid := true;
          errors := [];
          warnings := [PaxIndexOutsideTypicalRange (str "SS") n1_1];
          classCount := 1;
          groupCount := 1 |}.
Proof.
  cbv zeta.
  destruct (validatePaxIndex_visited idx) as (H1 & H2 & H3 & H4 & H5 & H6).
  cbv zeta in *.
  assert (Hwarn : forall c,
             In c (visited (classGroups idx)) ->
             outside_typical_range c = true ->
             In (PaxIndexOutsideTypicalRange (code c) (paxIndex c))
               (warnings (validatePaxIndex idx))).
  { intros c Hc Ho. rewrite H2. by apply In_class_warnings. }
  split.
  { intros c Hc. split; [by apply Hwarn|]. intros Hn. split.
    - apply (proj1 (filter_In class_level _ _)). rewrite H1.
      by apply In_classes_errors.
    - by apply Hwarn, non_positive_outside. }
  split; [done|].
  split; [by rewrite H2, length_class_warnings|].
  split.
  { rewrite <- (count_filter_implies _ class_level) by (by intros []).
    by rewrite H1, count_invalid_pax_errors. }
  vm_compute. reflexivity.
Qed.

Lemma validatePaxIndex_pax_checks_witness :
  In (InvalidPaxIndex (str "NEG") (of_decimal true 5 (-1)))
    (errors (validatePaxIndex
               (mkIndex [mkGroup "g" "G"
                           [mkClass "NEG" (of_decimal true 5 (-1))]] ∅)))
  /\ In (PaxIndexOutsideTypicalRange (str "NEG") (of_decimal true 5 (-1)))
       (warnings (validatePaxIndex
                    (mkIndex [mkGroup "g" "G"
                                [mkClass "NEG" (of_decimal true 5 (-1))]] ∅))).
Proof.
  apply (proj1 (validatePaxIndex_pax_checks
                  (mkIndex [mkGroup "g" "G"
                              [mkClass "NEG" (of_decimal true 5 (-1))]] ∅))
           (mkClass "NEG" (of_decimal true 5 (-1)))).
  - vm_compute. left. reflexivity.
  - reflexivity.
Defined.

(** A class in a group with no id is not visited: its index -0.5 adds
    neither the warning nor the error. *)
Lemma skipped_class_not_checked :
  In (mkClass "NEG" (of_decimal true 5 (-1)))
    (all_classes (classGroups skipped_negative_index))
  /\ warnings (validatePaxIndex skipped_negative_index) = []
  /\ count is_invalid_pax_error
       (errors (validatePaxIndex skipped_negative_index)) = 0%nat.
Proof.
  split; [vm_compute; right; left; reflexivity|].
  split; vm_compute; reflexivity.
Qed.

(** C10.  The last check of the validator compares the number of entries of
    the lookup table with the number of visited classes, and nothing else:
    a table of the same size gives the same result, the mismatch error is
    there exactly when the two numbers differ, and a dataset whose table
    has the one entry under a key that is no class code is valid. *)
Theorem validatePaxIndex_counts_only :
  (forall (idx : PaxIndex) (table : gmap (list N) SoloClass),
      size table = size (classesByCode idx) ->
      validatePaxIndex (with_classesByCode idx table) = validatePaxIndex idx)
  /\ (forall idx : PaxIndex,
        count is_mismatch_error (errors (validatePaxIndex idx))
        = if (size (classesByCode idx)
              =? length (visited (classGroups idx)))%nat
          then 0%nat else 1%nat)
  /\ size (classesByCode wrong_key_index)
     = length (visited (classGroups wrong_key_index))
  /\ (forall c, In c (all_classes (classGroups wrong_key_index)) ->
            classesByCode wrong_key_index !! code c = None)
  /\ count is_mismatch_error (errors (validatePaxIndex wrong_key_index))
     = 0%nat
  /\ isValid (validatePaxIndex wrong_key_index) = true.
Proof.
  split.
  { intros idx table Hsize. unfold validatePaxIndex, with_classesByCode.
    cbn [year indexType classGroups classesByCode]. by rewrite Hsize. }
  split.
  { intros idx.
    destruct (validatePaxIndex_visited idx) as (_ & _ & _ & H4 & _).
    cbv zeta in H4. unfold count. rewrite H4. by destruct (_ =? _)%nat. }
  split; [vm_compute; reflexivity|].
  split.
  { intros c [<-|[]]. vm_compute. reflexivity. }
  split; vm_compute; reflexivity.
Qed.

Lemma validatePaxIndex_counts_only_witness :
  validatePaxIndex
    (with_classesByCode wrong_key_index {[ str "SS" := mkClass "SS" n0_844 ]})
  = validatePaxIndex wrong_key_index.
Proof.
  apply (proj1 validatePaxIndex_counts_only). vm_compute. reflexivity.
Defined.

(** * Properties of the rest of the library *)

(** ** Signed differences: [formatTimeDifference] *)

Section DifferenceFacts.

Local Open Scope js_scope.

Lemma toFixed_unsigned_head (m : positive) (e : Z) :
  exists c r,
    (if at_least_1e21 m e then toString_large m e
     else fixed_digits (Z.to_N (scaled_round m e 3)) 3) = c :: r
    /\ is_digit c = true.
Proof.
  destruct (at_least_1e21 m e);
    [apply toString_large_head|apply fixed_digits_head].
Qed.

Lemma digit_not_sign (c : N) : is_digit c = true -> c <> 43%N /\ c <> 45%N.
Proof. intros Hc. split; intros ->; done. Qed.

Lemma formatTimeDifference_plus (d : number) :
  (d > zero) = true <-> exists r, formatTimeDifference d = 43%N :: r.
Proof.
  unfold formatTimeDifference.
  destruct d as [s|[]| |[] m e]; cbn [ltb SFltb SFcompare zero toFixed app];
    try (split; [done|intros [r [=]]]);
    try (split; [eauto|done]).
Qed.

Lemma formatTimeDifference_minus (d : number) :
  (d < zero) = true <-> exists r, formatTimeDifference d = 45%N :: r.
Proof.
  unfold formatTimeDifference.
  destruct d as [s|[]| |[] m e]; cbn [ltb SFltb SFcompare zero toFixed app];
    try (split; [done|intros [r [=]]]);
    try (split; [eauto|done]).
Qed.

(** A string that starts with something else than a digit or white space is
    no time. *)
Lemma parseTimeString_no_digit_ahead (c : N) (s : list N) :
  is_white_space c = false -> is_digit c = false ->
  parseTimeString (c :: s) = Throw (str "Invalid time format: " ++ c :: s).
Proof.
  intros Hw Hd. unfold parseTimeString.
  destruct (trim_head c s Hw) as [s' ->].
  cbn [empty orb].
  assert (Hex : forall p, exec (Digits 1 None :: p) (c :: s') = None).
  { intros p. cbn [exec span_digits]. rewrite Hd. reflexivity. }
  unfold minutesRe, hoursRe, decimalRe, wholeRe. by rewrite !Hex.
Qed.

Lemma binary_round_aux_not_positive (m e : Z) (l : location) :
  (binary_round_aux prec emax true m e l > zero) = false.
Proof.
  unfold binary_round_aux.
  destruct (shr_fexp prec emax m e l) as [mrs e'].
  destruct (shr_fexp prec emax _ e' loc_Exact) as [mrs' e''].
  destruct (shr_m mrs') as [|m'|m']; [done| |done].
  by destruct (e'' <=? emax - prec)%Z.
Qed.

Lemma neg_not_positive (x : number) :
  (x < zero) = false -> (neg x > zero) = false.
Proof. by destruct x as [[]|[]| |[] m e]. Qed.

Lemma of_decimal_not_positive (d : N) (ex : Z) :
  (of_decimal true d ex > zero) = false.
Proof.
  unfold of_decimal. destruct (0 <=? ex)%Z.
  - apply neg_not_positive, of_Z_not_negative.
    assert (0 <= 10 ^ ex)%Z by (apply Z.pow_nonneg; lia). lia.
  - unfold of_ratio. destruct d as [|p]; [done|].
    unfold SFdiv. destruct (SFdiv_core_binary _ _ _ _ _ _) as [[mz ez] lz].
    apply binary_round_aux_not_positive.
Qed.

(** A string that starts with a minus sign is not the literal of a
    positive number. *)
Lemma Number_not_positive (s : list N) :
  (Number (45%N :: s) > zero) = false.
Proof.
  unfold Number. destruct (trim_head 45 s eq_refl) as [t ->].
  cbn [nondecimal_literal split_sign N.eqb Pos.eqb].
  destruct (bool_decide (t = str "Infinity")); [done|].
  destruct (decimal_literal t) as [[d ex]|]; [|done].
  apply of_decimal_not_positive.
Qed.

(** Rounding to three decimals gives a positive number only from a number
    that is not negative. *)
Lemma rounded_positive (x : number) :
  (Number (toFixed x 3) > zero) = true -> (x < zero) = false.
Proof.
  destruct x as [s|[]| |[] m e]; try done.
  change (toFixed (S754_finite true m e) 3)
      with (45%N :: (if at_least_1e21 m e then toString_large m e
                     else fixed_digits (Z.to_N (scaled_round m e 3)) 3)).
  by rewrite Number_not_positive.
Qed.

End DifferenceFacts.

(** X1.  The first character of [formatTimeDifference(d)] is a plus sign
    exactly when [d > 0] and a minus sign exactly when [d < 0]; for the
    zeros and [NaN] there is no sign. *)
Theorem formatTimeDifference_sign (d : number) :
  ((d > zero)%js = true <-> exists r, formatTimeDifference d = str "+" ++ r)
  /\ ((d < zero)%js = true
      <-> exists r, formatTimeDifference d = str "-" ++ r).
Proof.
  split; [apply formatTimeDifference_plus|apply formatTimeDifference_minus].
Qed.

(** X2.  A positive difference and its negative show the same digits, the
    ones [formatTime] gives for the positive one, behind their signs. *)
Theorem formatTimeDifference_magnitude (d : number) :
  (d > zero)%js = true ->
  exists digits : list N,
    formatTime d = Return digits
    /\ formatTimeDifference d = str "+" ++ digits
    /\ formatTimeDifference (neg d) = str "-" ++ digits.
Proof.
  intros Hd. exists (toFixed d 3).
  destruct d as [s|[]| |[] m e]; try done.
Qed.

Lemma formatTimeDifference_magnitude_witness :
  exists digits : list N,
    formatTime (dec 123456789 8) = Return digits
    /\ formatTimeDifference (dec 123456789 8) = str "+" ++ digits
    /\ formatTimeDifference (neg (dec 123456789 8)) = str "-" ++ digits.
Proof. apply formatTimeDifference_magnitude. reflexivity. Defined.

(** X3.  A formatted difference is a time for the parser only when the
    difference is a zero: [parseTimeString(formatTimeDifference(d))] returns
    [0] for [d] one of the zeros and throws for every other [d], [NaN] and
    the infinities included. *)
Theorem parseTimeString_formatTimeDifference (d : number) :
  match d with
  | S754_zero _ => parseTimeString (formatTimeDifference d) = Return zero
  | _ =>
      parseTimeString (formatTimeDifference d)
      = Throw (str "Invalid time format: " ++ formatTimeDifference d)
  end.
Proof.
  destruct d as [s|[]| |[] m e].
  - destruct s; vm_compute; reflexivity.
  - vm_compute; reflexivity.
  - vm_compute; reflexivity.
  - vm_compute; reflexivity.
  - unfold formatTimeDifference. cbn [ltb SFltb SFcompare zero toFixed app].
    by apply parseTimeString_no_digit_ahead.
  - unfold formatTimeDifference. cbn [ltb SFltb SFcompare zero toFixed app].
    by apply parseTimeString_no_digit_ahead.
Qed.

(** X4.  The sign shown for the difference of a conversion agrees with
    [isFaster]: when [formatTimeDifference(result.timeDifference)] starts
    with a minus sign [isFaster] is set, when it starts with a plus sign
    [isFaster] is not set. *)
Theorem displayed_sign_agrees_with_isFaster (now : list N) (t : number)
    (a b : SoloClass) (r : PaxCalculationResult) :
  calculatePaxTime now t a b = Return r ->
  ((exists s, formatTimeDifference (timeDifference r) = str "-" ++ s)
   -> isFaster r = true)
  /\ ((exists s, formatTimeDifference (timeDifference r) = str "+" ++ s)
      -> isFaster r = false).
Proof.
  unfold calculatePaxTime.
  destruct (t <= zero)%js; [discriminate|].
  destruct ((paxIndex a <= zero)%js || (paxIndex b <= zero)%js);
    [discriminate|].
  intros [= <-]. cbn [isFaster timeDifference].
  split.
  - intros H%formatTimeDifference_minus. by apply rounded_negative.
  - intros H%formatTimeDifference_plus. by apply rounded_positive.
Qed.

Lemma displayed_sign_agrees_with_isFaster_witness :
  ((exists s, formatTimeDifference (dec 1012 3) = str "-" ++ s)
   -> false = true)
  /\ ((exists s, formatTimeDifference (dec 1012 3) = str "+" ++ s)
      -> false = false).
Proof.
  exact (displayed_sign_agrees_with_isFaster [] (of_Z 60) mockSoloClass
           mockASClass _ eq_refl).
Defined.

(** ** Numbers with the sign bit clear *)

Section SignedRounding.

Local Open Scope js_scope.

Lemma shr_m_record_of_loc (m : Z) (l : location) :
  shr_m (shr_record_of_loc m l) = m.
Proof. by destruct l as [|[]]. Qed.

Lemma iter_shr_1_div (n : positive) (mrs : shr_record) :
  (0 <= shr_m mrs)%Z ->
  shr_m (Pos.iter shr_1 mrs n) = (shr_m mrs / 2 ^ Zpos n)%Z.
Proof.
  revert mrs. induction n as [|n IH] using Pos.peano_ind; intros [m r s] Hm;
    cbn [shr_m] in *.
  - cbn [Pos.iter]. by rewrite shr_1_nonneg.
  - rewrite Pos.iter_succ_r, shr_1_nonneg by done.
    rewrite IH by (cbn [shr_m]; apply Z.div_pos; lia).
    cbn [shr_m]. rewrite Pos2Z.inj_succ, Z.pow_succ_r by lia.
    rewrite Z.div_div by lia. reflexivity.
Qed.

Lemma shr_nonneg (mrs : shr_record) (e n : Z) :
  (0 <= shr_m mrs)%Z -> (0 <= shr_m (fst (shr mrs e n)))%Z.
Proof.
  intros Hm. destruct n as [|n|n]; cbn [shr fst]; try done.
  rewrite iter_pos_iter, iter_shr_1_div by done.
  apply Z.div_pos; [done|]. apply Z.pow_pos_nonneg; lia.
Qed.

Lemma shr_fexp_nonneg (m e : Z) (l : location) :
  (0 <= m)%Z -> (0 <= shr_m (fst (shr_fexp prec emax m e l)))%Z.
Proof.
  intros Hm. unfold shr_fexp. apply shr_nonneg.
  by rewrite shr_m_record_of_loc.
Qed.

(** Rounding a magnitude keeps the sign it is given: the result is a zero,
    a finite number or an infinity of that sign. *)
Lemma binary_round_aux_signed (sx : bool) (m e : Z) (l : location) :
  (0 <= m)%Z -> has_sign sx (binary_round_aux prec emax sx m e l) = true.
Proof.
  intros Hm. unfold binary_round_aux.
  pose proof (shr_fexp_nonneg m e l Hm) as H1.
  destruct (shr_fexp prec emax m e l) as [mrs e']. cbn [fst] in H1.
  pose proof (shr_fexp_nonneg
                (round_nearest_even (shr_m mrs) (loc_of_shr_record mrs))
                e' loc_Exact) as H2.
  destruct (shr_fexp prec emax _ e' loc_Exact) as [mrs' e'']. cbn [fst] in H2.
  specialize (H2 (round_nearest_even_nonneg _ _ H1)).
  destruct (shr_m mrs') as [|m'|m']; [|destruct (e'' <=? emax - prec)%Z|lia];
    by destruct sx.
Qed.

Lemma binary_normalize_signed (m e : Z) :
  (0 <= m)%Z -> has_sign false (binary_normalize prec emax m e false) = true.
Proof.
  intros Hm. destruct m as [|p|p]; [done| |lia].
  unfold binary_normalize, binary_round.
  destruct (shl_align _ _ _) as [mz ez].
  by apply binary_round_aux_signed.
Qed.

Lemma of_Z_signed (n : Z) : (0 <= n)%Z -> has_sign false (of_Z n) = true.
Proof. apply binary_normalize_signed. Qed.

Lemma int_signed (d : list N) : has_sign false (int d) = true.
Proof. apply of_Z_signed. lia. Qed.

Lemma add_signed (x y : number) :
  has_sign false x = true -> has_sign false y = true ->
  has_sign false (x + y) = true.
Proof.
  destruct x as [[]|[]| |[] mx ex], y as [[]|[]| |[] my ey]; try done.
  intros _ _. unfold add, SFadd, cond_Zopp.
  by apply binary_normalize_signed.
Qed.

Lemma mul_signed (x : number) (m : positive) (e : Z) :
  has_sign false x = true ->
  has_sign false (x * S754_finite false m e) = true.
Proof.
  destruct x as [[]|[]| |[] mx ex]; try done.
  intros _. unfold mul, SFmul. cbn [xorb].
  by apply binary_round_aux_signed.
Qed.

Lemma div_signed (x : number) (m : positive) (e : Z) :
  has_sign false x = true ->
  has_sign false (x / S754_finite false m e) = true.
Proof.
  destruct x as [[]|[]| |[] mx ex]; try done.
  intros _. unfold div, SFdiv, SFdiv_core_binary. cbn [xorb].
  set (m' := match _ with Z0 => _ | Zpos _ => _ | Zneg _ => _ end).
  assert (Hm' : (0 <= m')%Z).
  { unfold m'. destruct (_ - _ - _)%Z; try lia.
    apply Z.shiftl_nonneg. lia. }
  pose proof (Z.div_pos m' (Zpos m) Hm' ltac:(lia)) as Hq.
  unfold Z.div in Hq. destruct (Z.div_eucl m' (Zpos m)) as [q r].
  cbn [fst] in Hq. by apply binary_round_aux_signed.
Qed.

Lemma has_sign_not_negative (x : number) :
  has_sign false x = true -> (x < zero) = false /\ x <> S754_nan.
Proof. by destruct x as [[]|[]| |[] m e]. Qed.

End SignedRounding.

(** ** What the parser returns *)

Section ParserInversion.

Local Open Scope js_scope.

Lemma parseTimeString_parsed (s : list N) (x : number) :
  parseTimeString s = Return x -> parsed (trim s) x.
Proof.
  unfold parseTimeString.
  destruct (empty s || empty (trim s)); [discriminate|].
  set (t := trim s).
  pose proof (exec_minutesRe t) as H1.
  destruct (exec minutesRe t) as [g1|].
  { destruct H1 as (m & sec & ms & Hm & Hs & Hms & -> & ->).
    rewrite (parseInt_digits _ _ Hm), (parseInt_digits _ _ Hs),
      (parseInt_digits _ _ (padEnd_digit_run _ Hms)).
    intros [= <-]. by constructor. }
  pose proof (exec_hoursRe t) as H2.
  destruct (exec hoursRe t) as [g2|].
  { destruct H2 as (h & m & sec & ms & Hh & Hm & Hs & Hms & -> & ->).
    rewrite (parseInt_digits _ _ Hh), (parseInt_digits _ _ Hm),
      (parseInt_digits _ _ Hs), (parseInt_digits _ _ (padEnd_digit_run _ Hms)).
    intros [= <-]. by constructor. }
  pose proof (exec_decimalRe t) as H3.
  destruct (exec decimalRe t) as [g3|].
  { destruct H3 as (sec & ms & Hs & Hms & -> & ->).
    rewrite (parseInt_digits _ _ Hs),
      (parseInt_digits _ _ (padEnd_digit_run _ Hms)).
    intros [= <-]. by constructor. }
  pose proof (exec_wholeRe t) as H4.
  destruct (exec wholeRe t) as [g4|]; [|discriminate].
  destruct H4 as (Hs & ->). rewrite (parseInt_digits _ _ Hs).
  intros [= <-]. by constructor.
Qed.

Lemma n60_finite : exists m e, n60 = S754_finite false m e.
Proof. by eexists _, _. Qed.

Lemma n3600_finite : exists m e, n3600 = S754_finite false m e.
Proof. by eexists _, _. Qed.

Lemma n1000_finite : exists m e, n1000 = S754_finite false m e.
Proof. by eexists _, _. Qed.

Lemma parsed_signed (s : list N) (x : number) :
  parsed s x -> has_sign false x = true.
Proof.
  destruct n60_finite as (m60 & e60 & E60).
  destruct n3600_finite as (m3600 & e3600 & E3600).
  destruct n1000_finite as (m1000 & e1000 & E1000).
  intros [m sec ms _ _ _|h m sec ms _ _ _ _|sec ms _ _|w _];
    rewrite ?E60, ?E3600, ?E1000;
    repeat first [apply add_signed | apply mul_signed | apply div_signed
                 | apply int_signed].
Qed.

End ParserInversion.

(** X5.  A string the easter egg answers is a time: when
    [checkEasterEgg(s)] is ['NICE'], [parseTimeString(s)] returns 69.42,
    which [formatTime] shows as ["69.420"]. *)
Theorem checkEasterEgg_is_a_time (s : list N) :
  checkEasterEgg s = Some (str "NICE") ->
  parseTimeString s = Return (dec 6942 2)
  /\ formatTime (dec 6942 2) = Return (str "69.420").
Proof.
  unfold checkEasterEgg. destruct (bool_decide_reflect (trim s = str "69.420"))
    as [Ht|]; [intros _|discriminate].
  split; [|vm_compute; reflexivity].
  unfold parseTimeString. rewrite Ht.
  destruct s as [|c s]; [discriminate|]. vm_compute. reflexivity.
Qed.

Lemma checkEasterEgg_is_a_time_witness :
  parseTimeString (str "  69.420 ") = Return (dec 6942 2)
  /\ formatTime (dec 6942 2) = Return (str "69.420").
Proof. apply checkEasterEgg_is_a_time. reflexivity. Defined.

(** X6.  What the parser returns can always be formatted: the number
    [parseTimeString] returns is never [NaN] and never negative (it is
    [+0], a positive number or [+Infinity]), so [formatTime] of it does not
    throw. *)
Theorem formatTime_of_parsed (s : list N) (x : number) :
  parseTimeString s = Return x ->
  x <> S754_nan /\ (x < zero)%js = false
  /\ formatTime x = Return (toFixed x 3).
Proof.
  intros H%parseTimeString_parsed%parsed_signed%has_sign_not_negative.
  destruct H as [Hneg Hnan]. unfold formatTime. by rewrite Hneg.
Qed.

Lemma formatTime_of_parsed_witness :
  dec 65123 3 <> S754_nan /\ (dec 65123 3 < zero)%js = false
  /\ formatTime (dec 65123 3) = Return (toFixed (dec 65123 3) 3).
Proof. apply (formatTime_of_parsed (str " 1:05.123")). reflexivity. Defined.

(** ** Parsing what the formatter prints *)

Section Reparse.

Local Open Scope js_scope.

Lemma digits_value_of (n : N) : digits_value (digits_of n) = n.
Proof.
  induction n as [n IH] using (well_founded_induction N.lt_wf_0).
  destruct (N.lt_ge_cases n 10) as [Hn|Hn].
  - rewrite digits_of_small by done. unfold digits_value. cbn. lia.
  - pose proof (N.Div0.div_mod n 10) as Hdm.
    pose proof (N.mod_lt n 10 ltac:(done)) as Hr.
    set (q := (n / 10)%N) in *. set (r := (n mod 10)%N) in *.
    assert (Hq : (1 <= q)%N) by lia.
    rewrite Hdm at 1. rewrite digits_of_step by done.
    rewrite digits_value_snoc, IH by lia. lia.
Qed.

Lemma digits_of_run (n : N) : digit_run None (digits_of n).
Proof.
  apply digit_run_spec. split; [|split; [|done]].
  - apply (digits_fuel_digits _ _ []). reflexivity.
  - apply length_digits_of.
Qed.

Lemma digits3_run (M : N) :
  (M < 1000)%N -> digit_run (Some 3%nat) (digits3 M) /\ digits_value (digits3 M) = M.
Proof.
  intros HM.
  assert (H : forallb (fun k => is_digit_run (Some 3%nat) (digits3 (N.of_nat k))
                                && (digits_value (digits3 (N.of_nat k))
                                    =? N.of_nat k)%N) (seq 0 1000) = true)
    by (vm_compute; reflexivity).
  rewrite forallb_forall in H. specialize (H (N.to_nat M)).
  rewrite N2Nat.id in H.
  destruct (andb_prop _ _ (H ltac:(apply in_seq; lia))) as [H1 H2].
  split; [done|]. by apply N.eqb_eq.
Qed.

(** The digits of a number that is printed without an exponent. *)
Lemma fixed_digits_split (n : N) :
  exists V M : N,
    (M < 1000)%N /\ n = (1000 * V + M)%N
    /\ fixed_digits n 3 = digits_of V ++ str "." ++ digits3 M.
Proof.
  pose proof (N.Div0.div_mod n 1000) as Hdm.
  pose proof (N.mod_lt n 1000 ltac:(done)) as Hr.
  exists (n / 1000)%N, (n mod 1000)%N. split; [done|]. split; [done|].
  rewrite Hdm at 1. by apply fixed_digits_thousands.
Qed.

Lemma parseTimeString_fixed_digits (V M : N) :
  (M < 1000)%N ->
  parseTimeString (digits_of V ++ str "." ++ digits3 M)
  = Return (of_Z (Z.of_N V) + frac (Z.of_N M)).
Proof.
  intros HM. destruct (digits3_run M HM) as [Hrun Hval].
  rewrite (parseTimeString_decimal _ _ (digits_of_run V) Hrun).
  assert (Hpad : padEnd 3 48 (digits3 M) = digits3 M).
  { reflexivity. }
  rewrite Hpad. unfold int, frac. by rewrite digits_value_of, Hval.
Qed.

Lemma trimStart_keeps (c : N) (s : list N) :
  is_white_space c = false -> In c s -> In c (trimStart s).
Proof.
  intros Hc. induction s as [|a s IH]; [done|].
  intros [->|Hin].
  - rewrite trimStart_head by done. by left.
  - cbn. destruct (is_white_space a); [by apply IH|by right].
Qed.

Lemma trim_keeps (c : N) (s : list N) :
  is_white_space c = false -> In c s -> In c (trim s).
Proof.
  intros Hc Hin. unfold trim, trimEnd.
  apply in_rev. rewrite rev_involutive.
  apply trimStart_keeps; [done|]. apply -> in_rev.
  by apply trimStart_keeps.
Qed.

Lemma digit_run_characters (hi : option nat) (d : list N) :
  digit_run hi d ->
  Forall (fun c => is_digit c = true \/ c = 58%N \/ c = 46%N) d.
Proof.
  intros H%digit_run_digits. rewrite forallb_forall in H.
  apply Forall_forall. intros c Hc. left. apply H. by apply list_elem_of_In.
Qed.

(** A time is written with digits, colons and a point. *)
Lemma parsed_characters (s : list N) (x : number) :
  parsed s x ->
  Forall (fun c => is_digit c = true \/ c = 58%N \/ c = 46%N) s.
Proof.
  intros [m sec ms Hm Hs Hms|h m sec ms Hh Hm Hs Hms|sec ms Hs Hms|w Hw];
    repeat first
      [ apply Forall_app; split
      | eapply digit_run_characters; eassumption
      | apply Forall_cons; split; [tauto|]
      | apply Forall_nil
      | exact I ].
Qed.

Lemma parseTimeString_letter (c : N) (s : list N) (x : number) :
  In c s -> is_white_space c = false -> is_digit c = false ->
  c <> 58%N -> c <> 46%N ->
  parseTimeString s <> Return x.
Proof.
  intros Hin Hw Hd H58 H46 H%parseTimeString_parsed%parsed_characters.
  rewrite Forall_forall in H.
  destruct (H c) as [Hc|[Hc|Hc]]; try congruence.
  apply list_elem_of_In. by apply trim_keeps.
Qed.

Lemma toString_large_exponent (m : positive) (e : Z) :
  In 101%N (toString_large m e).
Proof.
  unfold toString_large. destruct (shortest _ _ _ _ _) as [s n'].
  rewrite !in_app_iff. right. right. left. by left.
Qed.

(** Below [10^21], for a number in its canonical form. *)
Lemma at_least_1e21_ltb (m : positive) (e : Z) :
  bounded prec emax m e = true ->
  at_least_1e21 m e = negb (S754_finite false m e < n1e21).
Proof.
  unfold bounded, canonical_mantissa, fexp, SpecFloat.emin, prec, emax.
  intros [Hc He]%andb_prop. apply Z.eqb_eq in Hc. apply Z.leb_le in He.
  rewrite digits2_pos_log2 in Hc.
  pose proof (Z.log2_spec (Zpos m) eq_refl) as Hlog.
  set (k := Z.log2 (Zpos m)) in *.
  assert (Hk : (0 <= k)%Z) by apply Z.log2_nonneg.
  assert (Hm53 : (Zpos m < 2 ^ 53)%Z).
  { eapply Z.lt_le_trans; [apply Hlog|]. apply Z.pow_le_mono_r; lia. }
  change n1e21 with (S754_finite false 7629394531250000 17).
  cbn [ltb SFltb SFcompare].
  destruct (Z.compare_spec e 17) as [->|Hlt|Hgt].
  - unfold at_least_1e21. cbn [Z.leb Z.compare].
    rewrite Pos.compare_cont_spec. cbn [Pos.switch_Eq].
    destruct (Pos.compare_spec m 7629394531250000) as [->|H|H]; cbn [negb].
    + reflexivity.
    + apply Z.leb_gt. clear - H.
      change (10 ^ 21)%Z with (7629394531250000 * 2 ^ 17)%Z.
      apply Z.mul_lt_mono_pos_r; [done|exact H].
    + apply Z.leb_le. clear - H.
      change (10 ^ 21)%Z with (7629394531250000 * 2 ^ 17)%Z.
      apply Z.mul_le_mono_nonneg_r; [done|].
      apply Z.lt_le_incl. exact H.
  - cbn [negb]. destruct (Z.ltb_spec e 0) as [Hneg|Hpos].
    + by apply at_least_1e21_small.
    + unfold at_least_1e21.
      assert ((0 <=? e)%Z = true) as -> by lia.
      apply Z.leb_gt.
      assert (2 ^ e <= 2 ^ 16)%Z by (apply Z.pow_le_mono_r; lia).
      assert (0 < 2 ^ e)%Z by (apply Z.pow_pos_nonneg; lia).
      assert (2 ^ 53 * 2 ^ 16 < 10 ^ 21)%Z by done.
      nia.
  - cbn [negb]. unfold at_least_1e21.
    assert ((0 <=? e)%Z = true) as -> by lia.
    apply Z.leb_le.
    assert (Hk52 : k = 52%Z) by lia.
    rewrite Hk52 in Hlog.
    assert (2 ^ 18 <= 2 ^ e)%Z by (apply Z.pow_le_mono_r; lia).
    assert (10 ^ 21 <= 2 ^ 52 * 2 ^ 18)%Z by by apply Z.leb_le.
    nia.
Qed.

Lemma parseTimeString_Infinity (y : number) :
  parseTimeString (toFixed (S754_infinity false) 3) <> Return y.
Proof.
  assert (H : parseTimeString (toFixed (S754_infinity false) 3)
              = Throw (str "Invalid time format: Infinity"))
    by (vm_compute; reflexivity).
  rewrite H. discriminate.
Qed.

Lemma parseTimeString_NaN (y : number) :
  parseTimeString (toFixed S754_nan 3) <> Return y.
Proof.
  assert (H : parseTimeString (toFixed S754_nan 3)
              = Throw (str "Invalid time format: NaN"))
    by (vm_compute; reflexivity).
  rewrite H. discriminate.
Qed.

End Reparse.

(** X7.  What [formatTime] prints can be parsed again exactly when the
    number is finite and below [10^21]: from there on [toFixed] prints an
    exponent, and ["NaN"] and ["Infinity"] are no times either. *)
Theorem parseTimeString_of_formatted (x : number) (s : list N) :
  is_double x = true ->
  formatTime x = Return s ->
  ((exists y, parseTimeString s = Return y)
   <-> finite x = true /\ (x < n1e21)%js = true).
Proof.
  unfold formatTime. intros Hx.
  destruct (x < zero)%js eqn:Hneg; [discriminate|]. intros [= <-].
  destruct x as [sz|[]| |[] m e]; try done.
  - split; [done|]. intros _. destruct sz; by eexists.
  - split; [|intros [H _]; cbn in H; discriminate].
    intros [y Hy]. by destruct (parseTimeString_Infinity y).
  - split; [|intros [H _]; cbn in H; discriminate].
    intros [y Hy]. by destruct (parseTimeString_NaN y).
  - cbn [is_double valid_binary] in Hx.
    pose proof (at_least_1e21_ltb m e Hx) as H21.
    cbn [toFixed app finite]. destruct (at_least_1e21 m e).
    + split.
      * intros [y Hy]. exfalso.
        by eapply (parseTimeString_letter 101);
          [apply toString_large_exponent|..|exact Hy].
      * intros [_ Hlt]. rewrite Hlt in H21. discriminate H21.
    + split.
      * intros _. split; [reflexivity|].
        destruct (_ < n1e21)%js; [reflexivity|discriminate H21].
      * intros _.
        destruct (fixed_digits_split (Z.to_N (scaled_round m e 3)))
          as (V & M & HM & _ & ->).
        rewrite parseTimeString_fixed_digits by exact HM.
        eexists. reflexivity.
Qed.

Lemma parseTimeString_of_formatted_witness :
  (exists y, parseTimeString (str "61.012") = Return y)
  <-> finite (dec 610123 4) = true /\ (dec 610123 4 < n1e21)%js = true.
Proof. by apply (parseTimeString_of_formatted (dec 610123 4)). Defined.

(** X8.  Formatting is stable under parsing: when what [formatTime] prints
    has at most twelve digits before the point and is parsed again, the
    number read formats to the same string. *)
Theorem formatTime_stable (x y : number) (s : list N) :
  formatTime x = Return s ->
  (length s <= 16)%nat ->
  parseTimeString s = Return y ->
  formatTime y = Return s.
Proof.
  unfold formatTime at 1.
  destruct (x < zero)%js eqn:Hneg; [discriminate|]. intros [= <-] Hlen.
  assert (Hfixed : forall n : N,
             (length (fixed_digits n 3) <= 16)%nat ->
             parseTimeString (fixed_digits n 3) = Return y ->
             formatTime y = Return (fixed_digits n 3)).
  { intros n Hl.
    destruct (fixed_digits_split n) as (V & M & HM & -> & Hs).
    rewrite Hs in *. rewrite parseTimeString_fixed_digits by done.
    intros [= <-].
    assert (HV : (V < 10 ^ 12)%N).
    { rewrite <- (digits_value_of V).
      eapply N.lt_le_trans.
      - apply digits_value_bound, (digit_run_digits None), digits_of_run.
      - apply N.pow_le_mono_r; [done|].
        rewrite !length_app in Hl. cbn [length str map
          String.list_ascii_of_string digits3] in Hl. lia. }
    destruct (toFixed_sum (Z.of_N V) (Z.of_N M)) as [Hn Hf].
    { assert (10 ^ 12 < 2 ^ 40)%Z by done. lia. }
    { lia. }
    unfold formatTime. rewrite Hn, Hf, <- Hs. do 2 f_equal. lia. }
  destruct x as [sz|[]| |[] m e]; try discriminate Hneg.
  - apply (Hfixed 0%N). done.
  - intros Hy. by destruct (parseTimeString_Infinity y).
  - intros Hy. by destruct (parseTimeString_NaN y).
  - cbn [toFixed app] in *. destruct (at_least_1e21 m e).
    + intros Hy. exfalso.
      by eapply (parseTimeString_letter 101);
        [apply toString_large_exponent|..|exact Hy].
    + by apply Hfixed.
Qed.

Lemma formatTime_stable_witness :
  formatTime (dec 61012 3) = Return (str "61.012").
Proof.
  apply (formatTime_stable (dec 610123 4)); [reflexivity|vm_compute; lia|].
  reflexivity.
Defined.

(** X9.  [NaN] passes the guards of the conversion: when none of the input
    time and the two indices is [<= 0] and one of them is [NaN], the call
    returns, with [NaN] for the output time and for the difference and
    [isFaster] not set. *)
Theorem calculatePaxTime_NaN (now : list N) (t : number) (a b : SoloClass) :
  (t <= zero)%js = false ->
  (paxIndex a <= zero)%js = false ->
  (paxIndex b <= zero)%js = false ->
  t = S754_nan \/ paxIndex a = S754_nan \/ paxIndex b = S754_nan ->
  exists r : PaxCalculationResult,
    calculatePaxTime now t a b = Return r
    /\ outputTime r = S754_nan /\ timeDifference r = S754_nan
    /\ isFaster r = false.
Proof.
  intros Ht Ha Hb Hnan. unfold calculatePaxTime. rewrite Ht, Ha, Hb.
  cbn [orb]. eexists. split; [reflexivity|].
  cbn [outputTime timeDifference isFaster].
  assert (Hout : (t * (paxIndex a / paxIndex b))%js = S754_nan).
  { destruct Hnan as [->|[->| ->]]; [done| |].
    - by destruct t as [[]|[]| |[] m e].
    - destruct (paxIndex a) as [[]|[]| |[] ma ea];
        by destruct t as [[]|[]| |[] m e]. }
  rewrite Hout. by vm_compute.
Qed.

Lemma calculatePaxTime_NaN_witness :
  exists r : PaxCalculationResult,
    calculatePaxTime [] (of_Z 60) (mkClass "SS" S754_nan) mockASClass
    = Return r
    /\ outputTime r = S754_nan /\ timeDifference r = S754_nan
    /\ isFaster r = false.
Proof.
  apply calculatePaxTime_NaN; [reflexivity..|right; left; reflexivity].
Defined.

(** ** The rounded difference of a faster time *)

Section MinusZero.

Local Open Scope js_scope.

Lemma neg_signed (s : bool) (x : number) :
  has_sign s x = true -> has_sign (negb s) (neg x) = true.
Proof. by destruct x as [[]|[]| |[] m e], s. Qed.

Lemma of_ratio_signed (sgn : bool) (p : N) (q : positive) :
  has_sign sgn (of_ratio sgn p q) = true.
Proof.
  unfold of_ratio. destruct p as [|p]; [by destruct sgn|].
  unfold SFdiv, SFdiv_core_binary. rewrite xorb_false_r.
  set (m' := match _ with Z0 => _ | Zpos _ => _ | Zneg _ => _ end).
  assert (Hm' : (0 <= m')%Z).
  { unfold m'. destruct (_ - _ - _)%Z; try lia.
    apply Z.shiftl_nonneg. lia. }
  pose proof (Z.div_pos m' (Zpos q) Hm' ltac:(lia)) as Hq.
  unfold Z.div in Hq. destruct (Z.div_eucl m' (Zpos q)) as [qt r].
  cbn [fst] in Hq. by apply binary_round_aux_signed.
Qed.

(** The value of a decimal literal has the sign written in front of it; it
    is never [NaN]. *)
Lemma of_decimal_signed (sgn : bool) (d : N) (ex : Z) :
  has_sign sgn (of_decimal sgn d ex) = true.
Proof.
  unfold of_decimal. destruct (0 <=? ex)%Z; [|apply of_ratio_signed].
  assert (H : has_sign false (of_Z (Z.of_N d * 10 ^ ex)) = true).
  { apply of_Z_signed.
    assert (0 <= 10 ^ ex)%Z by (apply Z.pow_nonneg; lia). lia. }
  destruct sgn; [by apply (neg_signed false)|done].
Qed.

(** A literal with no minus sign in front never denotes [-0]. *)
Lemma Number_not_minus_zero (s : list N) :
  (forall r, trim s <> 45%N :: r) -> Number s <> S754_zero true.
Proof.
  intros Hs. unfold Number. destruct (trim s) as [|c t]; [done|].
  destruct (nondecimal_literal (c :: t)) as [v|].
  { pose proof (of_Z_signed (Z.of_N v) ltac:(lia)) as H.
    intros Heq. by rewrite Heq in H. }
  assert (Hsgn : fst (split_sign (c :: t)) = false).
  { unfold split_sign.
    destruct (N.eqb_spec c 45) as [->|Hc]; [by destruct (Hs t)|].
    by destruct (c =? 43)%N. }
  destruct (split_sign (c :: t)) as [sgn u]. cbn in Hsgn. subst sgn.
  destruct (bool_decide (u = str "Infinity")); [done|].
  destruct (decimal_literal u) as [[d ex]|]; [|done].
  pose proof (of_decimal_signed false d ex) as H.
  intros Heq. by rewrite Heq in H.
Qed.

(** A decimal literal behind a minus sign denotes a number with the sign
    bit set: a negative number or [-0]. *)
Lemma Number_minus (u : list N) :
  trim (45%N :: u) = 45%N :: u -> decimal_literal u <> None ->
  has_sign true (Number (45%N :: u)) = true.
Proof.
  intros Ht Hu. unfold Number. rewrite Ht.
  cbn [nondecimal_literal split_sign N.eqb Pos.eqb].
  destruct (bool_decide (u = str "Infinity")); [done|].
  destruct (decimal_literal u) as [[d ex]|]; [|done].
  apply of_decimal_signed.
Qed.

Lemma trim_ends (s : list N) (a b : N) (t t' : list N) :
  s = a :: t -> rev s = b :: t' ->
  is_white_space a = false -> is_white_space b = false ->
  trim s = s.
Proof.
  intros Hs Hr Ha Hb. unfold trim, trimEnd.
  rewrite Hs, trimStart_head by done. rewrite <- Hs, Hr.
  rewrite trimStart_head by done. by rewrite <- Hr, rev_involutive.
Qed.

Lemma rev_digits_head (d : list N) :
  forallb is_digit d = true -> d <> [] ->
  exists b t, rev d = b :: t /\ is_digit b = true.
Proof.
  intros Hd Hne.
  assert (Hr : forallb is_digit (rev d) = true).
  { rewrite forallb_forall in Hd |- *. intros x Hx. apply Hd.
    by apply in_rev. }
  destruct (rev d) as [|b t] eqn:E.
  - destruct Hne. by rewrite <- (rev_involutive d), E.
  - cbn in Hr. apply andb_prop in Hr as [Hb _]. eauto.
Qed.

(** A string that ends with digits, behind a minus sign, has nothing to
    trim. *)
Lemma trim_minus (body d : list N) :
  forallb is_digit d = true -> d <> [] ->
  trim (45%N :: body ++ d) = 45%N :: body ++ d.
Proof.
  intros Hd Hne.
  destruct (rev_digits_head d Hd Hne) as (b & t & Hr & Hb).
  apply (trim_ends _ 45 b (body ++ d) (t ++ rev body ++ [45%N])).
  - done.
  - cbn [rev]. rewrite rev_app_distr, Hr. cbn [app].
    by rewrite <- app_assoc.
  - done.
  - by apply digit_not_white_space.
Qed.

Lemma digits_of_digits (n : N) : forallb is_digit (digits_of n) = true.
Proof. apply (digits_fuel_digits _ _ []). reflexivity. Qed.

Lemma digits_of_nonempty (n : N) : digits_of n <> [].
Proof.
  pose proof (length_digits_of n) as H.
  destruct (digits_of n); [cbn in H; lia|done].
Qed.

Lemma span_digits_all (d : list N) :
  forallb is_digit d = true -> span_digits d = (d, []).
Proof.
  intros Hd. rewrite <- (app_nil_r d) at 1. by apply span_digits_app.
Qed.

Lemma exponent_part_plus (d : list N) :
  forallb is_digit d = true -> d <> [] ->
  exponent_part (str "e+" ++ d) = Some (Z.of_N (digits_value d)).
Proof.
  intros Hd Hne. cbn [str map String.list_ascii_of_string app exponent_part
    Ascii.N_of_ascii N.eqb Pos.eqb orb split_sign].
  change (exponent_part (101%N :: 43%N :: d)
          = Some (Z.of_N (digits_value d))).
  cbn [exponent_part N.eqb Pos.eqb orb split_sign].
  rewrite span_digits_all by done. by destruct d.
Qed.

(** What [toFixed] prints behind the sign is a decimal literal. *)
Lemma decimal_literal_fixed_digits (n : N) :
  decimal_literal (fixed_digits n 3) <> None.
Proof.
  destruct (fixed_digits_split n) as (V & M & HM & _ & ->).
  unfold decimal_literal.
  rewrite (span_digits_app (digits_of V) (str "." ++ digits3 M))
    by (apply digits_of_digits || done).
  change (str "." ++ digits3 M) with (46%N :: digits3 M). cbv beta iota.
  rewrite span_digits_all
    by (apply (digit_run_digits (Some 3%nat)); by apply digits3_run).
  cbn [exponent_part]. pose proof (digits_of_nonempty V).
  by destruct (digits_of V).
Qed.

Lemma decimal_literal_toString_large (m : positive) (e : Z) :
  decimal_literal (toString_large m e) <> None.
Proof.
  unfold toString_large. destruct (shortest _ _ _ _ _) as [s n'].
  set (ex := digits_of (N.of_nat (n' - 1))).
  pose proof (digits_of_digits (Z.to_N s)) as Hd.
  pose proof (digits_of_digits (N.of_nat (n' - 1))) as He.
  pose proof (digits_of_nonempty (N.of_nat (n' - 1))) as Hene.
  fold ex in He, Hene.
  pose proof (exponent_part_plus ex He Hene) as Hex.
  change (str "e+" ++ ex) with (101%N :: 43%N :: ex) in Hex |- *.
  pose proof (digits_of_nonempty (Z.to_N s)) as Hne.
  destruct (digits_of (Z.to_N s)) as [|c r]; [done|].
  cbn [forallb] in Hd. apply andb_prop in Hd as [Hc Hr].
  assert (Hc1 : forallb is_digit [c] = true) by (cbn; by rewrite Hc).
  change (firstn 1 (c :: r)) with [c]. change (skipn 1 (c :: r)) with r.
  unfold decimal_literal. destruct r as [|c2 r].
  - change ([c] ++ [] ++ 101%N :: 43%N :: ex)
      with ([c] ++ 101%N :: 43%N :: ex).
    rewrite span_digits_app by done. cbv beta iota. by rewrite Hex.
  - change ([c] ++ (str "." ++ c2 :: r) ++ 101%N :: 43%N :: ex)
      with ([c] ++ 46%N :: ((c2 :: r) ++ 101%N :: 43%N :: ex)).
    rewrite span_digits_app by done. cbv beta iota.
    rewrite span_digits_app by done. by rewrite Hex.
Qed.

Lemma toString_large_ends (m : positive) (e : Z) :
  exists body d, toString_large m e = body ++ d
                 /\ forallb is_digit d = true /\ d <> [].
Proof.
  unfold toString_large. destruct (shortest _ _ _ _ _) as [s n'].
  set (ds := digits_of (Z.to_N s)).
  set (ex := digits_of (N.of_nat (n' - 1))).
  set (frac := match skipn 1 ds with [] => [] | r => str "." ++ r end).
  exists (firstn 1 ds ++ frac ++ str "e+"), ex.
  split; [|split; [apply digits_of_digits|apply digits_of_nonempty]].
  rewrite <- !app_assoc. reflexivity.
Qed.

Lemma fixed_digits_ends (n : N) :
  exists body d, fixed_digits n 3 = body ++ d
                 /\ forallb is_digit d = true /\ d <> [].
Proof.
  destruct (fixed_digits_split n) as (V & M & HM & _ & ->).
  exists (digits_of V ++ str "."), (digits3 M).
  split; [by rewrite <- app_assoc|]. split; [|done].
  apply (digit_run_digits (Some 3%nat)). by apply digits3_run.
Qed.

(** Rounding a negative number to three decimals gives a number with the
    sign bit set: a negative number or [-0], never [+0] or [NaN]. *)
Lemma rounded_of_negative (x : number) :
  (x < zero) = true -> has_sign true (Number (toFixed x 3)) = true.
Proof.
  destruct x as [s|[]| |[] m e]; try discriminate; intros _.
  - vm_compute. reflexivity.
  - change (toFixed (S754_finite true m e) 3)
      with (45%N :: (if at_least_1e21 m e then toString_large m e
                     else fixed_digits (Z.to_N (scaled_round m e 3)) 3)).
    destruct (at_least_1e21 m e).
    + destruct (toString_large_ends m e) as (body & d & Heq & Hd & Hne).
      apply Number_minus; [|apply decimal_literal_toString_large].
      rewrite Heq. by apply trim_minus.
    + destruct (fixed_digits_ends (Z.to_N (scaled_round m e 3)))
        as (body & d & Heq & Hd & Hne).
      apply Number_minus; [|apply decimal_literal_fixed_digits].
      rewrite Heq. by apply trim_minus.
Qed.

(** Rounding gives [-0] only from a negative number. *)
Lemma rounded_minus_zero (x : number) :
  Number (toFixed x 3) = S754_zero true -> (x < zero) = true.
Proof.
  destruct x as [s|[]| |[] m e]; try done.
  intros H. exfalso. revert H. apply Number_not_minus_zero.
  cbn [toFixed app].
  destruct (toFixed_unsigned_head m e) as (c & r & -> & Hc).
  destruct (trim_head c r (digit_not_white_space c Hc)) as [s' ->].
  intros r' [= -> _]. done.
Qed.

Lemma has_sign_true (x : number) :
  has_sign true x = true <-> (x < zero) = true \/ x = S754_zero true.
Proof.
  destruct x as [[]|[]| |[] m e]; cbn; split; try done; auto;
    intros [H|H]; done.
Qed.

End MinusZero.

(** C2, as amended.  In the result of a successful call, [isFaster] holds
    exactly when the rounded difference stored in the result is strictly
    negative or is [-0], the zero a negative difference rounds to: it is
    then never [+0], positive or [NaN].  That is exactly when the unrounded
    difference
    [inputTime * (inputClass.paxIndex / outputClass.paxIndex) - inputTime],
    of which the stored one is the rounding, is strictly negative. *)
Theorem isFaster_iff_unrounded_difference_negative (now : list N)
    (t : number) (a b : SoloClass) (r : PaxCalculationResult) :
  calculatePaxTime now t a b = Return r ->
  (isFaster r = true
   <-> (timeDifference r < zero)%js = true
       \/ timeDifference r = S754_zero true)
  /\ (isFaster r = true
      <-> (t * (paxIndex a / paxIndex b) - t < zero)%js = true)
  /\ timeDifference r
     = Number (toFixed (t * (paxIndex a / paxIndex b) - t)%js 3).
Proof.
  unfold calculatePaxTime.
  destruct (t <= zero)%js; [discriminate|].
  destruct ((paxIndex a <= zero)%js || (paxIndex b <= zero)%js);
    [discriminate|].
  intros [= <-]. cbn [isFaster timeDifference].
  split; [|split; reflexivity].
  rewrite <- has_sign_true. split.
  - apply rounded_of_negative.
  - intros [H|H]%has_sign_true;
      [by apply rounded_negative|by apply rounded_minus_zero].
Qed.

Lemma isFaster_iff_unrounded_difference_negative_witness :
  exists r : PaxCalculationResult,
    calculatePaxTime [] (of_Z 60) (mkClass "AS" (dec 83 2))
      (mkClass "SS" (dec 844 3)) = Return r
    /\ (isFaster r = true
        <-> (timeDifference r < zero)%js = true
            \/ timeDifference r = S754_zero true)
    /\ isFaster r = true
    /\ timeDifference r = of_decimal true 995 (-3).
Proof.
  eexists. split; [vm_compute; reflexivity|].
  split; [|split; vm_compute; reflexivity].
  apply (isFaster_iff_unrounded_difference_negative []
           (of_Z 60) (mkClass "AS" (dec 83 2))
           (mkClass "SS" (dec 844 3))).
  vm_compute. reflexivity.
Defined.

(** C2 as stated fails: converting 1 s from index 0.9999 to index 1, the
    difference is about -0.0001; it rounds to [-0], which is not strictly
    negative, and yet [isFaster] is set. *)
Lemma isFaster_with_zero_rounded_difference :
  exists r : PaxCalculationResult,
    calculatePaxTime [] (of_Z 1)
      (mkClass "A" (dec 9999 4)) (mkClass "B" (of_Z 1))
    = Return r
    /\ isFaster r = true
    /\ timeDifference r = S754_zero true
    /\ (timeDifference r < zero)%js = false.
Proof.
  eexists. split; [vm_compute; reflexivity|].
  repeat split; vm_compute; reflexivity.
Qed.

(** ** When a dataset is valid *)

Section Validity.

Local Open Scope js_scope.

Lemma validateGroups_well_formed (gs : list SoloClassGroup) (st : validation) :
  (forall g, In g gs -> has_id_and_name g = true) ->
  fold_left validateGroup gs st
  = fold_left validateClass (all_classes gs) st.
Proof.
  revert st. induction gs as [|g gs IH]; intros st Hgs; [done|].
  cbn [fold_left all_classes flat_map]. rewrite fold_left_app.
  rewrite validateGroup_eq, (Hgs g) by by left.
  apply IH. intros g' Hg'. apply Hgs. by right.
Qed.

Lemma classes_errors_nil (seen : gset (list N)) (cs : list SoloClass) :
  classes_errors seen cs = []
  <-> (forall c, In c cs -> code c ∉ seen)
      /\ NoDup (map code cs)
      /\ (forall c, In c cs ->
                    missing_code_or_name c = false /\ non_positive c = false).
Proof.
  revert seen. induction cs as [|c cs IH]; intros seen.
  - cbn. split; [|done]. intros _. split; [done|]. split; [constructor|done].
  - cbn [classes_errors map]. rewrite NoDup_cons.
    split.
    + intros [Hc Hcs]%app_eq_nil. apply IH in Hcs as (Hseen & Hnd & Hok).
      unfold class_errors in Hc.
      destruct (bool_decide_reflect (code c ∈ seen)) as [|Hnot];
        [discriminate|].
      destruct (missing_code_or_name c) eqn:Hmiss; [discriminate|].
      destruct (non_positive c) eqn:Hnp; [discriminate|].
      split; [|split; [split|]].
      * intros c' [<-|Hin]; [done|].
        specialize (Hseen c' Hin). set_solver.
      * intros Hin%list_elem_of_In%in_map_iff.
        destruct Hin as (c' & Hcode & Hin).
        specialize (Hseen c' Hin). set_solver.
      * done.
      * intros c' [<-|Hin]; [done|]. by apply Hok.
    + intros (Hseen & [Hnotin Hnd] & Hok).
      apply app_nil. split.
      * unfold class_errors.
        destruct (Hok c ltac:(by left)) as [-> ->].
        rewrite bool_decide_eq_false_2; [done|]. apply Hseen. by left.
      * apply IH. split; [|split; [done|]].
        -- intros c' Hin. specialize (Hseen c' ltac:(by right)).
           assert (code c' <> code c).
           { intros Heq. apply Hnotin. rewrite <- Heq.
             apply list_elem_of_In, in_map_iff. eauto. }
           set_solver.
        -- intros c' Hin. apply Hok. by right.
Qed.

Lemma header_errors_nil (idx : PaxIndex) :
  header_errors idx = []
  <-> (truthy (year idx) = true /\ (year idx < n2000) = false
       /\ (year idx > n2100) = false)
      /\ (indexType idx = str "Solo" \/ indexType idx = str "ProSolo")
      /\ classGroups idx <> [].
Proof.
  unfold header_errors.
  destruct (truthy (year idx)), (year idx < n2000), (n2100 < year idx);
    cbn [negb orb app];
    try (split; [discriminate|intros [(? & ? & ?) _]; discriminate]).
  destruct (bool_decide_reflect (indexType idx ∈ [str "Solo"; str "ProSolo"]))
    as [Hin|Hnot].
  - assert (Hne : empty (indexType idx) = false).
    { apply list_elem_of_In in Hin. destruct Hin as [<-|[<-|[]]]; done. }
    rewrite Hne. cbn [negb orb app].
    destruct (classGroups idx) as [|g gs]; cbn [length Nat.eqb].
    + split; [discriminate|]. by intros (_ & _ & ?).
    + split; [|done]. intros _. split; [done|]. split; [|done].
      apply list_elem_of_In in Hin. destruct Hin as [<-|[<-|[]]]; auto.
  - rewrite orb_true_r. cbn [app].
    split; [discriminate|]. intros (_ & Hty & _). destruct Hnot.
    apply list_elem_of_In. destruct Hty as [->| ->]; cbn; auto.
Qed.

Lemma fold_validateGroup_errors (gs : list SoloClassGroup) (st : validation) :
  v_errors (fold_left validateGroup gs st) = [] -> v_errors st = [].
Proof.
  intros H.
  destruct (validateGroups_eq gs st) as (_ & _ & _ & _ & _ & H6).
  cbv zeta in H6. rewrite H in H6.
  destruct (v_errors st) as [|e es]; [done|].
  destruct (H6 e). by left.
Qed.

Lemma validatePaxIndex_valid (idx : PaxIndex) :
  isValid (validatePaxIndex idx) = true
  <-> header_errors idx = []
      /\ (forall g, In g (classGroups idx) -> has_id_and_name g = true)
      /\ classes_errors ∅ (all_classes (classGroups idx)) = []
      /\ size (classesByCode idx) = length (all_classes (classGroups idx)).
Proof.
  rewrite validatePaxIndex_eq. cbn [isValid].
  set (st0 := {| v_errors := header_errors idx; v_warnings := [];
                 v_classCount := 0; v_seenCodes := ∅ |}).
  rewrite Nat.eqb_eq, length_zero_iff_nil.
  split.
  - intros [Herr Hsize]%app_eq_nil.
    assert (Hwf : forall g, In g (classGroups idx) -> has_id_and_name g = true).
    { intros g Hg. destruct (has_id_and_name g) eqn:Hwf; [done|].
      destruct (validateGroups_eq (classGroups idx) st0)
        as (_ & _ & _ & _ & H5 & _).
      cbv zeta in H5. specialize (H5 g Hg Hwf). rewrite Herr in H5.
      destruct H5. }
    pose proof (fold_validateGroup_errors _ _ Herr) as Hh.
    rewrite validateGroups_well_formed, validateClasses_eq in Herr, Hsize
      by done.
    cbn [v_errors v_classCount v_seenCodes st0] in Herr, Hsize.
    apply app_eq_nil in Herr as [_ Hcls].
    split; [done|]. split; [done|]. split; [done|].
    destruct (Nat.eqb_spec (size (classesByCode idx))
                (0 + length (all_classes (classGroups idx)))); [lia|done].
  - intros (Hh & Hwf & Hcls & Hsize).
    rewrite validateGroups_well_formed, validateClasses_eq by done.
    cbn [v_errors v_classCount v_seenCodes st0].
    rewrite Hh, Hcls, Hsize. cbn [app Nat.add]. by rewrite Nat.eqb_refl.
Qed.

End Validity.

(** X10.  A dataset is valid exactly when its year is a number from 2000
    to 2100, its type is Solo or ProSolo, it has a group, every group has an
    id and a name, no two classes share a code, every class has a code, a
    name and an index that is not [<= 0], and the lookup table has as many
    keys as there are classes.  Nothing else is looked at: an index that is
    [NaN] passes, and so does any content of the table. *)
Theorem validatePaxIndex_valid_iff (idx : PaxIndex) :
  isValid (validatePaxIndex idx) = true
  <-> (truthy (year idx) = true /\ (year idx < n2000)%js = false
       /\ (year idx > n2100)%js = false)
      /\ (indexType idx = str "Solo" \/ indexType idx = str "ProSolo")
      /\ classGroups idx <> []
      /\ (forall g, In g (classGroups idx) ->
                    group_id g <> [] /\ group_name g <> [])
      /\ NoDup (map code (all_classes (classGroups idx)))
      /\ (forall c, In c (all_classes (classGroups idx)) ->
                    code c <> [] /\ name c <> []
                    /\ (paxIndex c <= zero)%js = false)
      /\ size (classesByCode idx) = length (all_classes (classGroups idx)).
Proof.
  rewrite validatePaxIndex_valid, header_errors_nil, classes_errors_nil.
  assert (Hempty : forall s : list N, empty s = false <-> s <> []).
  { intros [|c s]; split; done. }
  assert (Hwf : (forall g, In g (classGroups idx) -> has_id_and_name g = true)
                <-> (forall g, In g (classGroups idx) ->
                               group_id g <> [] /\ group_name g <> [])).
  { unfold has_id_and_name.
    split; intros H g Hg; specialize (H g Hg);
      rewrite <- !Hempty in *; destruct (empty (group_id g)),
        (empty (group_name g)); try done; by destruct H. }
  assert (Hok : (forall c, In c (all_classes (classGroups idx)) ->
                           missing_code_or_name c = false
                           /\ non_positive c = false)
                <-> (forall c, In c (all_classes (classGroups idx)) ->
                               code c <> [] /\ name c <> []
                               /\ (paxIndex c <= zero)%js = false)).
  { unfold missing_code_or_name, non_positive.
    split; intros H c Hc; specialize (H c Hc);
      rewrite <- !Hempty in *; destruct (empty (code c)), (empty (name c));
      try done; try tauto; by destruct H as (? & ? & ?). }
  rewrite Hwf, Hok. split.
  - intros ((Hy & Ht & Hg) & Hgs & (_ & Hnd & Hcs) & Hsize). tauto.
  - intros (Hy & Ht & Hg & Hgs & Hnd & Hcs & Hsize).
    split; [tauto|]. split; [done|]. split; [|done].
    split; [|tauto]. intros c _. set_solver.
Qed.

(** ** Lookups and the table of a data file *)

Section LookupFacts.

Local Open Scope js_scope.

Lemma filter_length_le {A : Type} (P : A -> bool) (l : list A) :
  (length (List.filter P l) <= length l)%nat.
Proof. induction l as [|a l IH]; cbn; [lia|]. destruct (P a); cbn; lia. Qed.

Lemma filter_length_eq {A : Type} (P : A -> bool) (l : list A) :
  length (List.filter P l) = length l <-> forall a, In a l -> P a = true.
Proof.
  induction l as [|a l IH]; cbn; [by split|].
  pose proof (filter_length_le P l).
  destruct (P a) eqn:Ha; cbn.
  - split.
    + intros [= Hl] a' [<-|Hin]; [done|].
      by apply (proj1 IH Hl).
    + intros Hall. f_equal. apply IH. intros a' Ha'. apply Hall. by right.
  - split; [lia|]. intros Hall. specialize (Hall a (or_introl eq_refl)).
    congruence.
Qed.

Lemma classCount_well_formed (idx : PaxIndex) :
  (forall g, In g (classGroups idx) -> has_id_and_name g = true) ->
  classCount (validatePaxIndex idx) = length (all_classes (classGroups idx)).
Proof.
  intros Hwf. destruct (validatePaxIndex_visited idx) as (_ & _ & -> & _).
  by rewrite visited_all.
Qed.

Lemma set_lookup (m : gmap (list N) SoloClass) (k k' : list N)
    (c : SoloClass) :
  k <> str "__proto__" ->
  JsObject.set m k c !! k' = if bool_decide (k = k') then Some c else m !! k'.
Proof.
  intros Hk. unfold JsObject.set. rewrite bool_decide_eq_false_2 by done.
  destruct (bool_decide_reflect (k = k')) as [->|Hne].
  - apply lookup_insert_eq.
  - by apply lookup_insert_ne.
Qed.

Lemma fold_set_lookup (cs : list SoloClass) (m : gmap (list N) SoloClass)
    (k : list N) :
  (forall c, In c cs -> code c <> str "__proto__") ->
  (forall c, In c cs -> code c <> k) ->
  fold_left (fun acc c => JsObject.set acc (code c) c) cs m !! k = m !! k.
Proof.
  revert m. induction cs as [|c cs IH]; intros m Hp Hk; [done|].
  cbn [fold_left]. rewrite IH.
  - rewrite set_lookup by (apply Hp; by left).
    rewrite bool_decide_eq_false_2; [done|]. apply Hk. by left.
  - intros c' Hc'. apply Hp. by right.
  - intros c' Hc'. apply Hk. by right.
Qed.

(** The class under a code is the last class of the list with the code. *)
Lemma lookup_of_last (l1 l2 : list SoloClass) (c : SoloClass) :
  (forall c', In c' (l1 ++ c :: l2) -> code c' <> str "__proto__") ->
  (forall c', In c' l2 -> code c' <> code c) ->
  lookup_of (l1 ++ c :: l2) !! code c = Some c.
Proof.
  intros Hp Hl2. unfold lookup_of.
  rewrite fold_left_app. cbn [fold_left].
  rewrite fold_set_lookup.
  - rewrite set_lookup.
    + by rewrite bool_decide_eq_true_2.
    + apply Hp. rewrite in_app_iff. right. by left.
  - intros c' Hc'. apply Hp. rewrite in_app_iff. right. by right.
  - done.
Qed.

Lemma lookup_of_none (cs : list SoloClass) (k : list N) :
  (forall c, In c cs -> code c <> str "__proto__") ->
  (forall c, In c cs -> code c <> k) ->
  lookup_of cs !! k = None.
Proof. intros Hp Hk. unfold lookup_of. by rewrite fold_set_lookup. Qed.

Lemma fold_set_size (cs : list SoloClass) (m : gmap (list N) SoloClass) :
  (forall c, In c cs -> code c <> str "__proto__") ->
  NoDup (map code cs) ->
  (forall c, In c cs -> m !! code c = None) ->
  size (fold_left (fun acc c => JsObject.set acc (code c) c) cs m)
  = (size m + length cs)%nat.
Proof.
  revert m. induction cs as [|c cs IH]; intros m Hp Hnd Hm.
  - cbn. lia.
  - cbn [fold_left map length] in *. apply NoDup_cons in Hnd as [Hc Hnd].
    rewrite IH.
    + unfold JsObject.set at 1.
      rewrite bool_decide_eq_false_2 by (apply Hp; by left).
      rewrite map_size_insert_None by (apply Hm; by left). lia.
    + intros c' Hc'. apply Hp. by right.
    + done.
    + intros c' Hc'. rewrite set_lookup by (apply Hp; by left).
      rewrite bool_decide_eq_false_2; [apply Hm; by right|].
      intros Heq. apply Hc. rewrite Heq.
      apply list_elem_of_In, in_map_iff. eauto.
Qed.

Lemma lookup_of_size (cs : list SoloClass) :
  (forall c, In c cs -> code c <> str "__proto__") ->
  NoDup (map code cs) ->
  size (lookup_of cs) = length cs.
Proof.
  intros Hp Hnd. unfold lookup_of. rewrite fold_set_size; try done.
Qed.

Lemma lookup_of_NoDup (cs : list SoloClass) (c : SoloClass) :
  (forall c', In c' cs -> code c' <> str "__proto__") ->
  NoDup (map code cs) -> In c cs ->
  lookup_of cs !! code c = Some c.
Proof.
  intros Hp Hnd Hc. apply in_split in Hc as (l1 & l2 & ->).
  apply lookup_of_last; [done|].
  intros c' Hc' Heq.
  rewrite map_app in Hnd. apply NoDup_app in Hnd as (_ & _ & Hnd).
  cbn [map] in Hnd. apply NoDup_cons in Hnd as [Hnot _].
  apply Hnot. rewrite <- Heq. apply list_elem_of_In, in_map_iff. eauto.
Qed.

Lemma no_proto_In (cs : list SoloClass) :
  Forall (fun c => code c <> str "__proto__") cs ->
  forall c, In c cs -> code c <> str "__proto__".
Proof.
  intros H c Hc. rewrite Forall_forall in H. apply H.
  by apply list_elem_of_In.
Qed.

End LookupFacts.

(** X11.  [getActiveClasses] returns the active classes of all the groups
    in order.  On a dataset whose groups all have an id and a name it
    returns no more classes than [validatePaxIndex] counts, and as many
    exactly when every class is active. *)
Theorem getActiveClasses_count (idx : PaxIndex) :
  (forall g, In g (classGroups idx) -> has_id_and_name g = true) ->
  getActiveClasses idx
  = List.filter isActive (all_classes (classGroups idx))
  /\ (length (getActiveClasses idx) <= classCount (validatePaxIndex idx))%nat
  /\ (length (getActiveClasses idx) = classCount (validatePaxIndex idx)
      <-> forall c, In c (all_classes (classGroups idx)) -> isActive c = true).
Proof.
  intros Hwf. rewrite classCount_well_formed by done.
  split; [reflexivity|]. split.
  - apply filter_length_le.
  - apply filter_length_eq.
Qed.

Lemma getActiveClasses_count_witness :
  getActiveClasses prosolo2024
  = List.filter isActive (all_classes (classGroups prosolo2024))
  /\ (length (getActiveClasses prosolo2024)
      <= classCount (validatePaxIndex prosolo2024))%nat
  /\ (length (getActiveClasses prosolo2024)
      = classCount (validatePaxIndex prosolo2024)
      <-> forall c, In c (all_classes (classGroups prosolo2024)) ->
                    isActive c = true).
Proof.
  apply getActiveClasses_count.
  intros g Hg. cbn in Hg.
  repeat (destruct Hg as [<-|Hg]; [reflexivity|]). destruct Hg.
Defined.

(** X12.  A lookup table built as the data files build theirs, by assigning
    every class of the groups under its code to an empty object, finds
    under a code the last class that has it and nothing under a code no
    class has; when the codes are distinct it has one key per class.  No
    code may be [__proto__], whose assignment adds no key. *)
Theorem findClassByCode_of_built_table (idx : PaxIndex) :
  classesByCode idx = lookup_of (all_classes (classGroups idx)) ->
  Forall (fun c => code c <> str "__proto__")
    (all_classes (classGroups idx)) ->
  (forall (l1 l2 : list SoloClass) (c : SoloClass),
      all_classes (classGroups idx) = l1 ++ c :: l2 ->
      (forall c', In c' l2 -> code c' <> code c) ->
      findClassByCode (code c) idx = Own c)
  /\ (forall k : list N,
         (forall c, In c (all_classes (classGroups idx)) -> code c <> k) ->
         findClassByCode k idx
         = if bool_decide (k ∈ object_prototype) then Inherited k
           else Undefined)
  /\ (NoDup (map code (all_classes (classGroups idx))) ->
      size (classesByCode idx) = length (all_classes (classGroups idx))).
Proof.
  intros Htable Hp. pose proof (no_proto_In _ Hp) as Hp'. clear Hp.
  unfold findClassByCode, get. rewrite Htable.
  split; [|split].
  - intros l1 l2 c Hsplit Hl2. rewrite Hsplit in *.
    by rewrite lookup_of_last.
  - intros k Hk. by rewrite lookup_of_none.
  - intros Hnd. by apply lookup_of_size.
Qed.

Lemma findClassByCode_of_built_table_witness :
  (forall (l1 l2 : list SoloClass) (c : SoloClass),
      all_classes (classGroups prosolo2024) = l1 ++ c :: l2 ->
      (forall c', In c' l2 -> code c' <> code c) ->
      findClassByCode (code c) prosolo2024 = Own c)
  /\ (forall k : list N,
         (forall c, In c (all_classes (classGroups prosolo2024)) ->
                    code c <> k) ->
         findClassByCode k prosolo2024
         = if bool_decide (k ∈ object_prototype) then Inherited k
           else Undefined)
  /\ (NoDup (map code (all_classes (classGroups prosolo2024))) ->
      size (classesByCode prosolo2024)
      = length (all_classes (classGroups prosolo2024))).
Proof.
  apply findClassByCode_of_built_table; [reflexivity|].
  apply (bool_decide_unpack _). vm_compute. exact I.
Defined.

(** X16.  The ProSolo 2024 data pass their own validation: [validatePaxIndex]
    reports no error and no warning for the 49 classes in 10 groups, every
    class is active, and [findClassByCode] finds every class under its
    code. *)
Theorem prosolo2024_consistent :
  validatePaxIndex prosolo2024
  = {| isValid := true; errors := []; warnings := [];
       classCount := 49; groupCount := 10 |}
  /\ getActiveClasses prosolo2024 = all_classes (classGroups prosolo2024)
  /\ (forall c, In c (all_classes (classGroups prosolo2024)) ->
                findClassByCode (code c) prosolo2024 = Own c).
Proof.
  split; [vm_compute; reflexivity|]. split; [reflexivity|].
  intros c Hc. unfold findClassByCode, get.
  change (classesByCode prosolo2024)
    with (lookup_of (all_classes (classGroups prosolo2024))).
  rewrite (lookup_of_NoDup _ c); [done| | |done].
  - apply no_proto_In. apply (bool_decide_unpack _). vm_compute. exact I.
  - apply (bool_decide_unpack _). vm_compute. exact I.
Qed.

(** ** The order of the numbers *)

Section NumberOrder.

Local Open Scope js_scope.

Lemma bounded_range (m : positive) (e : Z) :
  bounded prec emax m e = true ->
  (-1074 <= e <= 971)%Z /\ (Zpos m < 2 ^ 53)%Z
  /\ ((-1074 < e)%Z -> (2 ^ 52 <= Zpos m)%Z).
Proof.
  unfold bounded, canonical_mantissa, fexp, SpecFloat.emin, prec, emax.
  intros [Hc He]%andb_prop. apply Z.eqb_eq in Hc. apply Z.leb_le in He.
  rewrite digits2_pos_log2 in Hc.
  pose proof (Z.log2_spec (Zpos m) eq_refl) as Hlog.
  set (k := Z.log2 (Zpos m)) in *.
  assert (Hk : (0 <= k)%Z) by apply Z.log2_nonneg.
  split; [lia|]. split.
  - eapply Z.lt_le_trans; [apply Hlog|]. apply Z.pow_le_mono_r; lia.
  - intros Hn. assert (k = 52%Z) as Hk52 by lia. rewrite Hk52 in Hlog. lia.
Qed.

Lemma place_of_finite (m : positive) (e : Z) :
  bounded prec emax m e = true ->
  (0 < Zpos m * 2 ^ (e + 1074) < beyond)%Z.
Proof.
  intros (He & Hm & _)%bounded_range.
  assert (Hp : (0 < 2 ^ (e + 1074))%Z) by (apply Z.pow_pos_nonneg; lia).
  split; [lia|].
  assert (Hle : (2 ^ (e + 1074) < 2 ^ 2046)%Z)
    by (apply Z.pow_lt_mono_r; lia).
  apply Z.lt_le_trans with (2 ^ 53 * 2 ^ 2046)%Z.
  - apply Z.mul_lt_mono_nonneg; lia.
  - unfold beyond. rewrite <- Z.pow_add_r by lia.
    apply Z.pow_le_mono_r; lia.
Qed.

Lemma beyond_pos : (0 < beyond)%Z.
Proof. unfold beyond. apply Z.pow_pos_nonneg; lia. Qed.

Lemma compare_places (m1 m2 : positive) (e1 e2 : Z) :
  bounded prec emax m1 e1 = true -> bounded prec emax m2 e2 = true ->
  match (e1 ?= e2)%Z with
  | Eq => Pos.compare_cont Eq m1 m2
  | Lt => Lt
  | Gt => Gt
  end
  = (Zpos m1 * 2 ^ (e1 + 1074) ?= Zpos m2 * 2 ^ (e2 + 1074))%Z.
Proof.
  intros (He1 & Hm1 & Hn1)%bounded_range (He2 & Hm2 & Hn2)%bounded_range.
  assert (Hstep : forall ma mb ea eb,
             (-1074 <= ea < eb)%Z -> (Zpos ma < 2 ^ 53)%Z ->
             (2 ^ 52 <= Zpos mb)%Z ->
             (Zpos ma * 2 ^ (ea + 1074) < Zpos mb * 2 ^ (eb + 1074))%Z).
  { intros ma mb ea eb Hab Hma Hmb.
    replace (eb + 1074)%Z with ((eb - ea - 1) + 1 + (ea + 1074))%Z by lia.
    rewrite (Z.pow_add_r 2 (eb - ea - 1 + 1) (ea + 1074)),
      (Z.pow_add_r 2 (eb - ea - 1) 1) by lia.
    change (2 ^ 1)%Z with 2%Z.
    assert (0 < 2 ^ (ea + 1074))%Z by (apply Z.pow_pos_nonneg; lia).
    assert (0 < 2 ^ (eb - ea - 1))%Z by (apply Z.pow_pos_nonneg; lia).
    change (2 ^ 53)%Z with (2 * 2 ^ 52)%Z in Hma.
    set (A := (2 ^ (ea + 1074))%Z) in *. set (B := (2 ^ (eb - ea - 1))%Z) in *.
    set (C := (2 ^ 52)%Z) in *.
    assert (0 < C)%Z by done. clearbody A B C.
    assert (C * 1 <= Z.pos mb * B)%Z by (apply Z.mul_le_mono_nonneg; lia).
    assert (Z.pos ma < Z.pos mb * (B * 2))%Z by lia.
    rewrite (Z.mul_assoc (Z.pos mb)).
    apply Z.mul_lt_mono_pos_r; [done|lia]. }
  destruct (Z.compare_spec e1 e2) as [->|Hlt|Hgt].
  - rewrite <- Zmult_compare_compat_r
      by (apply Z.lt_gt, Z.pow_pos_nonneg; lia).
    reflexivity.
  - symmetry. apply Z.compare_lt_iff. apply Hstep; [lia|done|]. apply Hn2. lia.
  - symmetry. apply Z.compare_gt_iff. apply Hstep; [lia|done|]. apply Hn1. lia.
Qed.

(** Comparing two numbers is comparing their places. *)
Lemma compare_place_of (x y : number) :
  is_real x = true -> is_real y = true ->
  SFcompare x y = Some (place_of x ?= place_of y)%Z.
Proof.
  pose proof beyond_pos as Hb.
  destruct x as [sx|sx| |sx mx ex], y as [sy|sy| |sy my ey];
    try discriminate; cbn [is_real is_double valid_binary];
    intros Hx Hy; cbn [SFcompare place_of cond_Zopp]; f_equal; symmetry;
    try (pose proof (place_of_finite _ _ Hx) as HPx);
    try (pose proof (place_of_finite _ _ Hy) as HPy).
  all: try (repeat match goal with b : bool |- _ => destruct b end;
            cbn [cond_Zopp];
            first [apply Z.compare_eq_iff; lia
                  |apply Z.compare_lt_iff; lia
                  |apply Z.compare_gt_iff; lia]).
  destruct sx, sy; cbn [cond_Zopp].
  - rewrite Z.compare_opp, <- (compare_places _ _ _ _ Hy Hx).
    rewrite (Z.compare_antisym ex ey).
    destruct (ex ?= ey)%Z; cbn [CompOpp]; try reflexivity.
    apply (Pos.compare_antisym mx my).
  - apply Z.compare_lt_iff. lia.
  - apply Z.compare_gt_iff. lia.
  - by rewrite (compare_places _ _ _ _ Hx Hy).
Qed.

Lemma ltb_place_of (x y : number) :
  is_real x = true -> is_real y = true ->
  (x < y) = (place_of x <? place_of y)%Z.
Proof.
  intros Hx Hy. unfold ltb, SFltb, Z.ltb.
  by rewrite (compare_place_of x y Hx Hy).
Qed.

Lemma strictly_equal_place_of (x y : number) :
  is_real x = true -> is_real y = true ->
  JsArray.strictly_equal x y = (place_of x =? place_of y)%Z.
Proof.
  intros Hx Hy. unfold JsArray.strictly_equal, SFeqb.
  by rewrite Z.eqb_compare, (compare_place_of x y Hx Hy).
Qed.

End NumberOrder.

(** ** The sign of a difference *)

Section DifferenceSign.

Local Open Scope js_scope.

Lemma shr_fexp_positive (m : positive) (e : Z) (l : location) :
  (-1074 <= e)%Z ->
  (0 < shr_m (fst (shr_fexp prec emax (Zpos m) e l)))%Z
  /\ (-1074 <= snd (shr_fexp prec emax (Zpos m) e l))%Z.
Proof.
  intros He. unfold shr_fexp, Zdigits2, shr.
  rewrite digits2_pos_log2.
  pose proof (Z.log2_spec (Zpos m) eq_refl) as Hlog.
  set (k := Z.log2 (Zpos m)) in *.
  assert (Hk : (0 <= k)%Z) by apply Z.log2_nonneg.
  unfold fexp, SpecFloat.emin, prec, emax.
  destruct (Z.max (k + 1 + e - 53) (3 - 1024 - 53) - e)%Z as [|p|p] eqn:Hp;
    cbn [fst snd]; rewrite ?shr_m_record_of_loc; try (split; lia).
  rewrite iter_pos_iter, iter_shr_1_div
    by (rewrite shr_m_record_of_loc; lia).
  rewrite shr_m_record_of_loc. split; [|lia].
  apply Z.div_str_pos. split; [apply Z.pow_pos_nonneg; lia|].
  apply Z.le_trans with (2 ^ k)%Z; [|lia].
  apply Z.pow_le_mono_r; lia.
Qed.

Lemma round_nearest_even_positive (q : Z) (l : location) :
  (0 < q)%Z -> (0 < round_nearest_even q l)%Z.
Proof.
  intros Hq. unfold round_nearest_even.
  destruct l as [|[]]; try destruct (Z.even q); lia.
Qed.

(** A magnitude that is not zero does not round to zero, the exponent
    being that of a number. *)
Lemma binary_round_aux_positive (m : positive) (e : Z) (l : location) :
  (-1074 <= e)%Z ->
  (binary_round_aux prec emax false (Zpos m) e l > zero) = true.
Proof.
  intros He. unfold binary_round_aux.
  destruct (shr_fexp_positive m e l He) as [H1 He'].
  destruct (shr_fexp prec emax (Zpos m) e l) as [mrs e'].
  cbn [fst snd] in H1, He'.
  pose proof (round_nearest_even_positive _ (loc_of_shr_record mrs) H1) as Hq.
  destruct (round_nearest_even (shr_m mrs) (loc_of_shr_record mrs))
    as [|q|q]; try lia.
  destruct (shr_fexp_positive q e' loc_Exact He') as [H2 _].
  destruct (shr_fexp prec emax (Zpos q) e' loc_Exact) as [mrs' e''].
  cbn [fst] in H2.
  destruct (shr_m mrs') as [|m'|m']; try lia.
  by destruct (e'' <=? emax - prec)%Z.
Qed.

Lemma binary_round_positive (m : positive) (e : Z) :
  (-1074 <= e)%Z -> (binary_round prec emax false m e > zero) = true.
Proof.
  intros He. unfold binary_round, shl_align.
  set (f := fexp prec emax (Zpos (digits2_pos m) + e)).
  assert (Hf : (-1074 <= f)%Z).
  { unfold f, fexp, SpecFloat.emin, prec, emax. lia. }
  destruct (f - e)%Z; by apply binary_round_aux_positive.
Qed.

Lemma binary_round_not_positive (m : positive) (e : Z) :
  (binary_round prec emax true m e > zero) = false.
Proof.
  unfold binary_round. destruct (shl_align _ _ _) as [mz ez].
  apply binary_round_aux_not_positive.
Qed.

Lemma shl_align_place (m : positive) (e ez : Z) :
  (-1074 <= ez <= e)%Z ->
  (Zpos (fst (shl_align m e ez)) * 2 ^ (ez + 1074)
   = Zpos m * 2 ^ (e + 1074))%Z.
Proof.
  intros He. unfold shl_align.
  destruct (ez - e)%Z as [|d|d] eqn:Hd; cbn [fst]; try lia.
  - by replace ez with e by lia.
  - rewrite iter_xO_pow2, <- Z.mul_assoc, <- Z.pow_add_r by lia.
    do 2 f_equal. lia.
Qed.

Lemma cond_Zopp_mul (s : bool) (a b : Z) :
  (cond_Zopp s a * b = cond_Zopp s (a * b))%Z.
Proof. destruct s; cbn [cond_Zopp]; lia. Qed.

(** [y - x > 0] exactly when [x < y], for numbers: no difference of two
    different numbers rounds to zero. *)
Lemma sub_positive (x y : number) :
  is_real x = true -> is_real y = true ->
  (y - x > zero) = (place_of x <? place_of y)%Z.
Proof.
  pose proof beyond_pos as Hb.
  destruct x as [sx|sx| |sx mx ex], y as [sy|sy| |sy my ey];
    try discriminate; cbn [is_real is_double valid_binary];
    intros Hx Hy;
    try (pose proof (place_of_finite _ _ Hx) as HPx);
    try (pose proof (place_of_finite _ _ Hy) as HPy).
  all: try (repeat match goal with b : bool |- _ => destruct b end;
            cbn [sub SFsub ltb SFltb SFcompare zero place_of cond_Zopp negb];
            first [symmetry; apply Z.ltb_lt; lia
                  |symmetry; apply Z.ltb_ge; lia]).
  destruct (bounded_range _ _ Hx) as (Hex & _ & _).
  destruct (bounded_range _ _ Hy) as (Hey & _ & _).
  unfold sub, SFsub. cbv zeta.
  set (ez := Z.min ey ex).
  pose proof (shl_align_place my ey ez ltac:(lia)) as HY.
  pose proof (shl_align_place mx ex ez ltac:(lia)) as HX.
  set (Y := Zpos (fst (shl_align my ey ez))) in *.
  set (X := Zpos (fst (shl_align mx ex ez))) in *.
  cbn [place_of]. rewrite <- HX, <- HY, <- !cond_Zopp_mul.
  assert (HP : (0 < 2 ^ (ez + 1074))%Z) by (apply Z.pow_pos_nonneg; lia).
  set (P := (2 ^ (ez + 1074))%Z) in *. clearbody P X Y.
  assert (Hrel : (cond_Zopp sx X * P <? cond_Zopp sy Y * P)%Z
                 = (0 <? cond_Zopp sy Y - cond_Zopp sx X)%Z).
  { destruct (Z.ltb_spec 0 (cond_Zopp sy Y - cond_Zopp sx X)) as [H|H].
    - apply Z.ltb_lt. apply Z.mul_lt_mono_pos_r; lia.
    - apply Z.ltb_ge. apply Z.mul_le_mono_nonneg_r; lia. }
  rewrite Hrel.
  destruct (cond_Zopp sy Y - cond_Zopp sx X)%Z as [|d|d];
    cbn [binary_normalize].
  - reflexivity.
  - apply binary_round_positive. lia.
  - apply binary_round_not_positive.
Qed.

End DifferenceSign.

(** ** Sorting *)

Section SortFacts.

Local Open Scope js_scope.

Context {A : Type}.
Variable comparefn : A -> A -> number.

Lemma place_In (a x : A) (sorted : list A) :
  In x (JsArray.place comparefn a sorted) <-> x = a \/ In x sorted.
Proof.
  induction sorted as [|b rest IH]; cbn [JsArray.place].
  - cbn. intuition.
  - destruct (comparefn a b > zero).
    + change (b = x \/ In x (JsArray.place comparefn a rest)
              <-> x = a \/ b = x \/ In x rest).
      rewrite IH. intuition.
    + change (a = x \/ b = x \/ In x rest <-> x = a \/ b = x \/ In x rest).
      intuition.
Qed.

Lemma sort_In (x : A) (l : list A) :
  In x (JsArray.sort comparefn l) <-> In x l.
Proof.
  induction l as [|a l IH]; cbn [JsArray.sort]; [done|].
  rewrite place_In, IH. cbn. intuition.
Qed.

Lemma place_Permutation (a : A) (sorted : list A) :
  Permutation (JsArray.place comparefn a sorted) (a :: sorted).
Proof.
  induction sorted as [|b rest IH]; cbn [JsArray.place]; [done|].
  destruct (comparefn a b > zero); [|done].
  rewrite IH. apply perm_swap.
Qed.

Lemma sort_Permutation (l : list A) :
  Permutation (JsArray.sort comparefn l) l.
Proof.
  induction l as [|a l IH]; cbn [JsArray.sort]; [done|].
  by rewrite place_Permutation, IH.
Qed.

Lemma head_place (a : A) (sorted : list A) :
  head (JsArray.place comparefn a sorted)
  = match head sorted with
    | Some b => if comparefn a b > zero then Some b else Some a
    | None => Some a
    end.
Proof.
  destruct sorted as [|b rest]; cbn [JsArray.place head]; [done|].
  by destruct (comparefn a b > zero).
Qed.

(** The comparison sorts by a key, the greatest first. *)
Variable key : A -> Z.
Variable ok : A -> Prop.
Hypothesis comparefn_key :
  forall a b, ok a -> ok b -> (comparefn a b > zero) = (key a <? key b)%Z.

Lemma head_sort (l : list A) :
  (forall a, In a l -> ok a) ->
  head (JsArray.sort comparefn l) = first_greatest key l.
Proof.
  induction l as [|a l IH]; intros Hok; [done|].
  cbn [JsArray.sort first_greatest]. rewrite head_place.
  rewrite <- IH by (intros b Hb; apply Hok; by right).
  destruct (head (JsArray.sort comparefn l)) as [b|] eqn:Hb; [|done].
  rewrite comparefn_key; [done|apply Hok; by left|].
  apply Hok. right. apply sort_In.
  destruct (JsArray.sort comparefn l); [done|]. cbn in Hb. left. congruence.
Qed.

Lemma place_sorted (a : A) (sorted : list A) :
  ok a -> (forall b, In b sorted -> ok b) ->
  descending_by key sorted ->
  descending_by key (JsArray.place comparefn a sorted).
Proof.
  intros Ha. induction sorted as [|b rest IH]; intros Hok Hs;
    cbn [JsArray.place].
  - by cbn.
  - destruct Hs as [Hb Hs].
    rewrite comparefn_key by (done || apply Hok; by left).
    destruct (Z.ltb_spec (key a) (key b)) as [Hlt|Hge].
    + split.
      * intros x [->|Hx]%place_In; [lia|by apply Hb].
      * apply IH; [|done]. intros c Hc. apply Hok. by right.
    + split; [|by split].
      intros x [<-|Hx]; [done|]. specialize (Hb x Hx). lia.
Qed.

Lemma sort_sorted (l : list A) :
  (forall a, In a l -> ok a) ->
  descending_by key (JsArray.sort comparefn l).
Proof.
  induction l as [|a l IH]; intros Hok; cbn [JsArray.sort]; [done|].
  apply place_sorted.
  - apply Hok. by left.
  - intros b Hb. apply Hok. right. by apply sort_In.
  - apply IH. intros b Hb. apply Hok. by right.
Qed.

End SortFacts.

Section FirstGreatest.

Context {A : Type}.
Variable key : A -> Z.

Lemma first_greatest_None (l : list A) :
  first_greatest key l = None <-> l = [].
Proof.
  destruct l as [|a l]; [done|]. cbn.
  destruct (first_greatest key l) as [b|]; [|done].
  by destruct (key a <? key b)%Z.
Qed.

(** The element found has the greatest key, and is the first that has
    it. *)
Lemma first_greatest_Some (l : list A) (g : A) :
  first_greatest key l = Some g ->
  exists l1 l2,
    l = l1 ++ g :: l2
    /\ (forall x, In x l1 -> (key x < key g)%Z)
    /\ (forall x, In x l2 -> (key x <= key g)%Z).
Proof.
  revert g. induction l as [|a l IH]; intros g; [done|].
  cbn [first_greatest].
  destruct (first_greatest key l) as [b|] eqn:Hb.
  - destruct (IH b eq_refl) as (l1 & l2 & -> & H1 & H2).
    destruct (Z.ltb_spec (key a) (key b)) as [Hlt|Hge]; intros [= <-].
    + exists (a :: l1), l2. split; [done|]. split; [|done].
      intros x [<-|Hx]; [done|by apply H1].
    + exists [], (l1 ++ b :: l2). split; [done|]. split; [done|].
      intros x [Hx|[<-|Hx]]%in_app_iff.
      * specialize (H1 x Hx). lia.
      * done.
      * specialize (H2 x Hx). lia.
  - intros [= <-]. apply first_greatest_None in Hb as ->.
    exists [], []. done.
Qed.

Lemma first_greatest_map {B : Type} (f : B -> A) (l : list B) :
  first_greatest key (map f l) = f <$> first_greatest (fun b => key (f b)) l.
Proof.
  induction l as [|b l IH]; [done|]. cbn [map first_greatest].
  rewrite IH. destruct (first_greatest _ l) as [c|]; [|done].
  cbn. by destruct (_ <? _)%Z.
Qed.

End FirstGreatest.

Section FindFacts.

Context {A : Type}.

Lemma find_filter (p q : A -> bool) (l : list A) :
  List.find (fun x => p x && q x) l = List.find q (List.filter p l).
Proof.
  induction l as [|a l IH]; [done|]. cbn.
  destruct (p a); cbn; [|done]. by destruct (q a).
Qed.

Lemma find_first (q : A -> bool) (l1 l2 : list A) (a : A) :
  (forall x, In x l1 -> q x = false) -> q a = true ->
  List.find q (l1 ++ a :: l2) = Some a.
Proof.
  intros H1 Ha. induction l1 as [|b l1 IH]; cbn.
  - by rewrite Ha.
  - rewrite (H1 b) by by left. apply IH. intros x Hx. apply H1. by right.
Qed.

End FindFacts.

(** ** The data index: [data/index.ts] *)

Section DataIndexFacts.

Local Open Scope js_scope.

Lemma year_comparefn (a b : PaxIndex) :
  is_real (year a) = true -> is_real (year b) = true ->
  (year b - year a > zero)
  = (place_of (year a) <? place_of (year b))%Z.
Proof. apply sub_positive. Qed.

Lemma strictly_equal_refl (x : number) :
  is_real x = true -> JsArray.strictly_equal x x = true.
Proof.
  intros Hx. rewrite strictly_equal_place_of by done. apply Z.eqb_refl.
Qed.

Lemma filter_type_In (allIndices : list PaxIndex) (t : list N)
    (I : PaxIndex) :
  In I (List.filter (fun index => bool_decide (indexType index = t))
          allIndices)
  <-> In I allIndices /\ indexType I = t.
Proof.
  rewrite filter_In. by rewrite bool_decide_eq_true.
Qed.

(** The latest index of a type: the first of the indices of the type that
    have the greatest year. *)
Lemma getLatestIndex_first_greatest (allIndices : list PaxIndex)
    (t : list N) :
  (forall I, In I allIndices -> is_real (year I) = true) ->
  getLatestIndex allIndices t
  = first_greatest (fun index => place_of (year index))
      (List.filter (fun index => bool_decide (indexType index = t))
         allIndices).
Proof.
  intros Hreal. unfold getLatestIndex.
  apply (head_sort _ _ (fun index => is_real (year index) = true)).
  - intros a b Ha Hb. by apply year_comparefn.
  - intros a [Ha _]%filter_type_In. by apply Hreal.
Qed.

Lemma getAvailableYears_head (allIndices : list PaxIndex) (t : list N) :
  (forall I, In I allIndices -> is_real (year I) = true) ->
  head (getAvailableYears allIndices t)
  = year <$> getLatestIndex allIndices t.
Proof.
  intros Hreal. rewrite getLatestIndex_first_greatest by done.
  unfold getAvailableYears.
  rewrite (head_sort _ place_of (fun y => is_real y = true)).
  - apply first_greatest_map.
  - intros a b Ha Hb. by apply sub_positive.
  - intros y (I & <- & [HI _]%filter_type_In)%in_map_iff. by apply Hreal.
Qed.

Lemma descending_by_place_of (l : list number) :
  (forall y, In y l -> is_real y = true) ->
  descending_by place_of l -> descending l.
Proof.
  induction l as [|a l IH]; intros Hreal; [done|]. intros [Ha Hl].
  split.
  - intros b Hb. rewrite ltb_place_of.
    + apply Z.ltb_ge. by apply Ha.
    + apply Hreal. by left.
    + apply Hreal. by right.
  - apply IH; [|done]. intros y Hy. apply Hreal. by right.
Qed.

End DataIndexFacts.

(** X13.  [getLatestIndex] returns, of the indices of the type asked for,
    one with the greatest year, and the first of those in [allIndices];
    it is the index [getIndexByTypeAndYear] finds for that type and year.
    It returns [undefined] only when no index has the type.  The years are
    numbers, none of them [NaN]. *)
Theorem getLatestIndex_greatest (allIndices : list PaxIndex) (t : list N) :
  (forall I, In I allIndices -> is_real (year I) = true) ->
  match getLatestIndex allIndices t with
  | Some L =>
      In L allIndices /\ indexType L = t
      /\ (forall I, In I allIndices -> indexType I = t ->
                    (year L < year I)%js = false)
      /\ getIndexByTypeAndYear allIndices t (year L) = Some L
  | None => forall I, In I allIndices -> indexType I <> t
  end.
Proof.
  intros Hreal. rewrite getLatestIndex_first_greatest by done.
  set (F := List.filter _ allIndices).
  destruct (first_greatest _ F) as [L|] eqn:HL.
  - apply first_greatest_Some in HL as (l1 & l2 & HF & H1 & H2).
    assert (HinF : forall I, In I F <-> In I allIndices /\ indexType I = t)
      by apply filter_type_In.
    assert (HLin : In L allIndices /\ indexType L = t).
    { apply HinF. rewrite HF, in_app_iff. right. by left. }
    destruct HLin as [HLin HLt].
    split; [done|]. split; [done|]. split.
    + intros I HI Ht. rewrite ltb_place_of by auto.
      apply Z.ltb_ge.
      assert (HIF : In I F) by by apply HinF.
      rewrite HF in HIF. apply in_app_iff in HIF as [HI1|[<-|HI2]].
      * specialize (H1 I HI1). lia.
      * lia.
      * by apply H2.
    + unfold getIndexByTypeAndYear, JsArray.find.
      rewrite (find_filter (fun index => bool_decide (indexType index = t))).
      fold F. rewrite HF. apply find_first.
      * intros I HI1. rewrite strictly_equal_place_of.
        -- apply Z.eqb_neq. specialize (H1 I HI1). lia.
        -- apply Hreal, HinF. rewrite HF, in_app_iff. by left.
        -- by apply Hreal.
      * apply strictly_equal_refl. by apply Hreal.
  - apply first_greatest_None in HL. intros I HI Ht.
    assert (HIF : In I F) by by apply filter_type_In.
    by rewrite HL in HIF.
Qed.

Lemma getLatestIndex_greatest_witness :
  In prosolo2024 [prosolo2024] /\ indexType prosolo2024 = str "ProSolo"
  /\ (forall I, In I [prosolo2024] -> indexType I = str "ProSolo" ->
                (year prosolo2024 < year I)%js = false)
  /\ getIndexByTypeAndYear [prosolo2024] (str "ProSolo") (year prosolo2024)
     = Some prosolo2024.
Proof.
  apply (getLatestIndex_greatest [prosolo2024] (str "ProSolo")).
  intros I [<-|[]]. reflexivity.
Defined.

(** X14.  [getAvailableYears] returns the years of the indices of the type,
    each as often as it occurs, the greatest first, and its first element
    is the year of [getLatestIndex].  The years are numbers, none of them
    [NaN]. *)
Theorem getAvailableYears_descending (allIndices : list PaxIndex)
    (t : list N) :
  (forall I, In I allIndices -> is_real (year I) = true) ->
  descending (getAvailableYears allIndices t)
  /\ Permutation (getAvailableYears allIndices t)
       (map year
          (List.filter (fun index => bool_decide (indexType index = t))
             allIndices))
  /\ head (getAvailableYears allIndices t)
     = year <$> getLatestIndex allIndices t.
Proof.
  intros Hreal.
  assert (Hys : forall y, In y (map year
                  (List.filter (fun index => bool_decide (indexType index = t))
                     allIndices)) -> is_real y = true).
  { intros y (I & <- & [HI _]%filter_type_In)%in_map_iff. by apply Hreal. }
  split; [|split].
  - apply descending_by_place_of.
    + intros y Hy. apply Hys. by apply sort_In in Hy.
    + apply (sort_sorted _ _ (fun y => is_real y = true)); [|done].
      intros a b Ha Hb. by apply sub_positive.
  - apply sort_Permutation.
  - by apply getAvailableYears_head.
Qed.

Lemma getAvailableYears_descending_witness :
  descending (getAvailableYears [prosolo2024] (str "ProSolo"))
  /\ Permutation (getAvailableYears [prosolo2024] (str "ProSolo"))
       (map year
          (List.filter
             (fun index => bool_decide (indexType index = str "ProSolo"))
             [prosolo2024]))
  /\ head (getAvailableYears [prosolo2024] (str "ProSolo"))
     = year <$> getLatestIndex [prosolo2024] (str "ProSolo").
Proof.
  apply getAvailableYears_descending.
  intros I [<-|[]]. reflexivity.
Defined.

(** X15.  [getIndexByTypeAndYear] finds an index exactly for the years that
    [getAvailableYears] lists for the type ([===] on the years, so never
    for [NaN]); the index found is the first of [allIndices] with the type
    and the year. *)
Theorem getIndexByTypeAndYear_available (allIndices : list PaxIndex)
    (t : list N) (y : number) :
  (is_Some (getIndexByTypeAndYear allIndices t y)
   <-> exists y', In y' (getAvailableYears allIndices t)
                  /\ JsArray.strictly_equal y' y = true)
  /\ (forall I, getIndexByTypeAndYear allIndices t y = Some I ->
        exists l1 l2,
          allIndices = l1 ++ I :: l2 /\ indexType I = t
          /\ JsArray.strictly_equal (year I) y = true
          /\ forall I', In I' l1 ->
               indexType I' <> t
               \/ JsArray.strictly_equal (year I') y = false).
Proof.
  unfold getIndexByTypeAndYear, getAvailableYears, JsArray.find.
  split.
  - split.
    + intros [I HI]. apply find_some in HI as [HI [Ht Hy]%andb_prop].
      apply bool_decide_eq_true in Ht.
      exists (year I). split; [|done].
      apply sort_In, in_map_iff. exists I. split; [done|].
      by apply filter_type_In.
    + intros (y' & Hin & Hy).
      apply sort_In, in_map_iff in Hin as (I & <- & [HI Ht]%filter_type_In).
      destruct (List.find _ allIndices) as [I'|] eqn:Hf; [by eexists|].
      pose proof (find_none _ _ Hf I HI) as Hno. cbn in Hno.
      rewrite Hy, bool_decide_eq_true_2 in Hno by done. discriminate.
  - induction allIndices as [|a l IH]; intros I; [done|].
    cbn [List.find].
    destruct (bool_decide_reflect (indexType a = t)) as [Ht|Ht]; cbn [andb].
    + destruct (JsArray.strictly_equal (year a) y) eqn:Hy.
      * intros [= <-]. exists [], l. done.
      * intros HI. destruct (IH I HI) as (l1 & l2 & -> & H1 & H2 & H3).
        exists (a :: l1), l2. split; [done|]. split; [done|]. split; [done|].
        intros I' [<-|HI']; [by right|by apply H3].
    + intros HI. destruct (IH I HI) as (l1 & l2 & -> & H1 & H2 & H3).
      exists (a :: l1), l2. split; [done|]. split; [done|]. split; [done|].
      intros I' [<-|HI']; [by left|by apply H3].
Qed.

(** ** The stores: [stores.ts] *)

Section StoreFacts.

Local Open Scope js_scope.

Lemma fold_set_In (cs : list SoloClass) (m : gmap (list N) SoloClass)
    (k : list N) (a : SoloClass) :
  fold_left (fun acc c => JsObject.set acc (code c) c) cs m !! k = Some a ->
  In a cs \/ m !! k = Some a.
Proof.
  revert m. induction cs as [|c cs IH]; intros m; [by right|].
  cbn [fold_left]. intros [H|H]%IH; [left; by right|].
  unfold JsObject.set in H.
  destruct (bool_decide (code c = str "__proto__")); [by right|].
  destruct (decide (code c = k)) as [<-|Hne].
  - rewrite lookup_insert_eq in H. left. left. congruence.
  - rewrite lookup_insert_ne in H by done. by right.
Qed.

(** What a built table holds is a class of the groups. *)
Lemma lookup_of_In (cs : list SoloClass) (k : list N) (a : SoloClass) :
  lookup_of cs !! k = Some a -> In a cs.
Proof.
  intros [H|H]%fold_set_In; [done|]. by rewrite lookup_empty in H.
Qed.

Lemma get_Own {A : Type} (m : gmap (list N) A) (k : list N) (a : A) :
  get m k = Own a <-> m !! k = Some a.
Proof.
  unfold get. destruct (m !! k) as [a'|].
  - split; congruence.
  - split; [|done]. by destruct (bool_decide _).
Qed.

Lemma selected_Own (select : UserPreferences -> option (list N))
    (idx : PaxIndex) (preferences : UserPreferences) (a : SoloClass) :
  match select preferences with
  | Some classCode =>
      if empty classCode then Undefined else findClassByCode classCode idx
  | None => Undefined
  end = Own a ->
  exists k, classesByCode idx !! k = Some a.
Proof.
  destruct (select preferences) as [k|]; [|done].
  destruct (empty k); [done|]. intros H%get_Own. eauto.
Qed.

Lemma valid_positive (idx : PaxIndex) (a : SoloClass) :
  isValid (validatePaxIndex idx) = true ->
  In a (all_classes (classGroups idx)) ->
  (paxIndex a <= zero) = false.
Proof.
  intros (_ & _ & Hcls & _)%validatePaxIndex_valid Ha.
  apply classes_errors_nil in Hcls as (_ & _ & Hok).
  by destruct (Hok a Ha).
Qed.

End StoreFacts.

(** X17.  The current index always has the preferred type: whichever of the
    three ways [currentPaxIndex] takes (the latest index when [autoUpdate]
    is set, else the pinned version, else the index of the store), what it
    returns has the type of the preferences, and is one of the indices of
    the store or its current index.  With [autoUpdate] set it is what
    [getLatestIndex] of [data/index.ts] gives on the indices of the store,
    whatever version is pinned. *)
Theorem currentPaxIndex_has_preferred_type (paxData : PaxIndexMetadata)
    (preferences : UserPreferences) :
  (autoUpdate preferences = true ->
   currentPaxIndex paxData preferences
   = getLatestIndex (indices paxData) (pref_indexType preferences))
  /\ (forall I : PaxIndex,
         currentPaxIndex paxData preferences = Some I ->
         indexType I = pref_indexType preferences
         /\ (In I (indices paxData) \/ currentIndex paxData = Some I)).
Proof.
  unfold currentPaxIndex. split; [by intros ->|]. intros I.
  assert (Hfallback :
            match currentIndex paxData with
            | Some index =>
                if bool_decide (indexType index = pref_indexType preferences)
                then Some index else None
            | None => None
            end = Some I ->
            indexType I = pref_indexType preferences
            /\ (In I (indices paxData) \/ currentIndex paxData = Some I)).
  { destruct (currentIndex paxData) as [index|]; [|done].
    destruct (bool_decide_reflect
                (indexType index = pref_indexType preferences)); [|done].
    intros [= <-]. auto. }
  destruct (autoUpdate preferences).
  - unfold paxData_getLatestIndex. intros HI.
    assert (Hin : In I (JsArray.sort (fun a b => (year b - year a)%js)
                          (List.filter
                             (fun index =>
                                bool_decide
                                  (indexType index
                                   = pref_indexType preferences))
                             (indices paxData)))).
    { destruct (JsArray.sort _ _) as [|x l]; [done|].
      cbn in HI. left. congruence. }
    apply sort_In, filter_type_In in Hin as [Hin Ht]. auto.
  - destruct (pinnedVersion preferences) as [pinned|]; [|done].
    destruct (empty pinned); [done|].
    intros [Hin [Ht _]%andb_prop]%find_some.
    apply bool_decide_eq_true in Ht. auto.
Qed.


(** X19.  On a dataset that is valid and whose table was built from its
    groups, a selected pair of classes can always be converted: with a
    positive time [calculator.calculate] returns a result and leaves no
    error in the store. *)
Theorem calculate_on_valid_dataset (idx : PaxIndex)
    (preferences : UserPreferences) (browser : bool) (now : list N)
    (t : number) (a b : SoloClass) (state : CalculatorState) :
  isValid (validatePaxIndex idx) = true ->
  classesByCode idx = lookup_of (all_classes (classGroups idx)) ->
  selectedInputClass (Some idx) preferences = Own a ->
  selectedOutputClass (Some idx) preferences = Own b ->
  (t > zero)%js = true ->
  exists r : PaxCalculationResult,
    calculate browser now t a b state
    = ({| currentTime := currentTime state; lastResult := Some r;
          isCalculating := false; error := None |},
       Return r, saveToStorage browser LAST_CALCULATION r).
Proof.
  intros Hvalid Htable Ha Hb Ht.
  apply (selected_Own pref_inputClass) in Ha as [ka Ha].
  apply (selected_Own pref_outputClass) in Hb as [kb Hb].
  rewrite Htable in Ha, Hb.
  apply lookup_of_In in Ha, Hb.
  pose proof (valid_positive idx a Hvalid Ha) as Hpa.
  pose proof (valid_positive idx b Hvalid Hb) as Hpb.
  unfold calculate.
  rewrite (calculatePaxTime_returns now t a b (gt_zero_not_le t Ht) Hpa Hpb).
  eexists. reflexivity.
Qed.

Lemma calculate_on_valid_dataset_witness :
  exists r : PaxCalculationResult,
    calculate true [] (dec 60123 3)
      (entry "SS" "Super Street" (dec 844 3))
      (entry "AS" "A Street" (dec 83 2))
      {| currentTime := str "60.123"; lastResult := None;
         isCalculating := false; error := None |}
    = ({| currentTime := str "60.123"; lastResult := Some r;
          isCalculating := false; error := None |},
       Return r, saveToStorage true LAST_CALCULATION r).
Proof.
  apply (calculate_on_valid_dataset prosolo2024
           {| pref_indexType := str "ProSolo"; viewMode := str "Direct";
              pref_inputClass := Some (str "SS");
              pref_outputClass := Some (str "AS");
              lastTime := []; autoUpdate := true; pinnedVersion := None |});
    vm_compute; reflexivity.
Defined.

(** X20.  A class counts as selected whenever the lookup gives anything:
    [selectedInputClass] is [undefined] exactly when there is no current
    index, the preference is unset or empty, or the code is neither a key
    of the table nor the name of a member of [Object.prototype]; and
    [canCalculate] holds exactly when neither selection is [undefined], the
    time is not blank and no calculation is running. *)
Theorem selectedInputClass_undefined (current : option PaxIndex)
    (preferences : UserPreferences) (selectedOutput : property SoloClass)
    (calculator : CalculatorState) :
  (selectedInputClass current preferences = Undefined
   <-> current = None
       \/ pref_inputClass preferences = None
       \/ pref_inputClass preferences = Some []
       \/ exists idx k,
            current = Some idx /\ pref_inputClass preferences = Some k
            /\ classesByCode idx !! k = None /\ k ∉ object_prototype)
  /\ (canCalculate (selectedInputClass current preferences) selectedOutput
        calculator = true
      <-> selectedInputClass current preferences <> Undefined
          /\ selectedOutput <> Undefined
          /\ trim (currentTime calculator) <> []
          /\ isCalculating calculator = false).
Proof.
  split.
  - unfold selectedInputClass, findClassByCode, get.
    destruct current as [idx|]; [|split; auto].
    destruct (pref_inputClass preferences) as [k|]; [|split; auto].
    destruct k as [|c k]; [split; auto|]. cbn [empty].
    destruct (classesByCode idx !! (c :: k)) as [a|] eqn:Hk.
    + split; [done|].
      intros [H|[H|[H|(idx' & k' & [= <-] & [= <-] & H & _)]]]; congruence.
    + destruct (bool_decide_reflect ((c :: k) ∈ object_prototype)) as [Hin|Hin].
      * split; [done|].
        intros [H|[H|[H|(idx' & k' & [= <-] & [= <-] & _ & H)]]];
          try congruence; by destruct H.
      * split; [|done]. intros _. do 3 right. by exists idx, (c :: k).
  - unfold canCalculate, defined.
    destruct (selectedInputClass current preferences), selectedOutput,
      (trim (currentTime calculator)), (isCalculating calculator);
      cbn; split; try done; try tauto; intros (? & ? & ? & ?); done.
Qed.

(** ** The shape of a formatted time *)

Section FormatShape.

Local Open Scope N_scope.

Lemma digits_of_head_nonzero (n : N) :
  1 <= n -> exists c r, digits_of n = c :: r /\ c <> 48.
Proof.
  induction n as [n IH] using (well_founded_induction N.lt_wf_0).
  intros Hn. destruct (N.lt_ge_cases n 10) as [Hlt|Hge].
  - rewrite digits_of_small by done. exists (48 + n), []. split; [done|lia].
  - pose proof (N.Div0.div_mod n 10) as Hdm.
    pose proof (N.mod_lt n 10 ltac:(done)) as Hr.
    set (q := n / 10) in *. set (r := n mod 10) in *.
    assert (Hq : 1 <= q) by lia.
    destruct (IH q ltac:(lia) Hq) as (c & t & Hc & Hne).
    rewrite Hdm, digits_of_step, Hc by done.
    exists c, (t ++ [48 + r]). done.
Qed.

Lemma digits_of_canonical (n : N) : canonical (digits_of n) = true.
Proof.
  destruct (N.lt_ge_cases n 10) as [Hlt|Hge].
  - by rewrite digits_of_small.
  - destruct (digits_of_head_nonzero n ltac:(lia)) as (c & r & -> & Hc).
    cbn. destruct r; [done|]. by apply negb_true_iff, N.eqb_neq.
Qed.

End FormatShape.

(** X21.  [formatTime] shows three decimals for the times below [10^21]:
    for a finite number that is not negative and below [10^21] it prints
    whole seconds with no zero in front of another digit, a point and
    exactly three digits.  (From [10^21] on it prints an exponent.) *)
Theorem formatTime_three_decimals (x : number) :
  is_double x = true -> finite x = true ->
  (x < zero)%js = false -> (x < n1e21)%js = true ->
  exists sec ms : list N,
    formatTime x = Return (sec ++ str "." ++ ms)
    /\ digit_run None sec /\ canonical sec = true
    /\ digit_run (Some 3%nat) ms /\ length ms = 3%nat.
Proof.
  intros Hx Hfin Hneg Hlt. unfold formatTime. rewrite Hneg.
  assert (Hfixed : forall n : N,
             exists sec ms : list N,
               Return (fixed_digits n 3) = Return (sec ++ str "." ++ ms)
               /\ digit_run None sec /\ canonical sec = true
               /\ digit_run (Some 3%nat) ms /\ length ms = 3%nat).
  { intros n. destruct (fixed_digits_split n) as (V & M & HM & _ & ->).
    exists (digits_of V), (digits3 M).
    split; [done|]. split; [apply digits_of_run|].
    split; [apply digits_of_canonical|].
    split; [by apply digits3_run|done]. }
  destruct x as [sz|[]| |[] m e];
    try discriminate Hfin; try discriminate Hneg.
  - apply (Hfixed 0%N).
  - cbn [is_double valid_binary] in Hx.
    pose proof (at_least_1e21_ltb m e Hx) as H21.
    rewrite Hlt in H21. cbn [negb] in H21.
    cbn [toFixed app]. rewrite H21. apply Hfixed.
Qed.

Lemma formatTime_three_decimals_witness :
  exists sec ms : list N,
    formatTime (dec 610123 4) = Return (sec ++ str "." ++ ms)
    /\ digit_run None sec /\ canonical sec = true
    /\ digit_run (Some 3%nat) ms /\ length ms = 3%nat.
Proof. apply formatTime_three_decimals; reflexivity. Defined.
